(** * Panasonic Comfort Cloud for Homey: the API-access layer

    A shallow embedding of the TypeScript sources

    - [types/index.ts]                        (module [Types]),
    - [lib/panasonic/Mappers.ts]              (module [Mappers]),
    - [lib/panasonic/RateLimiter.ts]          (module [RateLimiter];
      the second part of [src/app.ts]),
    - [polling/PollScheduler.ts]              (module [PollScheduler];
      [src/unnamed/part_001]),
    - [lib/panasonic/ComfortCloudClient.ts]   (module [ComfortCloudClient]),
    - [lib/homey/SettingsTokenStore.ts]       (module [SettingsTokenStore]),
    - the store of the tokens in [app.ts]     (module [App]),

    followed by the properties of the specification that were checked
    against them.

    Conventions of the embedding.
    - A JavaScript [number] is an integer ([Z]); [NaN], infinities and
      fractions are outside the model.  Times are milliseconds.
    - An optional field ([x?: T], [undefined], [null]) is an [option].
    - A string is a sequence of bytes; of its characters only the
      letters A to Z have a lower case.
    - A JavaScript object used as a dictionary is a [gmap] with [string]
      keys; the [Map] of the client's state cache likewise.
    - A promise is described by how it settles: [Resolved], [Rejected] or
      [Pending] for a promise that never settles.
    - [Date.now()], [Math.random()], the upstream server and the
      credentials store are inputs of the model: a clock carried in the
      state, and oracles.  Time passes while a call to the server, a
      backoff wait, a pacing wait of the rate limiter or a write to the
      store is awaited.
    - A logger, where one is given, returns without throwing.  The
      calls of the loggers are left out of the client and the rate
      limiter: they do not change what is done next. *)

From Stdlib Require Import ZArith List String Ascii Lia Bool.
From stdpp Require Import base option gmap strings list fin_maps.
Import ListNotations.

Local Open Scope Z_scope.

(** [a ?? b]: the nullish-coalescing operator on optional values. *)
Definition nullish {A : Type} (a b : option A) : option A :=
  match a with
  | Some x => Some x
  | None => b
  end.

Infix "??" := nullish (at level 40, left associativity).

(** [a ?? d] where the right operand is always defined. *)
Definition nullish_or {A : Type} (a : option A) (d : A) : A :=
  match a with
  | Some x => x
  | None => d
  end.

(** A string is truthy when it is not empty. *)
Definition truthy (s : string) : bool :=
  match s with
  | EmptyString => false
  | String _ _ => true
  end.

(** Removes the first occurrence of [x]; [None] when there is none. *)
Fixpoint remove1 {A} `{EqDecision A} (x : A) (l : list A) : option (list A) :=
  match l with
  | [] => None
  | y :: l' =>
      if decide (x = y) then Some l'
      else option_map (cons y) (remove1 x l')
  end.

(* ------------------------------------------------------------------ *)
(** ** src/types/index.ts *)

Module Types.

Inductive ThermostatMode := ModeAuto | ModeCool | ModeHeat | ModeDry | ModeFan.
Inductive FanSpeed := FanAuto | FanLow | FanMedium | FanHigh.
Inductive SwingMode := SwingOff | SwingVertical | SwingHorizontal | SwingBoth.

(** The values found in [Record<string, unknown>]. *)
Inductive JsonValue :=
| JNumber (n : Z)
| JString (s : string)
| JBoolean (b : bool)
| JNull.

Record AuthTokens := {
  accessToken : string;
  refreshToken : string;
  expiresAt : Z;   (* epoch millis *)
  userId : string
}.

Record DeviceState := {
  on : bool;
  thermostatMode : ThermostatMode;
  targetTemperature : Z;
  minTemperature : option Z;
  maxTemperature : option Z;
  indoorTemperature : option Z;
  indoorHumidity : option Z;
  outdoorTemperature : option Z;
  fanSpeed : option FanSpeed;
  swingMode : option SwingMode;
  powerConsumption : option Z;
  energyConsumption : option Z;
  filterAlarm : option bool;
  connectionAlarm : option bool;
  timestamp : Z;
  raw : option (gmap string JsonValue)
}.

(** [Partial<DeviceState>]: every field of [DeviceState], optional. *)
Module Partial.
Record DeviceState := {
  on : option bool;
  thermostatMode : option ThermostatMode;
  targetTemperature : option Z;
  minTemperature : option Z;
  maxTemperature : option Z;
  indoorTemperature : option Z;
  indoorHumidity : option Z;
  outdoorTemperature : option Z;
  fanSpeed : option FanSpeed;
  swingMode : option SwingMode;
  powerConsumption : option Z;
  energyConsumption : option Z;
  filterAlarm : option bool;
  connectionAlarm : option bool;
  timestamp : option Z;
  raw : option (gmap string JsonValue)
}.

(** The patch [{}]. *)
Definition empty : DeviceState :=
  {| on := None; thermostatMode := None; targetTemperature := None;
     minTemperature := None; maxTemperature := None;
     indoorTemperature := None; indoorHumidity := None;
     outdoorTemperature := None; fanSpeed := None; swingMode := None;
     powerConsumption := None; energyConsumption := None;
     filterAlarm := None; connectionAlarm := None;
     timestamp := None; raw := None |}.
End Partial.

Record ProviderLoginRequest := {
  email : string;
  password : string
}.

Module ComfortDeviceFeatures.
Record t := {
  minTemperature : option Z;
  maxTemperature : option Z;
  fanSpeeds : list FanSpeed;
  supportsHumidity : bool;
  supportsOutdoorTemperature : bool;
  supportsEnergyMonitoring : bool;
  supportsSwingVertical : bool;
  supportsSwingHorizontal : bool
}.
End ComfortDeviceFeatures.

Module ComfortDevice.
Record t := {
  id : string;
  name : string;
  groupId : option string;
  serialNumber : option string;
  model : option string;
  features : ComfortDeviceFeatures.t;
  metadata : option (gmap string JsonValue)
}.
End ComfortDevice.

(** The strings of the union types. *)
Definition modeName (m : ThermostatMode) : string :=
  match m with
  | ModeAuto => "auto"
  | ModeCool => "cool"
  | ModeHeat => "heat"
  | ModeDry => "dry"
  | ModeFan => "fan"
  end.

Definition fanName (f : FanSpeed) : string :=
  match f with
  | FanAuto => "auto"
  | FanLow => "low"
  | FanMedium => "medium"
  | FanHigh => "high"
  end.

End Types.

(* ------------------------------------------------------------------ *)
(** ** src/lib/panasonic/Mappers.ts *)

Module Mappers.
Import Types.

(** [MODE_REVERSE_MAP]: the inverse of
    [{0: 'auto', 1: 'heat', 2: 'dry', 3: 'cool', 4: 'fan'}]. *)
Definition MODE_REVERSE_MAP (m : ThermostatMode) : Z :=
  match m with
  | ModeAuto => 0
  | ModeHeat => 1
  | ModeDry => 2
  | ModeCool => 3
  | ModeFan => 4
  end.

(** [FAN_SPEED_REVERSE_MAP]: the inverse of
    [{0: 'auto', 1: 'low', 2: 'medium', 3: 'high'}]. *)
Definition FAN_SPEED_REVERSE_MAP (f : FanSpeed) : Z :=
  match f with
  | FanAuto => 0
  | FanLow => 1
  | FanMedium => 2
  | FanHigh => 3
  end.

Definition clamp (value : Z) (min max : option Z) : Z :=
  let value := match min with Some m => Z.max m value | None => value end in
  let value := match max with Some m => Z.min m value | None => value end in
  value.

(** The [switch] on [patch.swingMode]: the pair (airSwingUD, airSwingLR). *)
Definition swingFlags (s : SwingMode) : Z * Z :=
  match s with
  | SwingOff => (0, 0)
  | SwingVertical => (1, 0)
  | SwingHorizontal => (0, 1)
  | SwingBoth => (1, 1)
  end.

(** [createWritePayload(patch, currentState)].  The payload is the
    object sent as [parameters]; all the values written are numbers. *)
Definition createWritePayload (patch : Partial.DeviceState)
    (currentState : option DeviceState) : gmap string Z :=
  let payload : gmap string Z := ∅ in
  let payload :=
    match Partial.on patch with
    | Some b => <["operate" := if b then 1 else 0]> payload
    | None => payload
    end in
  let payload :=
    match Partial.thermostatMode patch with
    | Some m => <["operationMode" := MODE_REVERSE_MAP m]> payload
    | None => payload
    end in
  let payload :=
    match Partial.targetTemperature patch with
    | Some t =>
        let min := Partial.minTemperature patch ?? (currentState ≫= minTemperature) in
        let max := Partial.maxTemperature patch ?? (currentState ≫= maxTemperature) in
        <["targetTemp" := clamp t min max]> payload
    | None => payload
    end in
  let payload :=
    match Partial.fanSpeed patch with
    | Some f => <["fanSpeed" := FAN_SPEED_REVERSE_MAP f]> payload
    | None => payload
    end in
  let payload :=
    match Partial.swingMode patch with
    | Some s =>
        <["airSwingLR" := snd (swingFlags s)]>
          (<["airSwingUD" := fst (swingFlags s)]> payload)
    | None => payload
    end in
  payload.

(** *** The read side

    The raw values are [unknown]: [None] stands for [undefined]. *)

(** [String.prototype.toLowerCase], on the letters A to Z; a string
    holds no other character that has a lower case. *)
Definition lowerAscii (a : ascii) : ascii :=
  let n := nat_of_ascii a in
  if (65 <=? n)%nat && (n <=? 90)%nat then ascii_of_nat (n + 32) else a.

Fixpoint toLowerCase (s : string) : string :=
  match s with
  | EmptyString => EmptyString
  | String a s' => String (lowerAscii a) (toLowerCase s')
  end.

(** [MODE_MAP] and [FAN_SPEED_MAP]; [key in MODE_MAP] for a number is
    [is_Some (MODE_MAP key)]. *)
Definition MODE_MAP (key : Z) : option ThermostatMode :=
  if key =? 0 then Some ModeAuto
  else if key =? 1 then Some ModeHeat
  else if key =? 2 then Some ModeDry
  else if key =? 3 then Some ModeCool
  else if key =? 4 then Some ModeFan
  else None.

Definition FAN_SPEED_MAP (key : Z) : option FanSpeed :=
  if key =? 0 then Some FanAuto
  else if key =? 1 then Some FanLow
  else if key =? 2 then Some FanMedium
  else if key =? 3 then Some FanHigh
  else None.

Definition DEFAULT_FAN_SPEEDS : list FanSpeed := [FanAuto; FanLow; FanMedium; FanHigh].

(** The keys of [MODE_REVERSE_MAP] itself. *)
Definition modeKeys : list string := map modeName [ModeAuto; ModeHeat; ModeDry; ModeCool; ModeFan].

(** [MODE_REVERSE_MAP] is made by [Object.fromEntries]: an ordinary
    object, which inherits the properties of [Object.prototype].  The
    operator [in] finds them too. *)
Definition objectPrototypeKeys : list string :=
  ["constructor"; "__defineGetter__"; "__defineSetter__"; "hasOwnProperty";
   "__lookupGetter__"; "__lookupSetter__"; "isPrototypeOf";
   "propertyIsEnumerable"; "toString"; "valueOf"; "__proto__"; "toLocaleString"].

(** [key in MODE_REVERSE_MAP] for a string. *)
Definition inModeReverseMap (key : string) : bool :=
  bool_decide (key ∈ modeKeys) || bool_decide (key ∈ objectPrototypeKeys).

(** [mapThermostatMode(rawMode)].  The result is typed [ThermostatMode]
    by a cast; what is returned is a string. *)
Definition mapThermostatMode (rawMode : option JsonValue) : string :=
  let fromNumber :=
    match rawMode with
    | Some (JNumber n) =>
        match MODE_MAP n with
        | Some m => modeName m
        | None => "auto"
        end
    | _ => "auto"
    end in
  match rawMode with
  | Some (JString s) =>
      let normalized := toLowerCase s in
      if inModeReverseMap normalized then normalized else fromNumber
  | _ => fromNumber
  end.

(** [DEFAULT_FAN_SPEEDS.includes(normalized)], with the speed found. *)
Definition fanSpeedNamed (normalized : string) : option FanSpeed :=
  List.find (fun f => String.eqb (fanName f) normalized) DEFAULT_FAN_SPEEDS.

(** [mapFanSpeed(rawSpeed)]. *)
Definition mapFanSpeed (rawSpeed : option JsonValue) : option FanSpeed :=
  match rawSpeed with
  | Some (JString s) => fanSpeedNamed (toLowerCase s)
  | Some (JNumber n) => FAN_SPEED_MAP n
  | _ => None
  end.

(** [typeof raw === 'number' ? raw : undefined]. *)
Definition asNumber (raw : option JsonValue) : option Z :=
  match raw with
  | Some (JNumber n) => Some n
  | _ => None
  end.

(** [mapSwingMode(rawUd, rawLr)]. *)
Definition mapSwingMode (rawUd rawLr : option JsonValue) : option SwingMode :=
  let ud := asNumber rawUd in
  let lr := asNumber rawLr in
  let positive (x : option Z) := match x with Some n => 0 <? n | None => false end in
  if bool_decide (ud = Some 0) && bool_decide (lr = Some 0) then Some SwingOff
  else if positive ud && positive lr then Some SwingBoth
  else if positive ud then Some SwingVertical
  else if positive lr then Some SwingHorizontal
  else None.

Record CapabilityPlan := { capabilities : list string }.

(** [Set.prototype.add]: a [Set] keeps its elements in the order in
    which they were first added. *)
Definition add (x : string) (l : list string) : list string :=
  if bool_decide (x ∈ l) then l else l ++ [x].

(** [buildCapabilityPlan(device)]. *)
Definition buildCapabilityPlan (device : ComfortDevice.t) : CapabilityPlan :=
  let features := ComfortDevice.features device in
  let capabilities :=
    ["onoff"; "thermostat_mode"; "target_temperature"; "measure_temperature"] in
  let capabilities :=
    if ComfortDeviceFeatures.supportsHumidity features
    then add "measure_humidity" capabilities else capabilities in
  let capabilities :=
    if ComfortDeviceFeatures.supportsOutdoorTemperature features
    then add "measure_temperature_outdoor" capabilities else capabilities in
  let capabilities :=
    if ComfortDeviceFeatures.supportsEnergyMonitoring features
    then add "meter_power" (add "measure_power" capabilities) else capabilities in
  let capabilities :=
    if (0 <? length (ComfortDeviceFeatures.fanSpeeds features))%nat
    then add "fan_speed" capabilities else capabilities in
  let capabilities :=
    if ComfortDeviceFeatures.supportsSwingVertical features
       || ComfortDeviceFeatures.supportsSwingHorizontal features
    then add "swing_mode" capabilities else capabilities in
  let capabilities := add "measure_temperature" capabilities in
  let capabilities := add "thermostat_mode" capabilities in
  let capabilities :=
    if ComfortDeviceFeatures.supportsEnergyMonitoring features
    then add "alarm_connection" capabilities else capabilities in
  let capabilities := add "alarm_filter" capabilities in
  {| capabilities := capabilities |}.

End Mappers.

(* ------------------------------------------------------------------ *)
(** ** src/lib/panasonic/RateLimiter.ts *)

Module RateLimiter.

(** [RateLimiterOptions] (the logger has no effect on the gate). *)
Module Options.
Record t := {
  maxConcurrent : option Z;
  minInterval : option Z;
  maxQueueSize : option Z
}.
End Options.

(** The readonly fields set by the constructor. *)
Record Config := {
  maxConcurrent : Z;
  minInterval : Z;
  maxQueueSize : option Z
}.

Definition constructor (options : Options.t) : Config :=
  {| maxConcurrent := Z.max 1 (nullish_or (Options.maxConcurrent options) 2);
     minInterval := Z.max 0 (nullish_or (Options.minInterval options) 200);
     maxQueueSize := Options.maxQueueSize options |}.

(** A [QueueItem] holds three closures; the model keeps the identity
    of the operation it belongs to. *)
Definition QueueItem := nat.

(** The mutable fields. *)
Record State := {
  queue : list QueueItem;
  activeCount : Z;
  lastStart : Z
}.

Definition initial : State :=
  {| queue := []; activeCount := 0; lastStart := 0 |}.

(** The guard of [schedule]:
    [this.maxQueueSize && this.queue.length >= this.maxQueueSize].
    A number is truthy when it is not 0. *)
Definition queueFull (c : Config) (s : State) : bool :=
  match maxQueueSize c with
  | Some m => negb (m =? 0) && (m <=? Z.of_nat (length (queue s)))
  | None => false
  end.

(** [this.queue.push(item)]. *)
Definition push (item : QueueItem) (s : State) : State :=
  {| queue := queue s ++ [item];
     activeCount := activeCount s;
     lastStart := lastStart s |}.

(** What one call of [process()] did. *)
Inductive Processed :=
| Nothing                    (* returned without starting anything *)
| Later (wait : Z)           (* setTimeout(() => this.process(), wait) *)
| Started (item : QueueItem) (* item.fn() was called *).

(** [process()], called at time [now]. *)
Definition process (c : Config) (now : Z) (s : State) : State * Processed :=
  match queue s with
  | [] => (s, Nothing)
  | item :: rest =>
      if maxConcurrent c <=? activeCount s then (s, Nothing)
      else
        let wait := Z.max 0 (minInterval c - (now - lastStart s)) in
        if 0 <? wait then (s, Later wait)
        else
          ({| queue := rest;
              activeCount := activeCount s + 1;
              lastStart := now |},
           Started item)
  end.

(** The first statement of the [finally] handler: [this.activeCount -= 1]. *)
Definition release (s : State) : State :=
  {| queue := queue s;
     activeCount := activeCount s - 1;
     lastStart := lastStart s |}.

(** *** The gate among its callers

    The gate together with what surrounds it: the operations whose
    promise has not settled, the pending [setTimeout] calls of
    [process], and three histories kept for the statements only. *)
Record System := {
  state : State;
  running : list QueueItem;   (* started, not settled *)
  timers : list Z;            (* due times of the pending timers *)
  accepted : list QueueItem;  (* pushed so far, in order *)
  started : list QueueItem;   (* started so far, in order *)
  refused : list QueueItem    (* rejected with "queue full" *)
}.

Definition boot : System :=
  {| state := initial; running := []; timers := [];
     accepted := []; started := []; refused := [] |}.

(** The effect of a call of [process()] on the surroundings. *)
Definition runProcess (c : Config) (now : Z) (sys : System) : System :=
  match process c now (state sys) with
  | (s, Nothing) =>
      {| state := s; running := running sys; timers := timers sys;
         accepted := accepted sys; started := started sys;
         refused := refused sys |}
  | (s, Later wait) =>
      {| state := s; running := running sys;
         timers := timers sys ++ [now + wait];
         accepted := accepted sys; started := started sys;
         refused := refused sys |}
  | (s, Started item) =>
      {| state := s; running := running sys ++ [item];
         timers := timers sys;
         accepted := accepted sys; started := started sys ++ [item];
         refused := refused sys |}
  end.

(** How a call of [schedule] ends for its caller, before the operation
    itself runs. *)
Inductive Scheduled :=
| Enqueued
| Threw (message : string).

(** [schedule(fn)] at time [now]; [item] names the operation. *)
Definition schedule (c : Config) (item : QueueItem) (now : Z) (sys : System)
    : Scheduled * System :=
  if queueFull c (state sys) then
    (Threw "Rate limiter queue full",
     {| state := state sys; running := running sys; timers := timers sys;
        accepted := accepted sys; started := started sys;
        refused := refused sys ++ [item] |})
  else
    (Enqueued,
     runProcess c now
       {| state := push item (state sys); running := running sys;
          timers := timers sys;
          accepted := accepted sys ++ [item]; started := started sys;
          refused := refused sys |}).

(** Removes the first timer that is due at [now]. *)
Fixpoint takeDue (now : Z) (l : list Z) : option (list Z) :=
  match l with
  | [] => None
  | t :: l' =>
      if t <=? now then Some l'
      else option_map (cons t) (takeDue now l')
  end.

(** What can happen to the gate. *)
Inductive Event :=
| Schedule (item : QueueItem) (now : Z)  (* a caller calls schedule *)
| TimerFires (now : Z)                   (* a pending timer of process fires *)
| Settles (item : QueueItem) (now : Z)   (* a running operation settles *).

(** One event; [None] when the event cannot happen in this state. *)
Definition step (c : Config) (e : Event) (sys : System) : option System :=
  match e with
  | Schedule item now => Some (snd (schedule c item now sys))
  | TimerFires now =>
      match takeDue now (timers sys) with
      | Some rest =>
          Some (runProcess c now
                  {| state := state sys; running := running sys;
                     timers := rest;
                     accepted := accepted sys; started := started sys;
                     refused := refused sys |})
      | None => None
      end
  | Settles item now =>
      match remove1 item (running sys) with
      | Some rest =>
          (* finally: this.activeCount -= 1; this.process() *)
          Some (runProcess c now
                  {| state := release (state sys); running := rest;
                     timers := timers sys;
                     accepted := accepted sys; started := started sys;
                     refused := refused sys |})
      | None => None
      end
  end.

Fixpoint run (c : Config) (events : list Event) (sys : System) : option System :=
  match events with
  | [] => Some sys
  | e :: events' =>
      match step c e sys with
      | Some sys' => run c events' sys'
      | None => None
      end
  end.

(** The invariant of the gate: the counter is the number of running
    operations, it is within [maxConcurrent], and the operations started
    so far followed by the queue are the operations accepted so far, in
    the order of their acceptance. *)
Definition wellFormed (c : Config) (sys : System) : Prop :=
  activeCount (state sys) = Z.of_nat (length (running sys)) /\
  activeCount (state sys) <= maxConcurrent c /\
  accepted sys = started sys ++ queue (state sys).

(** The queue holds at most [m] operations. *)
Definition boundedQueue (m : Z) (sys : System) : Prop :=
  Z.of_nat (length (queue (state sys))) <= m.

(** The events in which no running operation settles. *)
Definition settlesNothing (e : Event) : bool :=
  match e with
  | Settles _ _ => false
  | _ => true
  end.

(** [n] calls of [schedule], and nothing else. *)
Definition burst (n : nat) : list Event := repeat (Schedule 0%nat 0) n.

End RateLimiter.


(* ------------------------------------------------------------------ *)
(** ** src/lib/polling/PollScheduler.ts *)

Module PollScheduler.

(** [PollTask].  The action [run] is opaque: the model records when it
    is started and is told when it settles. *)
Module PollTask.
Record t := {
  id : string;
  interval : Z;
  immediate : option bool
}.
End PollTask.

(** A [NodeJS.Timeout]. *)
Definition Handle := nat.

(** The address of a [ScheduledTask] object.  The map [this.tasks], the
    closures given to [setTimeout] and the executions in flight all hold
    references to the same object. *)
Definition Ref := nat.

(** [ScheduledTask extends PollTask]. *)
Record ScheduledTask := {
  id : string;
  interval : Z;
  immediate : option bool;
  timeout : option Handle;
  lastRun : option Z
}.

(** A pending [setTimeout(async () => { await this.execute(task) }, delay)]. *)
Record Timer := {
  handle : Handle;
  due : Z;
  target : Ref
}.

(** [PollSchedulerOptions]: whether a [logger] is given, and the
    [jitter]; and [Math.random]: [random n] is the value of
    [Math.floor(Math.random() * this.jitter)] at the n-th draw. *)
Record Config := {
  logger : bool;
  jitter : Z;
  random : nat -> Z
}.

(** What a rejected promise of [task.run()] carries, or what the action
    threw: [null] or [undefined], or any other value.  Reading the
    property [message] throws a TypeError on the former only. *)
Inductive Reason :=
| Nullish
| Valued.

(** How the action of a task settles. *)
Inductive Settled :=
| Fulfilled
| Rejected (reason : Reason).

Record State := {
  objects : gmap Ref ScheduledTask;  (* the task objects *)
  tasks : list (string * Ref);       (* this.tasks, in insertion order *)
  running : bool;                    (* this.running *)
  now : Z;                           (* Date.now() *)
  pending : list Timer;              (* timers set, not fired, not cleared *)
  nextHandle : nat;
  nextRef : nat;
  executing : list Ref;              (* actions in flight *)
  draws : nat;                       (* calls of Math.random so far *)
  runs : list (string * Z);          (* history: every start of an action *)
  logged : list string;              (* history: tasks whose failure was logged *)
  thrown : list string;              (* history: errors thrown to callers *)
  escaped : list string              (* history: tasks whose failure made
                                        [execute] itself throw *)
}.

Definition initial : State :=
  {| objects := ∅; tasks := []; running := false; now := 0; pending := [];
     nextHandle := 0; nextRef := 0; executing := []; draws := 0;
     runs := []; logged := []; thrown := []; escaped := [] |}.

Definition set_objects (v : gmap Ref ScheduledTask) (s : State) : State :=
  {| objects := v; tasks := tasks s; running := running s; now := now s;
     pending := pending s; nextHandle := nextHandle s; nextRef := nextRef s;
     executing := executing s; draws := draws s; runs := runs s;
     logged := logged s; thrown := thrown s; escaped := escaped s |}.

Definition set_tasks (v : list (string * Ref)) (s : State) : State :=
  {| objects := objects s; tasks := v; running := running s; now := now s;
     pending := pending s; nextHandle := nextHandle s; nextRef := nextRef s;
     executing := executing s; draws := draws s; runs := runs s;
     logged := logged s; thrown := thrown s; escaped := escaped s |}.

Definition set_running (v : bool) (s : State) : State :=
  {| objects := objects s; tasks := tasks s; running := v; now := now s;
     pending := pending s; nextHandle := nextHandle s; nextRef := nextRef s;
     executing := executing s; draws := draws s; runs := runs s;
     logged := logged s; thrown := thrown s; escaped := escaped s |}.

Definition set_now (v : Z) (s : State) : State :=
  {| objects := objects s; tasks := tasks s; running := running s; now := v;
     pending := pending s; nextHandle := nextHandle s; nextRef := nextRef s;
     executing := executing s; draws := draws s; runs := runs s;
     logged := logged s; thrown := thrown s; escaped := escaped s |}.

Definition set_pending (v : list Timer) (s : State) : State :=
  {| objects := objects s; tasks := tasks s; running := running s; now := now s;
     pending := v; nextHandle := nextHandle s; nextRef := nextRef s;
     executing := executing s; draws := draws s; runs := runs s;
     logged := logged s; thrown := thrown s; escaped := escaped s |}.

Definition set_nextHandle (v : nat) (s : State) : State :=
  {| objects := objects s; tasks := tasks s; running := running s; now := now s;
     pending := pending s; nextHandle := v; nextRef := nextRef s;
     executing := executing s; draws := draws s; runs := runs s;
     logged := logged s; thrown := thrown s; escaped := escaped s |}.

Definition set_nextRef (v : nat) (s : State) : State :=
  {| objects := objects s; tasks := tasks s; running := running s; now := now s;
     pending := pending s; nextHandle := nextHandle s; nextRef := v;
     executing := executing s; draws := draws s; runs := runs s;
     logged := logged s; thrown := thrown s; escaped := escaped s |}.

Definition set_executing (v : list Ref) (s : State) : State :=
  {| objects := objects s; tasks := tasks s; running := running s; now := now s;
     pending := pending s; nextHandle := nextHandle s; nextRef := nextRef s;
     executing := v; draws := draws s; runs := runs s;
     logged := logged s; thrown := thrown s; escaped := escaped s |}.

Definition set_draws (v : nat) (s : State) : State :=
  {| objects := objects s; tasks := tasks s; running := running s; now := now s;
     pending := pending s; nextHandle := nextHandle s; nextRef := nextRef s;
     executing := executing s; draws := v; runs := runs s;
     logged := logged s; thrown := thrown s; escaped := escaped s |}.

Definition set_runs (v : list (string * Z)) (s : State) : State :=
  {| objects := objects s; tasks := tasks s; running := running s; now := now s;
     pending := pending s; nextHandle := nextHandle s; nextRef := nextRef s;
     executing := executing s; draws := draws s; runs := v;
     logged := logged s; thrown := thrown s; escaped := escaped s |}.

Definition set_logged (v : list string) (s : State) : State :=
  {| objects := objects s; tasks := tasks s; running := running s; now := now s;
     pending := pending s; nextHandle := nextHandle s; nextRef := nextRef s;
     executing := executing s; draws := draws s; runs := runs s;
     logged := v; thrown := thrown s; escaped := escaped s |}.

Definition set_thrown (v : list string) (s : State) : State :=
  {| objects := objects s; tasks := tasks s; running := running s; now := now s;
     pending := pending s; nextHandle := nextHandle s; nextRef := nextRef s;
     executing := executing s; draws := draws s; runs := runs s;
     logged := logged s; thrown := v; escaped := escaped s |}.

Definition set_escaped (v : list string) (s : State) : State :=
  {| objects := objects s; tasks := tasks s; running := running s; now := now s;
     pending := pending s; nextHandle := nextHandle s; nextRef := nextRef s;
     executing := executing s; draws := draws s; runs := runs s;
     logged := logged s; thrown := thrown s; escaped := v |}.

(** [this.tasks.get(id)]. *)
Fixpoint lookupTask (key : string) (l : list (string * Ref)) : option Ref :=
  match l with
  | [] => None
  | (k, r) :: l' => if String.eqb key k then Some r else lookupTask key l'
  end.

(** [this.tasks.delete(id)]. *)
Definition deleteTask (key : string) (l : list (string * Ref)) : list (string * Ref) :=
  filter (fun kr => negb (String.eqb key (fst kr))) l.

(** The global [clearTimeout(handle)]: a handle that is not pending any
    more is ignored. *)
Definition cancel (h : Handle) (l : list Timer) : list Timer :=
  filter (fun t => negb (Nat.eqb (handle t) h)) l.

(** [this.clearTimeout(task)]. *)
Definition clearTimeout (r : Ref) (s : State) : State :=
  match objects s !! r with
  | Some t =>
      match timeout t with
      | Some h =>
          set_objects
            (<[r := {| id := id t; interval := interval t;
                       immediate := immediate t;
                       timeout := None; lastRun := lastRun t |}]> (objects s))
            (set_pending (cancel h (pending s)) s)
      | None => s
      end
  | None => s
  end.

(** [this.calculateDelay(interval)]. *)
Definition calculateDelay (c : Config) (interval : Z) (s : State) : Z * State :=
  if jitter c <=? 0 then (interval, s)
  else (interval + random c (draws s), set_draws (S (draws s)) s).

(** [this.schedule(task, immediate)]. *)
Definition schedule (c : Config) (r : Ref) (immediate : bool) (s : State) : State :=
  if negb (running s) then s
  else
    match objects s !! r with
    | Some t =>
        let '(delay, s1) :=
          if immediate then (0, s) else calculateDelay c (interval t) s in
        let h := nextHandle s1 in
        set_objects
          (<[r := {| id := id t; interval := interval t;
                     immediate := PollScheduler.immediate t;
                     timeout := Some h; lastRun := lastRun t |}]> (objects s1))
          (set_pending (pending s1 ++ [{| handle := h; due := now s1 + delay; target := r |}])
             (set_nextHandle (S h) s1))
    | None => s
    end.

(** [this.execute(task)] up to the call of the action: the guard, then
    [task.lastRun = Date.now()] and [task.run()]. *)
Definition executeBegin (r : Ref) (s : State) : State :=
  if negb (running s) then s
  else
    match objects s !! r with
    | Some t =>
        set_objects
          (<[r := {| id := id t; interval := interval t;
                     immediate := immediate t;
                     timeout := timeout t; lastRun := Some (now s) |}]> (objects s))
          (set_executing (executing s ++ [r])
             (set_runs (runs s ++ [(id t, now s)]) s))
    | None => s
    end.

(** The [catch] clause of [execute]:
    [this.logger?.(..., task.id, (error as Error).message)].  Without a
    logger the arguments are not evaluated and nothing happens.  With a
    logger, reading [message] of [null] or [undefined] throws a
    TypeError: nothing is logged, and the TypeError leaves [execute]
    once the [finally] clause has run. *)
Definition executeCatch (c : Config) (r : Ref) (reason : Reason) (s : State) : State :=
  if logger c then
    match objects s !! r with
    | Some t =>
        match reason with
        | Valued => set_logged (logged s ++ [id t]) s
        | Nullish => set_escaped (escaped s ++ [id t]) s
        end
    | None => s
    end
  else s.

(** [this.execute(task)] from the moment the action settles: the [catch]
    clause after a failure, then the [finally] clause, which schedules
    the next run. *)
Definition executeEnd (c : Config) (r : Ref) (settled : Settled) (s : State) : State :=
  let s1 :=
    match settled with
    | Rejected reason => executeCatch c r reason s
    | Fulfilled => s
    end in
  if running s1 then schedule c r false s1 else s1.

(** The double quote character, for the messages of the errors. *)
Definition quote : string := String (ascii_of_nat 34) EmptyString.

(** [register(task)]. *)
Definition register (c : Config) (task : PollTask.t) (s : State) : State :=
  match lookupTask (PollTask.id task) (tasks s) with
  | Some _ =>
      set_thrown
        (thrown s ++ ["Poll task with id " +:+ quote +:+ PollTask.id task +:+ quote
                        +:+ " already registered"]) s
  | None =>
      let r := nextRef s in
      let state := {| id := PollTask.id task; interval := PollTask.interval task;
                      immediate := PollTask.immediate task;
                      timeout := None; lastRun := None |} in
      let s1 := set_objects (<[r := state]> (objects s))
                  (set_tasks (tasks s ++ [(PollTask.id task, r)])
                     (set_nextRef (S r) s)) in
      if running s1 then schedule c r (nullish_or (PollTask.immediate task) true) s1
      else s1
  end.

(** [updateInterval(id, interval)]. *)
Definition updateInterval (c : Config) (key : string) (newInterval : Z) (s : State) : State :=
  match lookupTask key (tasks s) with
  | None => set_thrown (thrown s ++ ["Unknown poll task: " +:+ key]) s
  | Some r =>
      let s1 :=
        match objects s !! r with
        | Some t =>
            set_objects
              (<[r := {| id := id t; interval := newInterval;
                         immediate := immediate t;
                         timeout := timeout t; lastRun := lastRun t |}]> (objects s)) s
        | None => s
        end in
      if running s1 then schedule c r false (clearTimeout r s1) else s1
  end.

(** [start()]. *)
Definition start (c : Config) (s : State) : State :=
  if running s then s
  else
    fold_left
      (fun acc kr =>
         match objects acc !! snd kr with
         | Some t => schedule c (snd kr) (nullish_or (immediate t) true) acc
         | None => acc
         end)
      (tasks s) (set_running true s).

(** [stop()]. *)
Definition stop (s : State) : State :=
  if negb (running s) then s
  else
    fold_left (fun acc kr => clearTimeout (snd kr) acc)
      (tasks s) (set_running false s).

(** [unregister(id)]. *)
Definition unregister (key : string) (s : State) : State :=
  match lookupTask key (tasks s) with
  | None => s
  | Some r =>
      let s1 := clearTimeout r s in
      set_tasks (deleteTask key (tasks s1)) s1
  end.

(** Takes the timer with handle [h] out of the pending ones when it is due. *)
Fixpoint fire (h : Handle) (clock : Z) (l : list Timer) : option (Timer * list Timer) :=
  match l with
  | [] => None
  | t :: l' =>
      if Nat.eqb (handle t) h then
        if due t <=? clock then Some (t, l') else None
      else
        match fire h clock l' with
        | Some (t', rest) => Some (t', t :: rest)
        | None => None
        end
  end.

Inductive Event :=
| Register (task : PollTask.t)
| UpdateInterval (key : string) (newInterval : Z)
| Start
| Stop
| Unregister (key : string)
| Advance (dt : Z)                   (* time passes *)
| Fires (h : Handle)                 (* a due timer fires *)
| Completes (r : Ref) (settled : Settled) (* an action in flight settles *).

(** The events that are no call of the scheduler's interface. *)
Definition environment (e : Event) : bool :=
  match e with
  | Advance _ | Fires _ | Completes _ _ => true
  | _ => false
  end.

(** One event; [None] when it cannot happen in this state. *)
Definition step (c : Config) (e : Event) (s : State) : option State :=
  match e with
  | Register task => Some (register c task s)
  | UpdateInterval key newInterval => Some (updateInterval c key newInterval s)
  | Start => Some (start c s)
  | Stop => Some (stop s)
  | Unregister key => Some (unregister key s)
  | Advance dt => if 0 <=? dt then Some (set_now (now s + dt) s) else None
  | Fires h =>
      match fire h (now s) (pending s) with
      | Some (t, rest) => Some (executeBegin (target t) (set_pending rest s))
      | None => None
      end
  | Completes r settled =>
      match remove1 r (executing s) with
      | Some rest => Some (executeEnd c r settled (set_executing rest s))
      | None => None
      end
  end.

Fixpoint run (c : Config) (events : list Event) (s : State) : option State :=
  match events with
  | [] => Some s
  | e :: events' =>
      match step c e s with
      | Some s' => run c events' s'
      | None => None
      end
  end.

(** The timer with handle [h], set for the task object [r], is cancelled
    and forgotten: no pending timer has this handle, and the object
    records no timer. *)
Definition cleared (r : Ref) (h : Handle) (s : State) : Prop :=
  (forall t, t ∈ pending s -> handle t <> h) /\
  (exists o, objects s !! r = Some o /\ timeout o = None).

(** The registrations are sound: no id is registered twice, and every
    entry of [this.tasks] refers to a task object that carries its id. *)
Definition consistent (s : State) : Prop :=
  NoDup (map fst (tasks s)) /\
  (forall key r, (key, r) ∈ tasks s ->
     (r < nextRef s)%nat /\ exists o, objects s !! r = Some o /\ id o = key) /\
  (forall t, t ∈ pending s -> (handle t < nextHandle s)%nat).

(** [s'] has the registrations of [s]; every task object of [s] is
    still there, with its id; and the handles of the pending timers are
    below [nextHandle] in [s'] if they were in [s]. *)
Definition sameTasks (s s' : State) : Prop :=
  tasks s' = tasks s /\ nextRef s' = nextRef s /\
  (forall r o, objects s !! r = Some o ->
     exists o', objects s' !! r = Some o' /\ id o' = id o) /\
  (nextHandle s <= nextHandle s')%nat /\
  (forall t, t ∈ pending s' -> t ∈ pending s \/ (nextHandle s <= handle t < nextHandle s')%nat).

(** What a logger is called with for a failure of the task [key], and
    what leaves [execute] as a TypeError, by what was thrown. *)
Definition logs (reason : Reason) (key : string) : list string :=
  match reason with
  | Valued => [key]
  | Nullish => []
  end.

Definition escapes (reason : Reason) (key : string) : list string :=
  match reason with
  | Valued => []
  | Nullish => [key]
  end.

(** The value of [Math.floor(Math.random() * this.jitter)] that the next
    call of [calculateDelay] adds to the interval; 0 without jitter. *)
Definition nextJitter (c : Config) (s : State) : Z :=
  if jitter c <=? 0 then 0 else random c (draws s).


End PollScheduler.


(* ------------------------------------------------------------------ *)
(** ** src/lib/panasonic/ComfortCloudClient.ts *)

Module ComfortCloudClient.
Import Types.

(** What a promise of the client is rejected with: the error thrown by
    axios ([status] is [error.response?.status]: absent for a network
    failure or a timeout), or an [Error] made by [new Error(message)]. *)
Inductive Error :=
| AxiosError (status : option Z) (message : string)
| JsError (message : string).

(** How a promise ends. *)
Inductive Outcome (A : Type) :=
| Resolved (a : A)
| Rejected (e : Error)
| Pending.

Arguments Resolved {A} a.
Arguments Rejected {A} e.
Arguments Pending {A}.

(** The result of a synchronous function that may throw. *)
Inductive Result (A : Type) :=
| Returned (a : A)
| Thrown (e : Error).

Arguments Returned {A} a.
Arguments Thrown {A} e.

Inductive Method := GET | POST.

(** The [data] of the requests the client makes. *)
Inductive RequestData :=
| NoData
| LoginData (id password : string)
| RefreshData (refreshToken : string)
| ControlData (deviceGuid : string) (parameters : gmap string Z).

Record AxiosRequestConfig := {
  url : string;
  method : Method;
  data : RequestData
}.

(** What is handed to [this.http.request]: the configuration and the
    [X-User-Authorization] header. *)
Record HttpRequest := {
  config : AxiosRequestConfig;
  authorization : option string
}.

Module LoginResponse.
Record User := { id : option string }.
Record t := {
  uToken : option string;
  accessToken : option string;
  refreshToken : option string;
  expiresIn : option Z;
  expires_in : option Z;
  userId : option string;
  user : option User
}.
(** A body with none of the fields. *)
Definition empty : t :=
  {| uToken := None; accessToken := None; refreshToken := None;
     expiresIn := None; expires_in := None; userId := None; user := None |}.
End LoginResponse.

Record DeviceStatusResponse := {
  deviceGuid : option string;
  parameters : option (gmap string JsonValue)
}.

(** The decoded body of a successful response. *)
Inductive Body :=
| TokensBody (r : LoginResponse.t)
| StatusBody (r : DeviceStatusResponse)
| OtherBody.

(** [request<LoginResponse>]: the cast is unchecked; another body has
    none of the fields read. *)
Definition asLoginResponse (b : Body) : LoginResponse.t :=
  match b with
  | TokensBody r => r
  | _ => LoginResponse.empty
  end.

(** The upstream server, as axios shows it: a call succeeds with a body
    or fails, after some time. *)
Inductive HttpResult :=
| Success (body : Body)
| Failure (status : option Z) (message : string).

Record Reply := {
  result : HttpResult;
  latency : Z
}.

(** [server n r]: the reply to the request [r] when it is the n-th call
    that reaches axios (counting from 0). *)
Definition Server := nat -> HttpRequest -> Reply.

(** What the client does that can be observed from outside. *)
Inductive Effect :=
| Http (r : HttpRequest)   (* this.http.request *)
| Backoff (ms : Z)         (* await delay(backoff) *).

(** The credentials store as the client's [setTokens] meets it.  The
    app hands the client a [StorageCredentialsClient] over a
    [SettingsTokenStore]: a write either is done, or throws again what
    the settings manager threw and leaves what was stored; clearing
    never throws.  A write takes some time. *)
Inductive Written :=
| Saved
| WriteFailed (message : string).

Record StoreReply := {
  written : Written;
  took : Z
}.

(** [credentials n]: how the n-th write to the store ends (counting
    from 0). *)
Definition Credentials := nat -> StoreReply.

(** The client, its rate limiter, its credentials store and the clock. *)
Record World := {
  now : Z;
  limiter : RateLimiter.State;
  tokens : option AuthTokens;
  tokensLoaded : bool;
  store : option AuthTokens;              (* what the store holds *)
  stateCache : gmap string DeviceState;
  trace : list Effect;
  credentialsClient : Credentials;        (* how the store answers a write *)
  writes : nat                            (* the writes made so far *)
}.

Definition set_now (v : Z) (w : World) : World :=
  {| now := v; limiter := limiter w; tokens := tokens w;
     tokensLoaded := tokensLoaded w; store := store w;
     stateCache := stateCache w; trace := trace w;
     credentialsClient := credentialsClient w; writes := writes w |}.

Definition set_limiter (v : RateLimiter.State) (w : World) : World :=
  {| now := now w; limiter := v; tokens := tokens w;
     tokensLoaded := tokensLoaded w; store := store w;
     stateCache := stateCache w; trace := trace w;
     credentialsClient := credentialsClient w; writes := writes w |}.

Definition set_tokens (v : option AuthTokens) (w : World) : World :=
  {| now := now w; limiter := limiter w; tokens := v;
     tokensLoaded := tokensLoaded w; store := store w;
     stateCache := stateCache w; trace := trace w;
     credentialsClient := credentialsClient w; writes := writes w |}.

Definition set_tokensLoaded (v : bool) (w : World) : World :=
  {| now := now w; limiter := limiter w; tokens := tokens w;
     tokensLoaded := v; store := store w;
     stateCache := stateCache w; trace := trace w;
     credentialsClient := credentialsClient w; writes := writes w |}.

Definition set_store (v : option AuthTokens) (w : World) : World :=
  {| now := now w; limiter := limiter w; tokens := tokens w;
     tokensLoaded := tokensLoaded w; store := v;
     stateCache := stateCache w; trace := trace w;
     credentialsClient := credentialsClient w; writes := writes w |}.

Definition set_stateCache (v : gmap string DeviceState) (w : World) : World :=
  {| now := now w; limiter := limiter w; tokens := tokens w;
     tokensLoaded := tokensLoaded w; store := store w;
     stateCache := v; trace := trace w;
     credentialsClient := credentialsClient w; writes := writes w |}.

Definition set_trace (v : list Effect) (w : World) : World :=
  {| now := now w; limiter := limiter w; tokens := tokens w;
     tokensLoaded := tokensLoaded w; store := store w;
     stateCache := stateCache w; trace := v;
     credentialsClient := credentialsClient w; writes := writes w |}.

Definition set_credentialsClient (v : Credentials) (w : World) : World :=
  {| now := now w; limiter := limiter w; tokens := tokens w;
     tokensLoaded := tokensLoaded w; store := store w;
     stateCache := stateCache w; trace := trace w;
     credentialsClient := v; writes := writes w |}.

Definition set_writes (v : nat) (w : World) : World :=
  {| now := now w; limiter := limiter w; tokens := tokens w;
     tokensLoaded := tokensLoaded w; store := store w;
     stateCache := stateCache w; trace := trace w;
     credentialsClient := credentialsClient w; writes := v |}.

(** The requests made so far, and the backoff waits made so far. *)
Definition requestsOf (l : list Effect) : list HttpRequest :=
  omap (fun e => match e with Http r => Some r | Backoff _ => None end) l.

Definition backoffsOf (l : list Effect) : list Z :=
  omap (fun e => match e with Backoff ms => Some ms | Http _ => None end) l.

(** *** Asynchronous computations

    An [async] function is a function of the world that returns how its
    promise ends and the world at that moment; [None] only when the
    recursion bound of [request] below is used up. *)
Definition M (A : Type) : Type := World -> option (Outcome A * World).

Definition ret {A} (a : A) : M A := fun w => Some (Resolved a, w).

Definition throw {A} (e : Error) : M A := fun w => Some (Rejected e, w).

Definition bind {A B} (m : M A) (k : A -> M B) : M B := fun w =>
  match m w with
  | Some (Resolved a, w') => k a w'
  | Some (Rejected e, w') => Some (Rejected e, w')
  | Some (Pending, w') => Some (Pending, w')
  | None => None
  end.

(** With these instances [x ← m; k] is [bind m (fun x => k)] and [m;; k]
    is [bind m (fun _ => k)]. *)
#[export] Instance M_ret : MRet M := @ret.
#[export] Instance M_bind : MBind M := fun A B k m => bind m k.

(** [try { m } catch (error) { handler error }]. *)
Definition catch {A} (m : M A) (handler : Error -> M A) : M A := fun w =>
  match m w with
  | Some (Rejected e, w') => handler e w'
  | other => other
  end.

Definition lift {A} (r : Result A) : M A :=
  match r with
  | Returned a => ret a
  | Thrown e => throw e
  end.

(** Reading and updating the fields of [this]. *)
Definition gets {A} (f : World -> A) : M A := fun w => Some (Resolved (f w), w).

Definition modify (f : World -> World) : M unit := fun w => Some (Resolved tt, f w).

Definition dateNow : M Z := gets now.

(** [await delay(ms)]. *)
Definition delay (ms : Z) : M unit := fun w =>
  Some (Resolved tt, set_trace (trace w ++ [Backoff ms]) (set_now (now w + ms) w)).

(** [parseTokens(response, previous)] at time [now].  [!token] holds of
    an absent token and of the empty string. *)
Definition falsy (o : option string) : bool :=
  match o with
  | Some s => negb (truthy s)
  | None => true
  end.

Definition parseTokens (response : LoginResponse.t) (previous : option AuthTokens)
    (now : Z) : Result AuthTokens :=
  let accessToken := LoginResponse.uToken response ?? LoginResponse.accessToken response in
  let refreshToken :=
    LoginResponse.refreshToken response ?? (Types.refreshToken <$> previous) in
  if falsy accessToken || falsy refreshToken then
    Thrown (JsError "Comfort Cloud authentication failed")
  else
    let expiresIn :=
      nullish_or (LoginResponse.expiresIn response ?? LoginResponse.expires_in response) 3600 in
    let userId :=
      nullish_or
        (LoginResponse.userId response
           ?? (LoginResponse.user response ≫= LoginResponse.id)
           ?? (Types.userId <$> previous))
        "unknown" in
    Returned
      {| Types.accessToken := nullish_or accessToken "";
         Types.refreshToken := nullish_or refreshToken "";
         Types.userId := userId;
         Types.expiresAt := now + Z.max (expiresIn - 60) 60 * 1000 |}.

(** [getTokens()]: the store is read once, and only before the first
    [setTokens].  The read does not throw: [SettingsTokenStore.get]
    yields [null] for a value that is absent, invalid or cannot be
    read, which is the case of a store that holds nothing. *)
Definition getTokens : M (option AuthTokens) := fun w =>
  if tokensLoaded w then Some (Resolved (tokens w), w)
  else
    let w' := set_tokensLoaded true (set_tokens (store w) w) in
    Some (Resolved (tokens w'), w').

(** [setTokens(tokens)]: [this.tokens] and [this.tokensLoaded] are
    assigned first; then the write to the store is awaited.  When the
    store throws, the promise is rejected with its error, and the
    session in memory is the new one all the same.  With [null] the
    store is cleared, which does not throw: a failure leaves what was
    stored. *)
Definition setTokens (t : option AuthTokens) : M unit := fun w =>
  let w1 := set_tokensLoaded true (set_tokens t w) in
  let reply := credentialsClient w1 (writes w1) in
  let w2 := set_writes (S (writes w1)) (set_now (now w1 + Z.max 0 (took reply)) w1) in
  match written reply, t with
  | Saved, _ => Some (Resolved tt, set_store t w2)
  | WriteFailed message, Some _ => Some (Rejected (JsError message), w2)
  | WriteFailed _, None => Some (Resolved tt, w2)
  end.

Section Pipeline.

(** The shared rate limiter and the upstream server. *)
Variable gate : RateLimiter.Config.
Variable server : Server.

(** [this.http.request({...config, headers})]: on a status outside 2xx,
    and on a network failure or a timeout, axios rejects. *)
Definition httpRequest (r : HttpRequest) : M Body := fun w =>
  let reply := server (length (requestsOf (trace w))) r in
  let w' := set_trace (trace w ++ [Http r]) (set_now (now w + Z.max 0 (latency reply)) w) in
  match result reply with
  | Success body => Some (Resolved body, w')
  | Failure status message => Some (Rejected (AxiosError status message), w')
  end.

(** The operation handed to the rate limiter has been started
    ([item.fn()]).  When its promise settles, the [finally] handler
    releases the slot and calls [process()]; while it is pending the
    slot stays taken. *)
Definition started {A} (fn : M A) : M A := fun w =>
  match fn w with
  | Some (Pending, w') => Some (Pending, w')
  | Some (r, w') =>
      Some (r, set_limiter
                 (fst (RateLimiter.process gate (now w') (RateLimiter.release (limiter w'))))
                 w')
  | None => None
  end.

(** [this.rateLimiter.schedule(fn)] as one logical call of the client
    sees it: no other caller uses the limiter meanwhile, so the queue
    holds nothing but the operation that was just pushed, and the
    operations that are active are the ones this operation is nested in.
    - When [process()] starts nothing because every slot is taken, the
      operation stays queued: the slots are held by operations that
      wait for this one, and the promise never settles.  (Other callers
      would not help: until a running operation settles, a gate whose
      slots are taken starts nothing, see
      [saturated_gate_starts_nothing].)
    - When [process()] sets a timer, the clock moves to the moment it
      fires and [process()] runs again. *)
Definition schedule {A} (fn : M A) : M A := fun w =>
  if RateLimiter.queueFull gate (limiter w) then
    Some (Rejected (JsError "Rate limiter queue full"), w)
  else
    let item := length (requestsOf (trace w)) in
    let w1 := set_limiter (RateLimiter.push item (limiter w)) w in
    match RateLimiter.process gate (now w1) (limiter w1) with
    | (s, RateLimiter.Started _) => started fn (set_limiter s w1)
    | (s, RateLimiter.Nothing) => Some (Pending, set_limiter s w1)
    | (s, RateLimiter.Later wait) =>
        let w2 := set_now (now w1 + wait) (set_limiter s w1) in
        match RateLimiter.process gate (now w2) (limiter w2) with
        | (s', RateLimiter.Started _) => started fn (set_limiter s' w2)
        | (s', _) => Some (Pending, set_limiter s' w2)
        end
    end.

(** The private method [request], as the methods below call it. *)
Definition Requester := AxiosRequestConfig -> bool -> nat -> M Body.

(** [refresh(tokens)]. *)
Definition refreshWith (request : Requester) (tokens : AuthTokens) : M AuthTokens :=
  response ← request
    {| url := "/auth/token"; method := POST;
       data := RefreshData (Types.refreshToken tokens) |} false 0%nat;
  now ← dateNow;
  nextTokens ← lift (parseTokens (asLoginResponse response) (Some tokens) now);
  setTokens (Some nextTokens);;
  ret nextTokens.

(** [ensureAuthenticated()]. *)
Definition ensureAuthenticatedWith (request : Requester) : M AuthTokens :=
  tokens ← getTokens;
  match tokens with
  | None => throw (JsError "Comfort Cloud credentials missing")
  | Some tokens =>
      now ← dateNow;
      let expiresSoon := Types.expiresAt tokens - now <? 60 * 1000 in
      if expiresSoon then refreshWith request tokens else ret tokens
  end.

(** [handleUnauthorized()]. *)
Definition handleUnauthorizedWith (request : Requester) : M unit :=
  tokens ← getTokens;
  match tokens with
  | None => throw (JsError "Comfort Cloud tokens unavailable")
  | Some tokens => (refreshWith request tokens;; ret tt)
  end.

(** [status === 401]. *)
Definition statusIs (n : Z) (status : option Z) : bool :=
  match status with
  | Some s => s =? n
  | None => false
  end.

(** [status === 429 || (status ?? 0) >= 500]. *)
Definition retryable (status : option Z) : bool :=
  statusIs 429 status || (500 <=? nullish_or status 0).

(** [Math.min(1000 * Math.pow(2, attempt), 15000)]. *)
Definition backoff (attempt : nat) : Z :=
  Z.min (1000 * 2 ^ Z.of_nat attempt) 15000.

(** [request(config, { requiresAuth, attempt })].  The function calls
    itself, directly and through [refresh]; [fuel] bounds the depth of
    these calls (10 is enough, see [request_terminates]).  The calls of
    the logger are left out: they do not change what is done next. *)
Fixpoint request (fuel : nat) (config : AxiosRequestConfig) (requiresAuth : bool)
    (attempt : nat) {struct fuel} : M Body :=
  match fuel with
  | O => fun _ => None
  | S fuel' =>
      authorization ←
        (if requiresAuth then
           tokens ← ensureAuthenticatedWith (request fuel');
           ret (Some (Types.accessToken tokens))
         else ret None);
      schedule
        (catch
           (httpRequest {| config := config; authorization := authorization |})
           (fun error =>
              match error with
              | AxiosError status message =>
                  if statusIs 401 status && requiresAuth && (attempt <? 2)%nat then
                    (handleUnauthorizedWith (request fuel');;
                     request fuel' config requiresAuth (attempt + 1)%nat)
                  else if retryable status && (attempt <? 4)%nat then
                    (delay (backoff attempt);;
                     request fuel' config requiresAuth (attempt + 1)%nat)
                  else throw error
              | JsError _ => throw error
              end))
  end.

Definition refresh (fuel : nat) : AuthTokens -> M AuthTokens :=
  refreshWith (request fuel).

Definition ensureAuthenticated (fuel : nat) : M AuthTokens :=
  ensureAuthenticatedWith (request fuel).

Definition handleUnauthorized (fuel : nat) : M unit :=
  handleUnauthorizedWith (request fuel).

(** The two parts of [request]: lines 161 to 164, which settle the
    header [X-User-Authorization] (the access token that
    [ensureAuthenticated] yields, none for a request without
    authentication), and the operation handed to the rate limiter,
    lines 166 to 201.  [request (S fuel)] is the first followed by
    [schedule] of the second, see [request_parts]. *)
Definition headers (fuel : nat) (requiresAuth : bool) : M (option string) :=
  if requiresAuth then
    tokens ← ensureAuthenticated fuel;
    ret (Some (Types.accessToken tokens))
  else ret None.

Definition operation (fuel : nat) (config : AxiosRequestConfig) (requiresAuth : bool)
    (attempt : nat) (authorization : option string) : M Body :=
  catch
    (httpRequest {| config := config; authorization := authorization |})
    (fun error =>
       match error with
       | AxiosError status message =>
           if statusIs 401 status && requiresAuth && (attempt <? 2)%nat then
             (handleUnauthorized fuel;;
              request fuel config requiresAuth (attempt + 1)%nat)
           else if retryable status && (attempt <? 4)%nat then
             (delay (backoff attempt);;
              request fuel config requiresAuth (attempt + 1)%nat)
           else throw error
       | JsError _ => throw error
       end).

(** [login(credentials)]. *)
Definition login (fuel : nat) (credentials : ProviderLoginRequest) : M AuthTokens :=
  response ← request fuel
    {| url := "/auth/login"; method := POST;
       data := LoginData (email credentials) (password credentials) |} false 0%nat;
  now ← dateNow;
  tokens ← lift (parseTokens (asLoginResponse response) None now);
  setTokens (Some tokens);;
  ret tokens.

(** The field mapper [mapDeviceState] of Mappers.ts decodes a read
    response; the client only stores and returns what it yields. *)
Variable mapDeviceState : Body -> Z -> DeviceState.

(** [readState(deviceId)]; [encodeURIComponent] is taken as the identity. *)
Definition readState (fuel : nat) (deviceId : string) : M DeviceState :=
  ensureAuthenticated fuel;;
  response ← request fuel
    {| url := "/deviceStatus/" +:+ deviceId; method := GET; data := NoData |}
    true 0%nat;
  now ← dateNow;
  let state := mapDeviceState response now in
  modify (fun w => set_stateCache (<[deviceId := state]> (stateCache w)) w);;
  ret state.

(** The request [writeState] makes: lines 140 to 150 of the method. *)
Definition writeRequest (cache : gmap string DeviceState) (deviceId : string)
    (patch : Partial.DeviceState) : AxiosRequestConfig :=
  let currentState := cache !! deviceId in
  let payload := Mappers.createWritePayload patch currentState in
  {| url := "/deviceStatus/control"; method := POST;
     data := ControlData deviceId payload |}.

(** [writeState(deviceId, patch)]. *)
Definition writeState (fuel : nat) (deviceId : string) (patch : Partial.DeviceState)
    : M DeviceState :=
  ensureAuthenticated fuel;;
  cache ← gets stateCache;
  request fuel (writeRequest cache deviceId patch) true 0%nat;;
  updated ← readState fuel deviceId;
  ret updated.

End Pipeline.

(** *** Worlds met along a call *)

(** The rate limiter can start one more operation at once: the queue
    is empty and a slot is free. *)
Definition free (gate : RateLimiter.Config) (w : World) : Prop :=
  RateLimiter.queueFull gate (limiter w) = false /\
  RateLimiter.queue (limiter w) = [] /\
  RateLimiter.activeCount (limiter w) < RateLimiter.maxConcurrent gate.

(** Every slot is taken. *)
Definition saturated (gate : RateLimiter.Config) (w : World) : Prop :=
  RateLimiter.queueFull gate (limiter w) = false /\
  RateLimiter.queue (limiter w) = [] /\
  RateLimiter.maxConcurrent gate <= RateLimiter.activeCount (limiter w).

(** The moment at which an operation scheduled now is started: at once,
    or [minInterval] after the last start. *)
Definition startTime (gate : RateLimiter.Config) (w : World) : Z :=
  Z.max (now w) (RateLimiter.lastStart (limiter w) + RateLimiter.minInterval gate).

(** The world in which an operation scheduled in [w] is started. *)
Definition admitted (gate : RateLimiter.Config) (w : World) : World :=
  set_now (startTime gate w)
    (set_limiter
       {| RateLimiter.queue := [];
          RateLimiter.activeCount := RateLimiter.activeCount (limiter w) + 1;
          RateLimiter.lastStart := startTime gate w |} w).

(** The world after the call [r] took [ms] milliseconds. *)
Definition sent (r : HttpRequest) (ms : Z) (w : World) : World :=
  set_trace (trace w ++ [Http r]) (set_now (now w + Z.max 0 ms) w).

(** The world after a backoff wait of [ms] milliseconds. *)
Definition waited (ms : Z) (w : World) : World :=
  set_trace (trace w ++ [Backoff ms]) (set_now (now w + ms) w).

(** The world after a started operation settled and gave its slot back. *)
Definition released (w : World) : World :=
  set_limiter (RateLimiter.release (limiter w)) w.

(** The request [refresh] makes. *)
Definition refreshRequest (tokens : AuthTokens) : AxiosRequestConfig :=
  {| url := "/auth/token"; method := POST;
     data := RefreshData (Types.refreshToken tokens) |}.

(** Every reply of the server is a failure with status 429 or 5xx. *)
Definition alwaysUnavailable (server : Server) : Prop :=
  forall n r, exists status message,
    result (server n r) = Failure (Some status) message /\
    (status = 429 \/ 500 <= status).

(** The header a request carries in the world [w]: none without
    authentication, and with it the access token of a session that is
    loaded and is not about to expire. *)
Definition authorized (requiresAuth : bool) (w : World) (authorization : option string)
    : Prop :=
  if requiresAuth then
    exists session,
      tokensLoaded w = true /\ tokens w = Some session /\
      60 * 1000 <= Types.expiresAt session - now w /\
      authorization = Some (Types.accessToken session)
  else authorization = None.

(** The lifetime in seconds that a token response declares; 3600 when
    it declares none. *)
Definition lifetimeOf (response : LoginResponse.t) : Z :=
  nullish_or (LoginResponse.expiresIn response ?? LoginResponse.expires_in response) 3600.

(** The session is the same in both worlds, in memory and in the
    store, and the store has not been written to. *)
Definition sameSession (w w' : World) : Prop :=
  tokens w' = tokens w /\ tokensLoaded w' = tokensLoaded w /\ store w' = store w /\
  writes w' = writes w /\ credentialsClient w' = credentialsClient w.

(** The computation does not touch the session. *)
Definition keepsSession {A} (m : M A) : Prop :=
  forall w o w', m w = Some (o, w') -> sameSession w w'.

(** The computation gives an answer in every world. *)
Definition total {A} (m : M A) : Prop := forall w, is_Some (m w).

(** A store on which every write is done, at once. *)
Definition reliable : Credentials := fun _ => {| written := Saved; took := 0 |}.

(** A world in which nothing has happened yet: an idle rate limiter,
    the tokens not read from the store, and a store that works. *)
Definition fresh (clock : Z) (stored : option AuthTokens) : World :=
  {| now := clock; limiter := RateLimiter.initial; tokens := None;
     tokensLoaded := false; store := stored; stateCache := ∅; trace := [];
     credentialsClient := reliable; writes := 0 |}.

(** The request [login] makes. *)
Definition loginRequest (credentials : ProviderLoginRequest) : AxiosRequestConfig :=
  {| url := "/auth/login"; method := POST;
     data := LoginData (email credentials) (password credentials) |}.

(** The two worlds differ in the clock and the rate limiter only. *)
Definition sameButGate (w w' : World) : Prop :=
  tokens w' = tokens w /\ tokensLoaded w' = tokensLoaded w /\ store w' = store w /\
  stateCache w' = stateCache w /\ trace w' = trace w /\
  writes w' = writes w /\ credentialsClient w' = credentialsClient w.

(** The computation does not touch the state cache. *)
Definition keepsCache {A} (m : M A) : Prop :=
  forall w o w', m w = Some (o, w') -> stateCache w' = stateCache w.

(** What [getTokens()] yields in the world [w]: the tokens in memory
    once they are loaded, before that the tokens of the store. *)
Definition sessionOf (w : World) : option AuthTokens :=
  if tokensLoaded w then tokens w else store w.

(** The world after [getTokens()]. *)
Definition loaded (w : World) : World :=
  if tokensLoaded w then w else set_tokensLoaded true (set_tokens (store w) w).

(** The world after [setTokens(tokens)] assigned the session in memory
    and the write to the store took [ms] milliseconds, before the store
    holds anything new. *)
Definition assigned (t : AuthTokens) (ms : Z) (w : World) : World :=
  set_writes (S (writes w))
    (set_now (now w + Z.max 0 ms) (set_tokensLoaded true (set_tokens (Some t) w))).

(** The world after [setTokens(tokens)] when the write was done. *)
Definition saved (t : AuthTokens) (ms : Z) (w : World) : World :=
  set_store (Some t) (assigned t ms w).

(** The world [w] with the session [t] in memory and in the store. *)
Definition withSession (t : AuthTokens) (w : World) : World :=
  set_store (Some t) (set_tokensLoaded true (set_tokens (Some t) w)).

(** The reply of the store to the next write. *)
Definition nextWrite (w : World) : StoreReply := credentialsClient w (writes w).

End ComfortCloudClient.


(* ------------------------------------------------------------------ *)
(** ** src/lib/homey/SettingsTokenStore.ts *)

Module SettingsTokenStore.

(** The values the settings manager of Homey holds: JSON. *)
#[local] Set Warnings "-register-all".
Inductive Json :=
| Num (n : Z)
| Str (s : string)
| Bool (b : bool)
| Null
| Arr (items : list Json)
| Obj (fields : gmap string Json).
#[local] Set Warnings "register-all".

(** The settings manager: what it holds, and which of its operations
    throw (an input of the model). *)
Inductive Operation := Get | Put | Unset.

Record ManagerSettings := {
  values : gmap string Json;
  throws : Operation -> bool
}.

(** [SettingsTokenStoreOptions]; [onError] is kept as the list of the
    contexts it was called with. *)
Record Options := {
  key : string;
  validate : option (Json -> bool)
}.

Record State := {
  settings : ManagerSettings;
  errors : list string
}.

(** How a call of [set] ends. *)
Inductive Ended := Done | Threw.

Definition logError (context : string) (s : State) : State :=
  {| settings := settings s; errors := errors s ++ [context] |}.

Definition remove (o : Options) (s : State) : State :=
  {| settings := {| values := delete (key o) (values (settings s));
                    throws := throws (settings s) |};
     errors := errors s |}.

(** [clearInvalidValue()]. *)
Definition clearInvalidValue (o : Options) (s : State) : State :=
  if throws (settings s) Unset then logError "clear" s else remove o s.

(** [get()]: [None] is [null]. *)
Definition get (o : Options) (s : State) : option Json * State :=
  if throws (settings s) Get then (None, logError "get" s)
  else
    match values (settings s) !! key o with
    | None => (None, s)
    | Some Null => (None, s)
    | Some value =>
        match validate o with
        | Some valid =>
            if valid value then (Some value, s)
            else (None, clearInvalidValue o (logError "get" s))
        | None => (Some value, s)
        end
    end.

(** [set(value)]: the clone made by [JSON.parse(JSON.stringify(value))]
    of a JSON value is the value. *)
Definition set (o : Options) (value : Json) (s : State) : Ended * State :=
  if throws (settings s) Put then (Threw, logError "set" s)
  else
    (Done,
     {| settings := {| values := <[key o := value]> (values (settings s));
                       throws := throws (settings s) |};
        errors := errors s |}).

(** [unset()]. *)
Definition unset (o : Options) (s : State) : State :=
  if throws (settings s) Unset then logError "unset" s else remove o s.

End SettingsTokenStore.

(* ------------------------------------------------------------------ *)
(** ** src/app.ts: the store of the tokens *)

Module App.
Import Types SettingsTokenStore.

(** [typeof candidate.field === 'string'], [=== 'number']. *)
Definition isString (v : option Json) : bool :=
  match v with Some (Str _) => true | _ => false end.

Definition isNumber (v : option Json) : bool :=
  match v with Some (Num _) => true | _ => false end.

(** [isAuthTokens(value)].  An array is an object without these fields. *)
Definition isAuthTokens (value : Json) : bool :=
  match value with
  | Obj candidate =>
      isString (candidate !! "accessToken") &&
      isString (candidate !! "refreshToken") &&
      isNumber (candidate !! "expiresAt") &&
      isString (candidate !! "userId")
  | _ => false
  end.

(** An [AuthTokens] object as a JSON value. *)
Definition ofAuthTokens (t : AuthTokens) : Json :=
  Obj (<["accessToken" := Str (accessToken t)]>
         (<["refreshToken" := Str (refreshToken t)]>
            (<["userId" := Str (userId t)]>
               (<["expiresAt" := Num (expiresAt t)]> ∅)))).

(** The store that [onInit] creates for the tokens. *)
Definition tokenStore : Options :=
  {| key := "comfortcloud.tokens"; validate := Some isAuthTokens |}.

End App.

(* ------------------------------------------------------------------ *)
(** ** The statements of the specification, as it words them *)

Module Stated.
Import Types.

(** "Fields left unspecified in the patch are filled into the outgoing
    write payload from the cache entry": each wire field whose state
    field the patch leaves out carries the value of the cached state. *)
Definition filledFromCache (patch : Partial.DeviceState) (cached : DeviceState)
    (payload : gmap string Z) : Prop :=
  (Partial.on patch = None ->
     payload !! "operate" = Some (if on cached then 1 else 0)) /\
  (Partial.thermostatMode patch = None ->
     payload !! "operationMode" = Some (Mappers.MODE_REVERSE_MAP (thermostatMode cached))) /\
  (Partial.targetTemperature patch = None ->
     payload !! "targetTemp" = Some (targetTemperature cached)) /\
  (Partial.fanSpeed patch = None ->
     payload !! "fanSpeed" = Mappers.FAN_SPEED_REVERSE_MAP <$> fanSpeed cached).

(** "expiresAt equals issue-time plus (expiresIn minus margin) seconds
    for some safety margin that is at least 60 seconds". *)
Definition marginAtLeast60 (issued expiresIn expiresAt : Z) : Prop :=
  exists margin, 60 <= margin /\ expiresAt = issued + (expiresIn - margin) * 1000.

(** "A response that omits refreshToken (or userId) leaves the previous
    session's refreshToken (and userId) in the stored session". *)
Definition retainsPrevious (response : ComfortCloudClient.LoginResponse.t)
    (previous stored : AuthTokens) : Prop :=
  (ComfortCloudClient.LoginResponse.refreshToken response = None ->
     refreshToken stored = refreshToken previous) /\
  (ComfortCloudClient.LoginResponse.userId response = None ->
     userId stored = userId previous).

(** "The queue bound is only enforced for maxQueueSize >= 1": a call
    of [schedule] fails with "queue full" only on a gate constructed
    with a [maxQueueSize] of 1 or more. *)
Definition enforcedOnlyFromOne (options : RateLimiter.Options.t) : Prop :=
  forall item now sys message,
    fst (RateLimiter.schedule (RateLimiter.constructor options) item now sys)
      = RateLimiter.Threw message ->
    exists m, RateLimiter.Options.maxQueueSize options = Some m /\ 1 <= m.

(** "The failure is retried after the exponential backoff wait rather
    than surfaced immediately": the wait of this attempt was made, and
    the request was sent again. *)
Definition retriedAfterBackoff (attempt : nat) (before after : list ComfortCloudClient.Effect)
    : Prop :=
  exists sent rest,
    after = before ++ [ComfortCloudClient.Http sent;
                       ComfortCloudClient.Backoff (ComfortCloudClient.backoff attempt)] ++ rest.

End Stated.

(* ------------------------------------------------------------------ *)
(** ** Concrete inputs *)

Module Scenario.
Import Types.

(** A state as a read leaves it in the cache: heating at 21 degrees,
    bounds 16 and 30. *)
Definition livingRoom : DeviceState :=
  {| on := true; thermostatMode := ModeHeat; targetTemperature := 21;
     minTemperature := Some 16; maxTemperature := Some 30;
     indoorTemperature := Some 20; indoorHumidity := None;
     outdoorTemperature := None; fanSpeed := Some FanLow;
     swingMode := Some SwingOff; powerConsumption := None;
     energyConsumption := None; filterAlarm := Some false;
     connectionAlarm := Some false; timestamp := 1000; raw := None |}.

Definition cache : gmap string DeviceState := {[ "abc123" := livingRoom ]}.

(** The patch [{ on: false }]. *)
Definition switchOff : Partial.DeviceState :=
  {| Partial.on := Some false; Partial.thermostatMode := None;
     Partial.targetTemperature := None;
     Partial.minTemperature := None; Partial.maxTemperature := None;
     Partial.indoorTemperature := None; Partial.indoorHumidity := None;
     Partial.outdoorTemperature := None; Partial.fanSpeed := None;
     Partial.swingMode := None; Partial.powerConsumption := None;
     Partial.energyConsumption := None; Partial.filterAlarm := None;
     Partial.connectionAlarm := None; Partial.timestamp := None;
     Partial.raw := None |}.

(** The patch [{ targetTemperature: 40 }]. *)
Definition setpoint40 : Partial.DeviceState :=
  {| Partial.on := None; Partial.thermostatMode := None;
     Partial.targetTemperature := Some 40;
     Partial.minTemperature := None; Partial.maxTemperature := None;
     Partial.indoorTemperature := None; Partial.indoorHumidity := None;
     Partial.outdoorTemperature := None; Partial.fanSpeed := None;
     Partial.swingMode := None; Partial.powerConsumption := None;
     Partial.energyConsumption := None; Partial.filterAlarm := None;
     Partial.connectionAlarm := None; Partial.timestamp := None;
     Partial.raw := None |}.

(** The session in use. *)
Definition session : AuthTokens :=
  {| accessToken := "access-0"; refreshToken := "refresh-0";
     expiresAt := 5000000; userId := "user-1" |}.

(** A token response that declares a lifetime of [lifetime] seconds. *)
Definition tokensFor (lifetime : Z) : ComfortCloudClient.LoginResponse.t :=
  {| ComfortCloudClient.LoginResponse.uToken := Some "access-1";
     ComfortCloudClient.LoginResponse.accessToken := None;
     ComfortCloudClient.LoginResponse.refreshToken := Some "refresh-1";
     ComfortCloudClient.LoginResponse.expiresIn := Some lifetime;
     ComfortCloudClient.LoginResponse.expires_in := None;
     ComfortCloudClient.LoginResponse.userId := Some "user-1";
     ComfortCloudClient.LoginResponse.user := None |}.

(** A refresh response with an access token and the account under
    [user.id]; it has neither [refreshToken] nor [userId]. *)
Definition tokensWithUserObject : ComfortCloudClient.LoginResponse.t :=
  {| ComfortCloudClient.LoginResponse.uToken := None;
     ComfortCloudClient.LoginResponse.accessToken := Some "access-1";
     ComfortCloudClient.LoginResponse.refreshToken := None;
     ComfortCloudClient.LoginResponse.expiresIn := None;
     ComfortCloudClient.LoginResponse.expires_in := None;
     ComfortCloudClient.LoginResponse.userId := None;
     ComfortCloudClient.LoginResponse.user :=
       Some {| ComfortCloudClient.LoginResponse.id := Some "user-2" |} |}.

(** A refresh response with an access token only. *)
Definition accessTokenOnly : ComfortCloudClient.LoginResponse.t :=
  {| ComfortCloudClient.LoginResponse.uToken := None;
     ComfortCloudClient.LoginResponse.accessToken := Some "access-1";
     ComfortCloudClient.LoginResponse.refreshToken := None;
     ComfortCloudClient.LoginResponse.expiresIn := None;
     ComfortCloudClient.LoginResponse.expires_in := None;
     ComfortCloudClient.LoginResponse.userId := None;
     ComfortCloudClient.LoginResponse.user := None |}.

(** The rate limiter of the app ([onInit] of app.ts). *)
Definition appLimiter : RateLimiter.Config :=
  RateLimiter.constructor
    {| RateLimiter.Options.maxConcurrent := Some 2;
       RateLimiter.Options.minInterval := Some 400;
       RateLimiter.Options.maxQueueSize := None |}.

(** A rate limiter with [slots] slots and the app's pacing. *)
Definition limiterWith (slots : Z) : RateLimiter.Config :=
  RateLimiter.constructor
    {| RateLimiter.Options.maxConcurrent := Some slots;
       RateLimiter.Options.minInterval := Some 400;
       RateLimiter.Options.maxQueueSize := None |}.

(** A rate limiter constructed with [maxQueueSize: size]. *)
Definition boundedLimiter (size : Z) : RateLimiter.Options.t :=
  {| RateLimiter.Options.maxConcurrent := Some 2;
     RateLimiter.Options.minInterval := Some 400;
     RateLimiter.Options.maxQueueSize := Some size |}.

(** A server that answers every call with 429 after 50 ms. *)
Definition throttling : ComfortCloudClient.Server := fun _ _ =>
  {| ComfortCloudClient.result :=
       ComfortCloudClient.Failure (Some 429) "Request failed with status code 429";
     ComfortCloudClient.latency := 50 |}.

(** A server that never answers: axios gives up after 20000 ms. *)
Definition silent : ComfortCloudClient.Server := fun _ _ =>
  {| ComfortCloudClient.result :=
       ComfortCloudClient.Failure None "timeout of 20000ms exceeded";
     ComfortCloudClient.latency := 20000 |}.

(** A server that grants every refresh and rejects every other call
    with 401. *)
Definition rejecting : ComfortCloudClient.Server := fun _ r =>
  match ComfortCloudClient.data (ComfortCloudClient.config r) with
  | ComfortCloudClient.RefreshData _ =>
      {| ComfortCloudClient.result :=
           ComfortCloudClient.Success (ComfortCloudClient.TokensBody (tokensFor 3600));
         ComfortCloudClient.latency := 10 |}
  | _ =>
      {| ComfortCloudClient.result :=
           ComfortCloudClient.Failure (Some 401) "Request failed with status code 401";
         ComfortCloudClient.latency := 10 |}
  end.

(** A server that answers every call with the token response
    [response] after 10 ms. *)
Definition answering (response : ComfortCloudClient.LoginResponse.t)
    : ComfortCloudClient.Server := fun _ _ =>
  {| ComfortCloudClient.result :=
       ComfortCloudClient.Success (ComfortCloudClient.TokensBody response);
     ComfortCloudClient.latency := 10 |}.

(** A server that accepts every call, with a body the client does not
    read, after 30 ms. *)
Definition accepting : ComfortCloudClient.Server := fun _ _ =>
  {| ComfortCloudClient.result := ComfortCloudClient.Success ComfortCloudClient.OtherBody;
     ComfortCloudClient.latency := 30 |}.

(** A field mapper that decodes every read response to [livingRoom]. *)
Definition decoded (body : ComfortCloudClient.Body) (now : Z) : DeviceState := livingRoom.

(** The client after a read put [livingRoom] in its cache. *)
Definition afterRead : ComfortCloudClient.World :=
  ComfortCloudClient.set_stateCache cache
    (ComfortCloudClient.fresh 1000000 (Some session)).

Definition listDevices : ComfortCloudClient.AxiosRequestConfig :=
  {| ComfortCloudClient.url := "/device/group";
     ComfortCloudClient.method := ComfortCloudClient.GET;
     ComfortCloudClient.data := ComfortCloudClient.NoData |}.

(** The poll task 'essential' of device.ts, and a scheduler with a
    logger and without jitter. *)
Definition essential : PollScheduler.PollTask.t :=
  {| PollScheduler.PollTask.id := "essential";
     PollScheduler.PollTask.interval := 1000;
     PollScheduler.PollTask.immediate := Some true |}.

Definition noJitter : PollScheduler.Config :=
  {| PollScheduler.logger := true; PollScheduler.jitter := 0;
     PollScheduler.random := fun _ => 0 |}.

(** The task is registered and started, its timer fires and the action
    is in flight; [updateInterval] is called; the action completes;
    [stop] is called. *)
Definition intervalChangedInFlight : list PollScheduler.Event :=
  [PollScheduler.Register essential;
   PollScheduler.Start;
   PollScheduler.Fires 0%nat;
   PollScheduler.UpdateInterval "essential" 2000;
   PollScheduler.Completes 0%nat PollScheduler.Fulfilled;
   PollScheduler.Stop].

(** The scheduler after [events], from a new scheduler without jitter. *)
Definition after (events : list PollScheduler.Event) : PollScheduler.State :=
  default PollScheduler.initial
    (PollScheduler.run noJitter events PollScheduler.initial).


Definition polling : PollScheduler.State :=
  after [PollScheduler.Register essential; PollScheduler.Start].

Definition inFlight : PollScheduler.State :=
  after [PollScheduler.Register essential; PollScheduler.Start; PollScheduler.Fires 0%nat].

(** The task object of 'essential' while its first timer is pending. *)
Definition essentialScheduled : PollScheduler.ScheduledTask :=
  {| PollScheduler.id := "essential"; PollScheduler.interval := 1000;
     PollScheduler.immediate := Some true; PollScheduler.timeout := Some 0%nat;
     PollScheduler.lastRun := None |}.

(** The same object while the first action is in flight. *)
Definition essentialRunning : PollScheduler.ScheduledTask :=
  {| PollScheduler.id := "essential"; PollScheduler.interval := 1000;
     PollScheduler.immediate := Some true; PollScheduler.timeout := Some 0%nat;
     PollScheduler.lastRun := Some 0 |}.

(** The client with the session loaded, at a moment when the session is
    valid for 4000 seconds more. *)
Definition signedIn : ComfortCloudClient.World :=
  ComfortCloudClient.loaded (ComfortCloudClient.fresh 1000000 (Some session)).

(** A server that answers every call with [status] after 20 ms. *)
Definition failing (status : Z) : ComfortCloudClient.Server := fun _ _ =>
  {| ComfortCloudClient.result :=
       ComfortCloudClient.Failure (Some status) "Request failed";
     ComfortCloudClient.latency := 20 |}.

(** A server on which the session has expired: the first call is
    rejected with 401, a refresh is granted, and every other call is
    accepted. *)
Definition expired : ComfortCloudClient.Server := fun n r =>
  match ComfortCloudClient.data (ComfortCloudClient.config r) with
  | ComfortCloudClient.RefreshData _ =>
      {| ComfortCloudClient.result :=
           ComfortCloudClient.Success (ComfortCloudClient.TokensBody (tokensFor 3600));
         ComfortCloudClient.latency := 10 |}
  | _ =>
      if (n =? 0)%nat then
        {| ComfortCloudClient.result :=
             ComfortCloudClient.Failure (Some 401) "Request failed with status code 401";
           ComfortCloudClient.latency := 10 |}
      else
        {| ComfortCloudClient.result := ComfortCloudClient.Success ComfortCloudClient.OtherBody;
           ComfortCloudClient.latency := 30 |}
  end.

(** A server that grants every refresh and answers no other call:
    axios gives up after 20000 ms. *)
Definition unreachable : ComfortCloudClient.Server := fun _ r =>
  match ComfortCloudClient.data (ComfortCloudClient.config r) with
  | ComfortCloudClient.RefreshData _ =>
      {| ComfortCloudClient.result :=
           ComfortCloudClient.Success (ComfortCloudClient.TokensBody (tokensFor 3600));
         ComfortCloudClient.latency := 10 |}
  | _ =>
      {| ComfortCloudClient.result :=
           ComfortCloudClient.Failure None "timeout of 20000ms exceeded";
         ComfortCloudClient.latency := 20000 |}
  end.

(** The server of [expired] when it declares the renewed session for
    [lifetime] seconds. *)
Definition expiredFor (lifetime : Z) : ComfortCloudClient.Server := fun n r =>
  match ComfortCloudClient.data (ComfortCloudClient.config r) with
  | ComfortCloudClient.RefreshData _ =>
      {| ComfortCloudClient.result :=
           ComfortCloudClient.Success (ComfortCloudClient.TokensBody (tokensFor lifetime));
         ComfortCloudClient.latency := 10 |}
  | _ =>
      if (n =? 0)%nat then
        {| ComfortCloudClient.result :=
             ComfortCloudClient.Failure (Some 401) "Request failed with status code 401";
           ComfortCloudClient.latency := 10 |}
      else
        {| ComfortCloudClient.result := ComfortCloudClient.Success ComfortCloudClient.OtherBody;
           ComfortCloudClient.latency := 30 |}
  end.

(** The credentials of an account. *)
Definition credentials : ProviderLoginRequest :=
  {| email := "user@example.org"; password := "secret" |}.

(** A store on which every write throws, and one on which every write
    is done after a millisecond. *)
Definition brokenStore : ComfortCloudClient.Credentials := fun _ =>
  {| ComfortCloudClient.written :=
       ComfortCloudClient.WriteFailed "Could not write the settings";
     ComfortCloudClient.took := 0 |}.

Definition slowStore : ComfortCloudClient.Credentials := fun _ =>
  {| ComfortCloudClient.written := ComfortCloudClient.Saved;
     ComfortCloudClient.took := 1 |}.

End Scenario.


(* ================================================================== *)
(** * Properties *)

(** ** Lists *)

Lemma remove1_length {A} `{EqDecision A} (x : A) (l rest : list A) :
  remove1 x l = Some rest -> length l = S (length rest).
Proof.
  revert rest. induction l as [|y l IH]; intros rest; simpl; [discriminate|].
  destruct (decide (x = y)).
  - intros [= <-]. reflexivity.
  - destruct (remove1 x l) as [l'|] eqn:E; simpl; [|discriminate].
    intros [= <-]. simpl. f_equal. by apply IH.
Qed.

(* ------------------------------------------------------------------ *)
(** ** The write payload *)

Section MappersFacts.
Import Types Mappers ComfortCloudClient.

Lemma clamp_no_bounds (value : Z) : clamp value None None = value.
Proof. reflexivity. Qed.

Lemma clamp_within (value lo hi : Z) :
  lo <= hi -> lo <= clamp value (Some lo) (Some hi) <= hi.
Proof. unfold clamp. lia. Qed.

(** The payload, key by key: a key is present exactly when the patch
    has the field it encodes. *)
Lemma createWritePayload_lookup (patch : Partial.DeviceState)
    (currentState : option DeviceState) :
  let payload := createWritePayload patch currentState in
  payload !! "operate" = (fun b : bool => if b then 1 else 0) <$> Partial.on patch /\
  payload !! "operationMode" = MODE_REVERSE_MAP <$> Partial.thermostatMode patch /\
  payload !! "targetTemp" =
    (fun t => clamp t
       (Partial.minTemperature patch ?? (currentState ≫= minTemperature))
       (Partial.maxTemperature patch ?? (currentState ≫= maxTemperature)))
    <$> Partial.targetTemperature patch /\
  payload !! "fanSpeed" = FAN_SPEED_REVERSE_MAP <$> Partial.fanSpeed patch /\
  payload !! "airSwingUD" = (fun s => fst (swingFlags s)) <$> Partial.swingMode patch /\
  payload !! "airSwingLR" = (fun s => snd (swingFlags s)) <$> Partial.swingMode patch /\
  (forall key : string,
     key ∉ ["operate"; "operationMode"; "targetTemp"; "fanSpeed";
            "airSwingUD"; "airSwingLR"] ->
     payload !! key = None).
Proof.
  unfold createWritePayload.
  destruct (Partial.on patch), (Partial.thermostatMode patch),
    (Partial.targetTemperature patch), (Partial.fanSpeed patch),
    (Partial.swingMode patch); cbn zeta;
  repeat split; try (by simplify_map_eq);
  intros key Hkey; rewrite !not_elem_of_cons in Hkey;
  destruct Hkey as (? & ? & ? & ? & ? & ? & _);
  by simplify_map_eq.
Qed.

(** Of the cached state only the two bounds are read. *)
Lemma createWritePayload_reads_bounds_only (patch : Partial.DeviceState)
    (cached cached' : option DeviceState) :
  cached ≫= minTemperature = cached' ≫= minTemperature ->
  cached ≫= maxTemperature = cached' ≫= maxTemperature ->
  createWritePayload patch cached = createWritePayload patch cached'.
Proof. unfold createWritePayload. intros -> ->. reflexivity. Qed.

(** A patch without a setpoint yields the same payload whatever the
    cache holds. *)
Lemma createWritePayload_without_setpoint (patch : Partial.DeviceState)
    (cached cached' : option DeviceState) :
  Partial.targetTemperature patch = None ->
  createWritePayload patch cached = createWritePayload patch cached'.
Proof. unfold createWritePayload. intros ->. reflexivity. Qed.

(** C1, as amended.  For every partial write the outgoing payload is
    [createWritePayload patch (cache entry)]: it holds a wire field for
    each field the patch specifies and no other key, so a field the
    patch leaves out is absent from the payload and is not filled from
    the cache.  The cache entry is read for one purpose only: when the
    patch sets the target temperature without bounds of its own, the
    cached minimum and maximum clamp it. *)
Theorem write_payload_holds_the_patched_fields_only
    (cache : gmap string DeviceState) (deviceId : string)
    (patch : Partial.DeviceState) :
  exists payload,
    data (writeRequest cache deviceId patch) = ControlData deviceId payload /\
    payload = createWritePayload patch (cache !! deviceId) /\
    payload !! "operate" = (fun b : bool => if b then 1 else 0) <$> Partial.on patch /\
    payload !! "operationMode" = MODE_REVERSE_MAP <$> Partial.thermostatMode patch /\
    payload !! "targetTemp" =
      (fun t => clamp t
         (Partial.minTemperature patch ?? (cache !! deviceId ≫= minTemperature))
         (Partial.maxTemperature patch ?? (cache !! deviceId ≫= maxTemperature)))
      <$> Partial.targetTemperature patch /\
    payload !! "fanSpeed" = FAN_SPEED_REVERSE_MAP <$> Partial.fanSpeed patch /\
    payload !! "airSwingUD" = (fun s => fst (swingFlags s)) <$> Partial.swingMode patch /\
    payload !! "airSwingLR" = (fun s => snd (swingFlags s)) <$> Partial.swingMode patch /\
    (forall key : string,
       key ∉ ["operate"; "operationMode"; "targetTemp"; "fanSpeed";
              "airSwingUD"; "airSwingLR"] ->
       payload !! key = None).
Proof.
  exists (createWritePayload patch (cache !! deviceId)).
  split; [reflexivity|]. split; [reflexivity|].
  apply createWritePayload_lookup.
Qed.

(** C1, the statement of the specification refuted.  The cache holds a
    state (heating, 21 degrees, fan low); the patch is [{ on: false }].
    The payload sent is [{ operate: 0 }]: none of the cached fields is
    filled in. *)
Lemma switching_off_sends_nothing_from_the_cache :
  Scenario.cache !! "abc123" = Some Scenario.livingRoom /\
  data (writeRequest Scenario.cache "abc123" Scenario.switchOff)
    = ControlData "abc123" {[ "operate" := 0 ]} /\
  ~ Stated.filledFromCache Scenario.switchOff Scenario.livingRoom {[ "operate" := 0 ]}.
Proof.
  split; [reflexivity|]. split; [reflexivity|].
  intros (_ & Hmode & _). specialize (Hmode eq_refl). discriminate Hmode.
Qed.

(** The bounds are what the cache contributes: [{ targetTemperature: 40 }]
    is sent as 30, the cached maximum. *)
Lemma setpoint_is_clamped_to_the_cached_bounds :
  data (writeRequest Scenario.cache "abc123" Scenario.setpoint40)
    = ControlData "abc123" {[ "targetTemp" := 30 ]} /\
  data (writeRequest ∅ "abc123" Scenario.setpoint40)
    = ControlData "abc123" {[ "targetTemp" := 40 ]}.
Proof. split; reflexivity. Qed.

(** The same through [writeState]: the control call carries
    [{ operate: 0 }], and the read that follows refreshes the cache. *)
Lemma writeState_sends_the_patch_only :
  exists w',
    writeState Scenario.appLimiter Scenario.accepting Scenario.decoded 10
      "abc123" Scenario.switchOff Scenario.afterRead
      = Some (Resolved Scenario.livingRoom, w') /\
    map (fun r => (url (config r), data (config r))) (requestsOf (trace w')) =
      [ ("/deviceStatus/control", ControlData "abc123" {[ "operate" := 0 ]});
        ("/deviceStatus/abc123", NoData) ].
Proof. eexists. split; [vm_compute; reflexivity|]. vm_compute. reflexivity. Qed.

End MappersFacts.

(* ------------------------------------------------------------------ *)
(** ** The session: [parseTokens] *)

Section SessionFacts.
Import Types ComfortCloudClient.

Lemma parseTokens_returns (response : LoginResponse.t) (previous : option AuthTokens)
    (now : Z) (stored : AuthTokens) :
  parseTokens response previous now = Returned stored ->
  falsy (LoginResponse.uToken response ?? LoginResponse.accessToken response) = false /\
  falsy (LoginResponse.refreshToken response ?? (refreshToken <$> previous)) = false /\
  Some (accessToken stored)
    = LoginResponse.uToken response ?? LoginResponse.accessToken response /\
  Some (refreshToken stored)
    = LoginResponse.refreshToken response ?? (refreshToken <$> previous) /\
  userId stored
    = nullish_or
        (LoginResponse.userId response
           ?? (LoginResponse.user response ≫= LoginResponse.id)
           ?? (userId <$> previous)) "unknown" /\
  expiresAt stored = now + Z.max (lifetimeOf response - 60) 60 * 1000.
Proof.
  unfold parseTokens, lifetimeOf.
  destruct (LoginResponse.uToken response ?? LoginResponse.accessToken response) as [a|];
    [|discriminate].
  destruct (LoginResponse.refreshToken response ?? (refreshToken <$> previous)) as [r|];
    [|by rewrite orb_true_r].
  destruct (falsy (Some a)) eqn:Ha; [discriminate|].
  destruct (falsy (Some r)) eqn:Hr; [discriminate|]. simpl.
  intros [= <-]. simpl. repeat split; reflexivity.
Qed.

Lemma parseTokens_throws (response : LoginResponse.t) (previous : option AuthTokens)
    (now : Z) :
  falsy (LoginResponse.uToken response ?? LoginResponse.accessToken response)
    || falsy (LoginResponse.refreshToken response ?? (refreshToken <$> previous)) = true ->
  parseTokens response previous now
    = Thrown (JsError "Comfort Cloud authentication failed").
Proof. unfold parseTokens. intros ->. reflexivity. Qed.

(** C2, as amended.  For every successful login or refresh response
    the stored [expiresAt] is the issue time plus
    [max(expiresIn - 60, 60)] seconds ([expiresIn]: the declared
    lifetime, 3600 when none is declared).  For a lifetime of 120
    seconds or more this is the lifetime less a margin of exactly 60
    seconds.  For a shorter lifetime the stored lifetime is 60 seconds,
    so the margin is [expiresIn - 60]: below 60, and zero or negative
    for a lifetime of 60 seconds or less.  A margin of at least 60
    seconds exists exactly when the lifetime is at least 120 seconds. *)
Theorem expiresAt_is_lifetime_less_60_but_at_least_60
    (response : LoginResponse.t) (previous : option AuthTokens)
    (now : Z) (stored : AuthTokens) :
  parseTokens response previous now = Returned stored ->
  expiresAt stored = now + Z.max (lifetimeOf response - 60) 60 * 1000 /\
  (120 <= lifetimeOf response ->
     expiresAt stored = now + (lifetimeOf response - 60) * 1000) /\
  (lifetimeOf response < 120 -> expiresAt stored = now + 60 * 1000) /\
  (Stated.marginAtLeast60 now (lifetimeOf response) (expiresAt stored)
     <-> 120 <= lifetimeOf response).
Proof.
  intros Hparse.
  destruct (parseTokens_returns _ _ _ _ Hparse) as (_ & _ & _ & _ & _ & Hexp).
  split; [exact Hexp|]. split; [|split].
  - intros Hlong. rewrite Hexp. lia.
  - intros Hshort. rewrite Hexp. lia.
  - unfold Stated.marginAtLeast60. rewrite Hexp. split.
    + intros (margin & Hmargin & Heq). lia.
    + intros Hlong. exists 60. lia.
Qed.

(** A response that declares 3600 seconds, received at 1000000, is
    stored with an [expiresAt] 3540 seconds later. *)
Lemma hour_long_session_expires_a_minute_early :
  parseTokens (Scenario.tokensFor 3600) None 1000000
    = Returned {| accessToken := "access-1"; refreshToken := "refresh-1";
                  userId := "user-1"; expiresAt := 1000000 + 3540 * 1000 |} /\
  expiresAt
    {| accessToken := "access-1"; refreshToken := "refresh-1";
       userId := "user-1"; expiresAt := 1000000 + 3540 * 1000 |}
    = 1000000 + (lifetimeOf (Scenario.tokensFor 3600) - 60) * 1000.
Proof.
  split; [reflexivity|].
  apply (expiresAt_is_lifetime_less_60_but_at_least_60
           (Scenario.tokensFor 3600) None 1000000 _ eq_refl).
  vm_compute. discriminate.
Defined.

(** C2, the statement of the specification refuted.  A response that
    declares a lifetime of 30 seconds is stored with an [expiresAt] 60
    seconds after the issue time: no margin of 60 seconds or more, and
    indeed no positive margin, was subtracted. *)
Lemma short_lifetime_is_stored_without_margin :
  exists stored,
    parseTokens (Scenario.tokensFor 30) None 0 = Returned stored /\
    expiresAt stored = 0 + 60 * 1000 /\
    ~ Stated.marginAtLeast60 0 30 (expiresAt stored) /\
    ~ (exists margin, 0 < margin /\ expiresAt stored = 0 + (30 - margin) * 1000).
Proof.
  eexists. split; [reflexivity|]. simpl. split; [reflexivity|]. split.
  - intros (margin & Hmargin & Heq). lia.
  - intros (margin & Hmargin & Heq). lia.
Qed.

End SessionFacts.

(* ------------------------------------------------------------------ *)
(** ** The request pipeline *)

Section PipelineFacts.
Import Types ComfortCloudClient.

Variable gate : RateLimiter.Config.
Variable server : Server.

Lemma bind_eq {A B} (m : M A) (k : A -> M B) (w : World) :
  (m ≫= k) w =
  match m w with
  | Some (Resolved a, w') => k a w'
  | Some (Rejected e, w') => Some (Rejected e, w')
  | Some (Pending, w') => Some (Pending, w')
  | None => None
  end.
Proof. reflexivity. Qed.

(** *** What leaves the session alone *)

Lemma sameSession_refl (w : World) : sameSession w w.
Proof. unfold sameSession. auto. Qed.

Lemma sameSession_trans (w1 w2 w3 : World) :
  sameSession w1 w2 -> sameSession w2 w3 -> sameSession w1 w3.
Proof.
  unfold sameSession. intros (? & ? & ? & ? & ?) (? & ? & ? & ? & ?).
  repeat split; congruence.
Qed.

Lemma keepsSession_bind {A B} (m : M A) (k : A -> M B) :
  keepsSession m -> (forall a, keepsSession (k a)) -> keepsSession (m ≫= k).
Proof.
  intros Hm Hk w o w'. rewrite bind_eq.
  destruct (m w) as [[[a | e |] w1]|] eqn:Hmw; try discriminate.
  - intros Hkw. eapply sameSession_trans; [eapply Hm | eapply Hk]; eauto.
  - intros [= <- <-]. eapply Hm; eauto.
  - intros [= <- <-]. eapply Hm; eauto.
Qed.

Lemma keepsSession_catch {A} (m : M A) (handler : Error -> M A) :
  keepsSession m -> (forall e, keepsSession (handler e)) -> keepsSession (catch m handler).
Proof.
  intros Hm Hh w o w'. unfold catch.
  destruct (m w) as [[[a | e |] w1]|] eqn:Hmw; try discriminate.
  - intros [= <- <-]. eapply Hm; eauto.
  - intros Hhw. eapply sameSession_trans; [eapply Hm | eapply Hh]; eauto.
  - intros [= <- <-]. eapply Hm; eauto.
Qed.

Lemma keepsSession_started {A} (fn : M A) :
  keepsSession fn -> keepsSession (started gate fn).
Proof.
  intros Hfn w o w'. unfold started.
  destruct (fn w) as [[[a | e |] w1]|] eqn:Hw; try discriminate;
    intros [= <- <-]; apply (Hfn _ _ _ Hw).
Qed.

Lemma keepsSession_schedule {A} (fn : M A) :
  keepsSession fn -> keepsSession (schedule gate fn).
Proof.
  intros Hfn w o w'. unfold schedule.
  destruct (RateLimiter.queueFull gate (limiter w)).
  { intros [= <- <-]. apply sameSession_refl. }
  cbv zeta.
  destruct (RateLimiter.process gate _ _) as [s [| wait | item]].
  - intros [= <- <-]. by unfold sameSession.
  - destruct (RateLimiter.process gate _ _) as [s' [| wait' | item]].
    + intros [= <- <-]. by unfold sameSession.
    + intros [= <- <-]. by unfold sameSession.
    + intros Hrun. apply (keepsSession_started fn Hfn) in Hrun.
      eapply sameSession_trans; [|exact Hrun]. by unfold sameSession.
  - intros Hrun. apply (keepsSession_started fn Hfn) in Hrun.
    eapply sameSession_trans; [|exact Hrun]. by unfold sameSession.
Qed.

Lemma keepsSession_httpRequest (r : HttpRequest) : keepsSession (httpRequest server r).
Proof.
  intros w o w'. unfold httpRequest.
  destruct (result _); intros [= <- <-]; by unfold sameSession.
Qed.

Lemma keepsSession_throw {A} (e : Error) : keepsSession (throw e : M A).
Proof. intros w o w' [= <- <-]. apply sameSession_refl. Qed.

Lemma keepsSession_ret {A} (a : A) : keepsSession (ret a).
Proof. intros w o w' [= <- <-]. apply sameSession_refl. Qed.

Lemma keepsSession_delay (ms : Z) : keepsSession (delay ms).
Proof. intros w o w' [= <- <-]. by unfold sameSession. Qed.

(** A request made without authentication neither reads nor writes the
    session. *)
Lemma request_unauthenticated_keeps_session (fuel : nat) :
  forall (config : AxiosRequestConfig) (attempt : nat),
  keepsSession (request gate server fuel config false attempt).
Proof.
  induction fuel as [|fuel IH]; intros config attempt; [intros w o w' [=]|].
  simpl. apply keepsSession_bind; [apply keepsSession_ret|]. intros authorization.
  apply keepsSession_schedule, keepsSession_catch; [apply keepsSession_httpRequest|].
  intros [status message | message]; [|apply keepsSession_throw].
  rewrite andb_false_r. simpl.
  destruct (retryable status && (attempt <? 4)%nat); [|apply keepsSession_throw].
  apply keepsSession_bind; [apply keepsSession_delay|]. intros _. apply IH.
Qed.

(** *** [setTokens], [refresh] *)

(** The two ways [setTokens] ends for a session. *)
Lemma setTokens_eq (t : AuthTokens) (w : World) :
  setTokens (Some t) w =
  match written (nextWrite w) with
  | Saved => Some (Resolved tt, saved t (took (nextWrite w)) w)
  | WriteFailed message =>
      Some (Rejected (JsError message), assigned t (took (nextWrite w)) w)
  end.
Proof. unfold setTokens, nextWrite. simpl. by destruct (written _). Qed.

Lemma sameSession_nextWrite (w w' : World) : sameSession w w' -> nextWrite w' = nextWrite w.
Proof. intros (_ & _ & _ & Hwrites & Hclient). unfold nextWrite. by rewrite Hwrites, Hclient. Qed.

(** [refresh] once its call has resolved with a body: the tokens are
    parsed at that moment and handed to [setTokens]. *)
Lemma refresh_eq (fuel : nat) (previous : AuthTokens) (w w1 : World) (body : Body) :
  request gate server fuel (refreshRequest previous) false 0%nat w
    = Some (Resolved body, w1) ->
  refresh gate server fuel previous w =
  match parseTokens (asLoginResponse body) (Some previous) (now w1) with
  | Returned renewed =>
      match written (nextWrite w1) with
      | Saved =>
          Some (Resolved renewed, saved renewed (took (nextWrite w1)) w1)
      | WriteFailed message =>
          Some (Rejected (JsError message), assigned renewed (took (nextWrite w1)) w1)
      end
  | Thrown e => Some (Rejected e, w1)
  end.
Proof.
  intros Hreq. unfold refresh, refreshWith. rewrite bind_eq.
  change {| url := "/auth/token"; method := POST;
            data := RefreshData (refreshToken previous) |}
    with (refreshRequest previous).
  rewrite Hreq. rewrite bind_eq. simpl. rewrite bind_eq.
  destruct (parseTokens _ _ _) as [renewed | e]; [|reflexivity].
  simpl. rewrite bind_eq, setTokens_eq. by destruct (written _).
Qed.

(** X26.  A refresh that does not resolve leaves what the store holds
    as it was.  When the call failed or never settled, or the response
    lacks a token, the session in memory is as it was too, and nothing
    was written.  There is one more way for a refresh not to resolve:
    the response was accepted and the write to the store threw.  Then
    the refresh is rejected with the error of the store, and the session
    in memory is the new one already, while the store holds the previous
    one.  With a store that works, a refresh that does not resolve
    leaves the session as it was. *)
Lemma refresh_failure_keeps_the_stored_session (fuel : nat) (previous : AuthTokens)
    (w w' : World) (o : Outcome AuthTokens) :
  refresh gate server fuel previous w = Some (o, w') ->
  (forall stored, o <> Resolved stored) ->
  store w' = store w /\
  (written (nextWrite w) = Saved -> sameSession w w') /\
  (sameSession w w' \/
   exists renewed message body w1,
     request gate server fuel (refreshRequest previous) false 0%nat w
       = Some (Resolved body, w1) /\
     parseTokens (asLoginResponse body) (Some previous) (now w1) = Returned renewed /\
     written (nextWrite w) = WriteFailed message /\
     o = Rejected (JsError message) /\
     tokens w' = Some renewed /\ tokensLoaded w' = true).
Proof.
  intros Hrefresh Hne.
  assert (Hcall : forall w1, sameSession w w1 ->
            store w1 = store w /\ (written (nextWrite w) = Saved -> sameSession w w1) /\
            (sameSession w w1 \/
             exists renewed message body w0,
               request gate server fuel (refreshRequest previous) false 0%nat w
                 = Some (Resolved body, w0) /\
               parseTokens (asLoginResponse body) (Some previous) (now w0)
                 = Returned renewed /\
               written (nextWrite w) = WriteFailed message /\
               o = Rejected (JsError message) /\
               tokens w1 = Some renewed /\ tokensLoaded w1 = true)).
  { intros w1 Hsame. split; [apply Hsame|]. split; [done | by left]. }
  destruct (request gate server fuel (refreshRequest previous) false 0%nat w)
    as [[[body | e |] w1]|] eqn:Hreq.
  - pose proof (request_unauthenticated_keeps_session _ _ _ _ _ _ Hreq) as Hsame.
    rewrite (refresh_eq _ _ _ _ _ Hreq) in Hrefresh.
    rewrite (sameSession_nextWrite _ _ Hsame) in Hrefresh.
    destruct (parseTokens _ _ _) as [renewed | e] eqn:Hparse.
    + destruct (written (nextWrite w)) as [|message] eqn:Hwrite.
      * injection Hrefresh as <- <-. by destruct (Hne renewed).
      * injection Hrefresh as <- <-. simpl. split; [apply Hsame|]. split; [done|].
        right. exists renewed, message, body, w1. done.
    + injection Hrefresh as <- <-. by apply Hcall.
  - revert Hrefresh. unfold refresh, refreshWith. rewrite bind_eq.
    change {| url := "/auth/token"; method := POST;
              data := RefreshData (refreshToken previous) |}
      with (refreshRequest previous).
    rewrite Hreq. intros [= <- <-]. apply Hcall.
    eapply request_unauthenticated_keeps_session; eauto.
  - revert Hrefresh. unfold refresh, refreshWith. rewrite bind_eq.
    change {| url := "/auth/token"; method := POST;
              data := RefreshData (refreshToken previous) |}
      with (refreshRequest previous).
    rewrite Hreq. intros [= <- <-]. apply Hcall.
    eapply request_unauthenticated_keeps_session; eauto.
  - revert Hrefresh. unfold refresh, refreshWith. rewrite bind_eq.
    change {| url := "/auth/token"; method := POST;
              data := RefreshData (refreshToken previous) |}
      with (refreshRequest previous).
    rewrite Hreq. discriminate.
Qed.

(** C10, as amended.  Let the call to [/auth/token] resolve with a
    body.  The access token is the body's [uToken], else its
    [accessToken]; the refresh token is the body's [refreshToken], else
    the previous session's.
    - When one of the two is absent or empty, [refresh] throws
      "Comfort Cloud authentication failed" and the session, in memory
      and in the store, is the one from before the call.
    - Otherwise the new session replaces the one in memory, whatever
      the store does.  It keeps the previous refresh token when the body
      has no [refreshToken].  Its [userId] is the body's [userId], else
      the body's [user.id], else the previous session's: the previous
      [userId] is kept when the body has neither [userId] nor [user.id].
      The new session is then written to the store.  When the write is
      done, [refresh] resolves with the new session and the store holds
      it.  When the write throws, [refresh] is rejected with the error
      of the store, and the store holds what it held before. *)
Theorem refresh_keeps_what_the_response_leaves_out
    (fuel : nat) (previous : AuthTokens) (w w1 : World) (body : Body) :
  request gate server fuel (refreshRequest previous) false 0%nat w
    = Some (Resolved body, w1) ->
  let response := asLoginResponse body in
  let access := LoginResponse.uToken response ?? LoginResponse.accessToken response in
  let renewal := LoginResponse.refreshToken response ?? Some (refreshToken previous) in
  (falsy access || falsy renewal = true ->
     refresh gate server fuel previous w
       = Some (Rejected (JsError "Comfort Cloud authentication failed"), w1) /\
     sameSession w w1) /\
  (falsy access || falsy renewal = false ->
     exists stored w2,
       tokens w2 = Some stored /\
       match written (nextWrite w) with
       | Saved =>
           refresh gate server fuel previous w = Some (Resolved stored, w2) /\
           store w2 = Some stored
       | WriteFailed message =>
           refresh gate server fuel previous w = Some (Rejected (JsError message), w2) /\
           store w2 = store w
       end /\
       Some (accessToken stored) = access /\
       Some (refreshToken stored) = renewal /\
       (LoginResponse.refreshToken response = None ->
          refreshToken stored = refreshToken previous) /\
       userId stored =
         nullish_or
           (LoginResponse.userId response
              ?? (LoginResponse.user response ≫= LoginResponse.id))
           (userId previous) /\
       (LoginResponse.userId response = None ->
        LoginResponse.user response ≫= LoginResponse.id = None ->
          userId stored = userId previous)).
Proof.
  intros Hreq response access renewal.
  pose proof (request_unauthenticated_keeps_session _ _ _ _ _ _ Hreq) as Hsame.
  rewrite (refresh_eq _ _ _ _ _ Hreq), (sameSession_nextWrite _ _ Hsame). fold response.
  split.
  - intros Hfalsy. rewrite (parseTokens_throws response (Some previous) (now w1)) by exact Hfalsy.
    split; [reflexivity | exact Hsame].
  - intros Htruthy.
    destruct (parseTokens response (Some previous) (now w1)) as [stored | e] eqn:Hparse.
    + destruct (parseTokens_returns _ _ _ _ Hparse) as (_ & _ & Ha & Hr & Hu & _).
      simpl in Hr, Hu.
      exists stored.
      exists (match written (nextWrite w) with
              | Saved => saved stored (took (nextWrite w)) w1
              | WriteFailed _ => assigned stored (took (nextWrite w)) w1
              end).
      split; [by destruct (written (nextWrite w))|].
      split.
      { destruct (written (nextWrite w)); (split; [reflexivity|]); [reflexivity|].
        simpl. apply Hsame. }
      split; [exact Ha|].
      split; [exact Hr|]. split; [|split].
      * intros Hnone. rewrite Hnone in Hr. by injection Hr.
      * rewrite Hu.
        destruct (LoginResponse.userId response
                    ?? (LoginResponse.user response ≫= LoginResponse.id));
          reflexivity.
      * intros Hnone Hnone'. rewrite Hu, Hnone, Hnone'. reflexivity.
    + unfold parseTokens in Hparse. fold access in Hparse.
      change (refreshToken <$> Some previous) with (Some (refreshToken previous)) in Hparse.
      fold renewal in Hparse. rewrite Htruthy in Hparse. discriminate.
Qed.

(** *** The rate limiter seen from one call *)

(** [started] looks at its operation in one world only. *)
Lemma started_ext {A} (fn gn : M A) (w w' : World) :
  fn w = gn w' -> started gate fn w = started gate gn w'.
Proof. unfold started. intros ->. reflexivity. Qed.

Lemma started_pending {A} (fn : M A) (w w' : World) :
  fn w = Some (Pending, w') -> started gate fn w = Some (Pending, w').
Proof. unfold started. intros ->. reflexivity. Qed.

(** A settled operation gives its slot back; with an empty queue the
    call of [process()] that follows starts nothing. *)
Lemma started_rejected {A} (fn : M A) (e : Error) (w w' : World) :
  fn w = Some (Rejected e, w') -> RateLimiter.queue (limiter w') = [] ->
  started gate fn w = Some (Rejected e, released w').
Proof.
  unfold started. intros -> Hq. unfold RateLimiter.process. simpl. rewrite Hq. reflexivity.
Qed.

Lemma started_resolved {A} (fn : M A) (a : A) (w w' : World) :
  fn w = Some (Resolved a, w') -> RateLimiter.queue (limiter w') = [] ->
  started gate fn w = Some (Resolved a, released w').
Proof.
  unfold started. intros -> Hq. unfold RateLimiter.process. simpl. rewrite Hq. reflexivity.
Qed.

(** With a free slot the operation is started, at once or when the
    pacing timer fires. *)
Lemma schedule_free {A} (fn : M A) (w : World) :
  free gate w -> schedule gate fn w = started gate fn (admitted gate w).
Proof.
  intros (Hfull & Hq & Hslot). unfold schedule. rewrite Hfull. cbv zeta.
  unfold admitted, startTime.
  destruct w as [clock [q active last] tk tl st sc tr cc wr]. simpl in *. subst q.
  unfold RateLimiter.process. simpl.
  destruct (Z.leb_spec (RateLimiter.maxConcurrent gate) active); [lia|].
  destruct (Z.ltb_spec 0 (Z.max 0 (RateLimiter.minInterval gate - (clock - last))))
    as [Hwait | Hwait]; simpl.
  - destruct (Z.leb_spec (RateLimiter.maxConcurrent gate) active); [lia|].
    match goal with |- context [0 <? ?x] => destruct (Z.ltb_spec 0 x) end; [lia|].
    apply started_ext. f_equal. unfold set_now, set_limiter. simpl.
    f_equal; [lia | f_equal; lia].
  - apply started_ext. f_equal. unfold set_now, set_limiter. simpl.
    f_equal; [lia | f_equal; lia].
Qed.

(** With every slot taken the operation stays in the queue. *)
Lemma schedule_saturated {A} (fn : M A) (w : World) :
  saturated gate w ->
  exists w', schedule gate fn w = Some (Pending, w') /\ trace w' = trace w.
Proof.
  intros (Hfull & Hq & Hslot). unfold schedule. rewrite Hfull.
  cbv zeta. unfold RateLimiter.process at 1. simpl. rewrite Hq. simpl.
  destruct (Z.leb_spec (RateLimiter.maxConcurrent gate) (RateLimiter.activeCount (limiter w)));
    [|lia].
  eexists. split; reflexivity.
Qed.


(** *** One attempt of an unauthenticated request *)

Lemma request_unauthenticated (fuel : nat) (config : AxiosRequestConfig)
    (attempt : nat) (w : World) :
  free gate w ->
  request gate server (S fuel) config false attempt w =
  started gate
    (catch
       (httpRequest server {| config := config; authorization := None |})
       (fun error =>
          match error with
          | AxiosError status message =>
              if statusIs 401 status && false && (attempt <? 2)%nat then
                (handleUnauthorizedWith (request gate server fuel);;
                 request gate server fuel config false (attempt + 1)%nat)
              else if retryable status && (attempt <? 4)%nat then
                (delay (backoff attempt);;
                 request gate server fuel config false (attempt + 1)%nat)
              else throw error
          | JsError _ => throw error
          end))
    (admitted gate w).
Proof. intros Hfree. simpl. rewrite bind_eq. simpl. by apply schedule_free. Qed.

(** The attempt fails with 429 or 5xx and the budget is not used up:
    the backoff wait, then the next attempt, inside the operation that
    holds the slot. *)
Lemma request_retries (fuel : nat) (config : AxiosRequestConfig)
    (attempt : nat) (w : World) (status : option Z) (message : string) (ms : Z) :
  free gate w ->
  server (length (requestsOf (trace w))) {| config := config; authorization := None |}
    = {| result := Failure status message; latency := ms |} ->
  retryable status = true -> (attempt < 4)%nat ->
  request gate server (S fuel) config false attempt w =
  started gate (request gate server fuel config false (attempt + 1)%nat)
    (waited (backoff attempt)
       (sent {| config := config; authorization := None |} ms (admitted gate w))).
Proof.
  intros Hfree Hreply Hretry Hattempt.
  rewrite request_unauthenticated by done.
  apply started_ext. unfold catch, httpRequest. simpl. rewrite Hreply. simpl.
  rewrite andb_false_r. simpl. rewrite Hretry. simpl.
  destruct (Nat.ltb_spec attempt 4); [|lia]. reflexivity.
Qed.

(** The attempt fails and is not retried: the error of axios is thrown
    again as it is. *)
Lemma request_surfaces (fuel : nat) (config : AxiosRequestConfig)
    (attempt : nat) (w : World) (status : option Z) (message : string) (ms : Z) :
  free gate w ->
  server (length (requestsOf (trace w))) {| config := config; authorization := None |}
    = {| result := Failure status message; latency := ms |} ->
  retryable status && (attempt <? 4)%nat = false ->
  request gate server (S fuel) config false attempt w =
  Some (Rejected (AxiosError status message),
        released (sent {| config := config; authorization := None |} ms (admitted gate w))).
Proof.
  intros Hfree Hreply Hno.
  rewrite request_unauthenticated by done.
  apply started_rejected; [|reflexivity].
  unfold catch, httpRequest. simpl. rewrite Hreply. simpl.
  rewrite andb_false_r. simpl. rewrite Hno. reflexivity.
Qed.

(** No slot is free: the attempt is never made. *)
Lemma request_starves (fuel : nat) (config : AxiosRequestConfig)
    (attempt : nat) (w : World) :
  saturated gate w ->
  exists w', request gate server (S fuel) config false attempt w = Some (Pending, w') /\
             trace w' = trace w.
Proof.
  intros Hsat. simpl. rewrite bind_eq. simpl. by apply schedule_saturated.
Qed.


(** *** The slots along a chain of retries *)

Lemma queueFull_empty (s s' : RateLimiter.State) :
  RateLimiter.queue s = [] -> RateLimiter.queue s' = [] ->
  RateLimiter.queueFull gate s' = RateLimiter.queueFull gate s.
Proof. unfold RateLimiter.queueFull. intros -> ->. reflexivity. Qed.

Lemma next_attempt_free (r : HttpRequest) (ms wait : Z) (w : World) :
  free gate w ->
  RateLimiter.activeCount (limiter w) + 1 < RateLimiter.maxConcurrent gate ->
  free gate (waited wait (sent r ms (admitted gate w))).
Proof.
  intros (Hfull & Hq & Hslot) Hnext. unfold free. simpl. repeat split; auto.
  rewrite <- Hfull. by apply queueFull_empty.
Qed.

Lemma next_attempt_saturated (r : HttpRequest) (ms wait : Z) (w : World) :
  free gate w ->
  RateLimiter.maxConcurrent gate <= RateLimiter.activeCount (limiter w) + 1 ->
  saturated gate (waited wait (sent r ms (admitted gate w))).
Proof.
  intros (Hfull & Hq & Hslot) Hnext. unfold saturated. simpl. repeat split; auto.
  rewrite <- Hfull. by apply queueFull_empty.
Qed.

Lemma backoffsOf_app (l l' : list Effect) :
  backoffsOf (l ++ l') = backoffsOf l ++ backoffsOf l'.
Proof. unfold backoffsOf. apply omap_app. Qed.

Lemma requestsOf_app (l l' : list Effect) :
  requestsOf (l ++ l') = requestsOf l ++ requestsOf l'.
Proof. unfold requestsOf. apply omap_app. Qed.

(** A session that is loaded and not about to expire is used as it is. *)
Lemma ensureAuthenticated_valid (request : Requester) (w : World) (session : AuthTokens) :
  tokensLoaded w = true -> tokens w = Some session ->
  60 * 1000 <= expiresAt session - now w ->
  ensureAuthenticatedWith request w = Some (Resolved session, w).
Proof.
  intros Hloaded Htokens Hvalid. unfold ensureAuthenticatedWith.
  rewrite bind_eq. unfold getTokens. rewrite Hloaded, Htokens.
  rewrite bind_eq. simpl.
  destruct (Z.ltb_spec (expiresAt session - now w) (60 * 1000)); [lia|]. reflexivity.
Qed.

(** The attempt fails without a status: the error is thrown again at
    once, whatever the attempt count.  *)
Lemma request_failure_without_status (fuel : nat) (config : AxiosRequestConfig)
    (requiresAuth : bool) (attempt : nat) (w : World)
    (authorization : option string) (message : string) (ms : Z) :
  free gate w ->
  authorized requiresAuth w authorization ->
  server (length (requestsOf (trace w))) {| config := config; authorization := authorization |}
    = {| result := Failure None message; latency := ms |} ->
  request gate server (S fuel) config requiresAuth attempt w =
  Some (Rejected (AxiosError None message),
        released (sent {| config := config; authorization := authorization |} ms
                    (admitted gate w))).
Proof.
  intros Hfree Hauth Hreply. simpl. rewrite bind_eq.
  destruct requiresAuth; simpl in Hauth.
  - destruct Hauth as (session & Hloaded & Htokens & Hvalid & ->).
    rewrite bind_eq, (ensureAuthenticated_valid _ _ session) by done. simpl.
    rewrite schedule_free by done.
    apply started_rejected; [|reflexivity].
    unfold catch, httpRequest. simpl. rewrite Hreply. reflexivity.
  - subst authorization. simpl.
    rewrite schedule_free by done.
    apply started_rejected; [|reflexivity].
    unfold catch, httpRequest. simpl. rewrite Hreply. reflexivity.
Qed.

(** *** Termination *)

Lemma total_bind {A B} (m : M A) (k : A -> M B) :
  total m -> (forall a, total (k a)) -> total (m ≫= k).
Proof.
  intros Hm Hk w. rewrite bind_eq. destruct (Hm w) as [[[a | e |] w'] ->]; eauto.
  apply Hk.
Qed.

Lemma total_catch {A} (m : M A) (handler : Error -> M A) :
  total m -> (forall e, total (handler e)) -> total (catch m handler).
Proof.
  intros Hm Hh w. unfold catch. destruct (Hm w) as [[[a | e |] w'] ->]; eauto.
  apply Hh.
Qed.

Lemma total_started {A} (fn : M A) : total fn -> total (started gate fn).
Proof.
  intros Hfn w. unfold started. destruct (Hfn w) as [[[a | e |] w'] ->]; eauto.
Qed.

Lemma total_schedule {A} (fn : M A) : total fn -> total (schedule gate fn).
Proof.
  intros Hfn w. unfold schedule.
  destruct (RateLimiter.queueFull gate (limiter w)); [eauto|]. cbv zeta.
  destruct (RateLimiter.process gate _ _) as [s [| wait | item]]; eauto.
  - destruct (RateLimiter.process gate _ _) as [s' [| wait' | item]]; eauto.
    by apply total_started.
  - by apply total_started.
Qed.

Lemma total_ret {A} (a : A) : total (ret a).
Proof. intros w. eauto. Qed.

Lemma total_mret {A} (a : A) : total (mret a : M A).
Proof. intros w. eauto. Qed.

Lemma total_throw {A} (e : Error) : total (throw e : M A).
Proof. intros w. eauto. Qed.

Lemma total_lift {A} (r : Result A) : total (lift r).
Proof. destruct r; intros w; eauto. Qed.

Lemma total_httpRequest (r : HttpRequest) : total (httpRequest server r).
Proof. intros w. unfold httpRequest. destruct (result _); eauto. Qed.

Lemma total_getTokens : total getTokens.
Proof. intros w. unfold getTokens. destruct (tokensLoaded w); eauto. Qed.

Lemma total_setTokens (t : option AuthTokens) : total (setTokens t).
Proof. intros w. unfold setTokens. cbv zeta. destruct (written _), t; eauto. Qed.

Lemma total_refreshWith (request : Requester) (session : AuthTokens) :
  (forall config, total (request config false 0%nat)) ->
  total (refreshWith request session).
Proof.
  intros Hreq. unfold refreshWith.
  apply total_bind; [apply Hreq|]. intros response.
  apply total_bind; [intros w; eauto|]. intros clock.
  apply total_bind; [apply total_lift|]. intros nextTokens.
  apply total_bind; [apply total_setTokens|]. intros _. intros w; eauto.
Qed.

Lemma total_ensureAuthenticatedWith (request : Requester) :
  (forall config, total (request config false 0%nat)) ->
  total (ensureAuthenticatedWith request).
Proof.
  intros Hreq. unfold ensureAuthenticatedWith.
  apply total_bind; [apply total_getTokens|]. intros [session|]; [|apply total_throw].
  apply total_bind; [intros w; eauto|]. intros clock.
  destruct (_ <? _); [by apply total_refreshWith | intros w; eauto].
Qed.

Lemma total_handleUnauthorizedWith (request : Requester) :
  (forall config, total (request config false 0%nat)) ->
  total (handleUnauthorizedWith request).
Proof.
  intros Hreq. unfold handleUnauthorizedWith.
  apply total_bind; [apply total_getTokens|]. intros [session|]; [|apply total_throw].
  apply total_bind; [by apply total_refreshWith|]. intros _ w; eauto.
Qed.

(** An unauthenticated request at attempt [a] nests at most [5 - a] calls. *)
Lemma request_unauthenticated_total (fuel : nat) :
  forall (config : AxiosRequestConfig) (attempt : nat),
  (1 <= fuel)%nat -> (5 - attempt <= fuel)%nat ->
  total (request gate server fuel config false attempt).
Proof.
  induction fuel as [|fuel IH]; intros config attempt Hpos Hfuel; [lia|].
  simpl. apply total_bind; [apply total_ret|]. intros authorization.
  apply total_schedule, total_catch; [apply total_httpRequest|].
  intros [status message | message]; [|apply total_throw].
  rewrite andb_false_r. simpl.
  destruct (retryable status && (attempt <? 4)%nat) eqn:Hretry; [|apply total_throw].
  apply andb_true_iff in Hretry as [_ Hlt]. apply Nat.ltb_lt in Hlt.
  apply total_bind; [intros w; unfold delay; eauto|]. intros _.
  apply IH; lia.
Qed.

(** A request at attempt [a] nests at most [10 - a] calls. *)
Lemma request_total (fuel : nat) :
  forall (config : AxiosRequestConfig) (requiresAuth : bool) (attempt : nat),
  (6 <= fuel)%nat -> (10 - attempt <= fuel)%nat ->
  total (request gate server fuel config requiresAuth attempt).
Proof.
  induction fuel as [|fuel IH]; intros config requiresAuth attempt Hpos Hfuel; [lia|].
  assert (Hinner : forall c, total (request gate server fuel c false 0%nat)).
  { intros c. apply request_unauthenticated_total; lia. }
  simpl. apply total_bind.
  { destruct requiresAuth; [|apply total_ret].
    apply total_bind; [by apply total_ensureAuthenticatedWith|]. intros t. apply total_ret. }
  intros authorization.
  apply total_schedule, total_catch; [apply total_httpRequest|].
  intros [status message | message]; [|apply total_throw].
  destruct (statusIs 401 status && requiresAuth && (attempt <? 2)%nat) eqn:Hauth.
  - apply andb_true_iff in Hauth as [_ Hlt]. apply Nat.ltb_lt in Hlt.
    apply total_bind; [by apply total_handleUnauthorizedWith|]. intros _.
    apply IH; lia.
  - destruct (retryable status && (attempt <? 4)%nat) eqn:Hretry; [|apply total_throw].
    apply andb_true_iff in Hretry as [_ Hlt]. apply Nat.ltb_lt in Hlt.
    apply total_bind; [intros w; unfold delay; eauto|]. intros _.
    apply IH; lia.
Qed.

(** The recursion bound of [request] is never reached from 10. *)
Theorem request_terminates (config : AxiosRequestConfig) (requiresAuth : bool)
    (attempt : nat) (w : World) :
  is_Some (request gate server 10 config requiresAuth attempt w).
Proof. apply request_total; lia. Qed.


(** *** A server that is unavailable *)

Section Unavailable.

Hypothesis Hdown : alwaysUnavailable server.

Lemma unavailable_reply (n : nat) (r : HttpRequest) :
  exists status message ms,
    server n r = {| result := Failure (Some status) message; latency := ms |} /\
    retryable (Some status) = true.
Proof.
  destruct (Hdown n r) as (status & message & Hres & Hst).
  exists status, message, (latency (server n r)). split.
  - destruct (server n r) as [res ms]. simpl in *. by rewrite Hres.
  - unfold retryable, statusIs. simpl.
    destruct Hst as [-> | Hst]; [reflexivity|].
    apply orb_true_iff. right. by apply Z.leb_le.
Qed.

(** With [slots] free slots and at least as many retries left, the
    request makes [slots] attempts, each followed by its backoff wait,
    and the next attempt is never started. *)
Lemma request_starves_after (slots : nat) :
  forall (fuel : nat) (config : AxiosRequestConfig) (attempt : nat) (w : World),
  free gate w ->
  RateLimiter.maxConcurrent gate - RateLimiter.activeCount (limiter w) = Z.of_nat (S slots) ->
  (attempt + S slots <= 4)%nat ->
  exists w',
    request gate server (S (S slots) + fuel) config false attempt w = Some (Pending, w') /\
    backoffsOf (trace w') = backoffsOf (trace w) ++ map backoff (seq attempt (S slots)) /\
    length (requestsOf (trace w')) = (length (requestsOf (trace w)) + S slots)%nat.
Proof.
  induction slots as [|slots IH]; intros fuel config attempt w Hfree Hslots Hleft.
  - destruct (unavailable_reply (length (requestsOf (trace w)))
                {| config := config; authorization := None |})
      as (status & message & ms & Hreply & Hretry).
    set (w1 := waited (backoff attempt)
                 (sent {| config := config; authorization := None |} ms (admitted gate w))).
    destruct (request_starves fuel config (attempt + 1) w1) as (w' & Hreq & Htrace).
    { apply next_attempt_saturated; [done | lia]. }
    exists w'. split; [|split].
    + change (2 + fuel)%nat with (S (S fuel)).
      erewrite request_retries; eauto; [|lia].
      by apply started_pending.
    + rewrite Htrace. unfold w1. simpl. rewrite !backoffsOf_app. simpl.
      by rewrite app_nil_r.
    + rewrite Htrace. unfold w1. simpl. rewrite !requestsOf_app, !length_app. simpl. lia.
  - destruct (unavailable_reply (length (requestsOf (trace w)))
                {| config := config; authorization := None |})
      as (status & message & ms & Hreply & Hretry).
    set (w1 := waited (backoff attempt)
                 (sent {| config := config; authorization := None |} ms (admitted gate w))).
    destruct (IH fuel config (attempt + 1)%nat w1) as (w' & Hreq & Hwaits & Hsent).
    { apply next_attempt_free; [done | lia]. }
    { unfold w1. simpl. lia. }
    { lia. }
    exists w'. split; [|split].
    + change (S (S (S slots)) + fuel)%nat with (S (S (S slots) + fuel)).
      erewrite request_retries; eauto; [|lia].
      by apply started_pending.
    + rewrite Hwaits. unfold w1. simpl. rewrite !backoffsOf_app. simpl.
      rewrite app_nil_r, <- app_assoc. simpl. by rewrite Nat.add_1_r.
    + rewrite Hsent. unfold w1. simpl. rewrite !requestsOf_app, !length_app. simpl. lia.
Qed.


(** With a slot for every attempt the request makes its five attempts,
    waits between them, and throws the error of the last one. *)
Lemma request_exhausts (k : nat) :
  forall (fuel : nat) (config : AxiosRequestConfig) (w : World),
  (k <= 4)%nat ->
  free gate w ->
  RateLimiter.activeCount (limiter w) + Z.of_nat k < RateLimiter.maxConcurrent gate ->
  exists w' status message,
    request gate server (S k + fuel) config false (4 - k) w
      = Some (Rejected (AxiosError (Some status) message), w') /\
    result (server (length (requestsOf (trace w)) + k)%nat
              {| config := config; authorization := None |})
      = Failure (Some status) message /\
    backoffsOf (trace w') = backoffsOf (trace w) ++ map backoff (seq (4 - k) k) /\
    length (requestsOf (trace w')) = (length (requestsOf (trace w)) + S k)%nat /\
    RateLimiter.queue (limiter w') = [] /\
    RateLimiter.activeCount (limiter w') = RateLimiter.activeCount (limiter w).
Proof.
  induction k as [|k IH]; intros fuel config w Hk Hfree Hslots.
  - destruct (unavailable_reply (length (requestsOf (trace w)))
                {| config := config; authorization := None |})
      as (status & message & ms & Hreply & Hretry).
    eexists _, status, message. split; [|split; [|split; [|split; [|split]]]].
    + simpl Nat.sub. simpl Nat.add. eapply request_surfaces; eauto.
      rewrite Hretry. reflexivity.
    + rewrite Nat.add_0_r, Hreply. reflexivity.
    + simpl. rewrite backoffsOf_app. simpl. reflexivity.
    + simpl. rewrite requestsOf_app, length_app. simpl. lia.
    + reflexivity.
    + simpl. lia.
  - destruct (unavailable_reply (length (requestsOf (trace w)))
                {| config := config; authorization := None |})
      as (status0 & message0 & ms & Hreply & Hretry).
    set (w1 := waited (backoff (4 - S k))
                 (sent {| config := config; authorization := None |} ms (admitted gate w))).
    destruct (IH fuel config w1) as (w' & status & message & Hreq & Hlast & Hwaits & Hsent & Hq & Hactive).
    { lia. }
    { apply next_attempt_free; [done | lia]. }
    { unfold w1. simpl. lia. }
    exists (released w'), status, message. split; [|split; [|split; [|split; [|split]]]].
    + change (S (S k) + fuel)%nat with (S (S k + fuel)).
      erewrite request_retries; eauto; [|lia].
      replace (4 - S k + 1)%nat with (4 - k)%nat by lia.
      by apply started_rejected.
    + rewrite <- Hlast. unfold w1. simpl. rewrite !requestsOf_app, !length_app. simpl.
      f_equal. f_equal. lia.
    + simpl. rewrite Hwaits. unfold w1. simpl. rewrite !backoffsOf_app. simpl.
      rewrite app_nil_r, <- app_assoc. simpl.
      repeat f_equal. lia.
    + simpl. rewrite Hsent. unfold w1. simpl. rewrite !requestsOf_app, !length_app. simpl. lia.
    + exact Hq.
    + simpl. rewrite Hactive. unfold w1. simpl. lia.
Qed.


End Unavailable.

End PipelineFacts.

(* ------------------------------------------------------------------ *)
(** ** The request pipeline: retries *)

Section RetryFacts.
Import Types ComfortCloudClient.

Lemma request_parts (gate : RateLimiter.Config) (server : Server) (fuel : nat)
    (config : AxiosRequestConfig) (requiresAuth : bool) (attempt : nat) :
  request gate server (S fuel) config requiresAuth attempt =
  (authorization ← headers gate server fuel requiresAuth;
   schedule gate (operation gate server fuel config requiresAuth attempt authorization)).
Proof. reflexivity. Qed.

(** The operation in a world where the call gets no status: the error
    is thrown again at once, whatever the attempt count. *)
Lemma operation_without_status (gate : RateLimiter.Config) (server : Server) (fuel : nat)
    (config : AxiosRequestConfig) (requiresAuth : bool) (attempt : nat)
    (authorization : option string) (message : string) (w : World) :
  result (server (length (requestsOf (trace w)))
            {| config := config; authorization := authorization |})
    = Failure None message ->
  exists w',
    operation gate server fuel config requiresAuth attempt authorization w
      = Some (Rejected (AxiosError None message), w') /\
    trace w' = trace w ++ [Http {| config := config; authorization := authorization |}].
Proof.
  intros Hreply. unfold operation, catch, httpRequest. rewrite Hreply.
  eexists. split; reflexivity.
Qed.

(** The header is settled, or not, in every world; a refresh nests at
    most five calls. *)
Lemma total_headers (gate : RateLimiter.Config) (server : Server) (fuel : nat)
    (requiresAuth : bool) :
  (5 <= fuel)%nat -> total (headers gate server fuel requiresAuth).
Proof.
  intros Hfuel. unfold headers. destruct requiresAuth; [|apply total_ret].
  apply total_bind; [|intros t; apply total_ret].
  apply total_ensureAuthenticatedWith. intros c.
  apply request_unauthenticated_total; lia.
Qed.

(** C5, as amended.  A call that fails without an HTTP status (a
    network failure, or the timeout of the transport) is not retried.
    This holds of every request, in every state of the client and of
    the rate limiter, and at every attempt count, also below 4.
    [request] first settles its header, which can take a refresh of the
    session; let [wa] be the world at that moment.
    - When the header is settled and the server gives the call no
      status: either the rate limiter starts the call, and then the
      request is rejected with the error of axios after this one call;
      or the rate limiter does not start it (no slot, or a full queue),
      and then no call is made.  In both cases there is no backoff wait
      and no second call.
    - When the header cannot be settled, the request ends as
      [ensureAuthenticated] did, and the call is not made.
    ([fuel] bounds the nesting of the calls; 5 is enough for the
    header.) *)
Theorem failure_without_status_is_thrown_at_once
    (gate : RateLimiter.Config) (server : Server) (fuel : nat)
    (config : AxiosRequestConfig) (requiresAuth : bool) (attempt : nat) (w : World) :
  (5 <= fuel)%nat ->
  exists header wa,
    headers gate server fuel requiresAuth w = Some (header, wa) /\
    match header with
    | Resolved authorization =>
        forall message,
        result (server (length (requestsOf (trace wa)))
                  {| config := config; authorization := authorization |})
          = Failure None message ->
        exists o w',
          request gate server (S fuel) config requiresAuth attempt w = Some (o, w') /\
          backoffsOf (trace w') = backoffsOf (trace wa) /\
          ~ Stated.retriedAfterBackoff attempt (trace wa) (trace w') /\
          ((o = Rejected (AxiosError None message) /\
            trace w' =
              trace wa ++ [Http {| config := config; authorization := authorization |}])
           \/
           (trace w' = trace wa /\
            (o = Pending \/ o = Rejected (JsError "Rate limiter queue full"))))
    | Rejected e =>
        request gate server (S fuel) config requiresAuth attempt w = Some (Rejected e, wa)
    | Pending =>
        request gate server (S fuel) config requiresAuth attempt w = Some (Pending, wa)
    end.
Proof.
  intros Hfuel.
  destruct (total_headers gate server fuel requiresAuth Hfuel w) as [[header wa] Hheader].
  exists header, wa. split; [exact Hheader|].
  rewrite request_parts, bind_eq, Hheader.
  destruct header as [authorization | e |]; [|reflexivity..].
  intros message Hreply.
  set (r := {| config := config; authorization := authorization |}) in *.
  set (fn := operation gate server fuel config requiresAuth attempt authorization).
  assert (Hmade : forall w0 : World, trace w0 = trace wa ->
            exists o w',
              started gate fn w0 = Some (o, w') /\
              backoffsOf (trace w') = backoffsOf (trace wa) /\
              ~ Stated.retriedAfterBackoff attempt (trace wa) (trace w') /\
              ((o = Rejected (AxiosError None message) /\ trace w' = trace wa ++ [Http r]) \/
               (trace w' = trace wa /\
                (o = Pending \/ o = Rejected (JsError "Rate limiter queue full"))))).
  { intros w0 Htrace.
    destruct (operation_without_status gate server fuel config requiresAuth attempt
                authorization message w0) as (w1 & Hop & Htrace1).
    { rewrite Htrace. exact Hreply. }
    fold fn r in Hop, Htrace1. unfold started. rewrite Hop.
    eexists _, _. split; [reflexivity|]. simpl. rewrite Htrace1, Htrace.
    split; [|split; [|by left]].
    - rewrite backoffsOf_app. simpl. by rewrite app_nil_r.
    - intros (sent' & rest & Heq). apply app_inv_head in Heq. discriminate. }
  assert (Hnot : forall (o : Outcome Body) (w0 : World), trace w0 = trace wa ->
            o = Pending \/ o = Rejected (JsError "Rate limiter queue full") ->
            exists o' w',
              Some (o, w0) = Some (o', w') /\
              backoffsOf (trace w') = backoffsOf (trace wa) /\
              ~ Stated.retriedAfterBackoff attempt (trace wa) (trace w') /\
              ((o' = Rejected (AxiosError None message) /\ trace w' = trace wa ++ [Http r]) \/
               (trace w' = trace wa /\
                (o' = Pending \/ o' = Rejected (JsError "Rate limiter queue full"))))).
  { intros o w0 Htrace Ho. exists o, w0. split; [reflexivity|]. rewrite Htrace.
    split; [reflexivity|]. split; [|by right].
    intros (sent' & rest & Heq). rewrite <- (app_nil_r (trace wa)) in Heq at 1.
    apply app_inv_head in Heq. discriminate. }
  unfold schedule. destruct (RateLimiter.queueFull gate (limiter wa)).
  { apply Hnot; [reflexivity | by right]. }
  cbv zeta. destruct (RateLimiter.process gate _ _) as [s1 [| wait | item]].
  - apply Hnot; [reflexivity | by left].
  - destruct (RateLimiter.process gate _ _) as [s2 [| wait' | item]].
    + apply Hnot; [reflexivity | by left].
    + apply Hnot; [reflexivity | by left].
    + apply Hmade. reflexivity.
  - apply Hmade. reflexivity.
Qed.

(** The session expires in 10 seconds and the server grants the
    refresh; after that it does not answer.  The device list is asked
    for at attempt count 3: one refresh, one call, and the timeout of
    axios is thrown as it is. *)
Lemma timeout_after_a_refresh_is_thrown_at_once :
  exists w',
    request Scenario.appLimiter Scenario.unreachable 10 Scenario.listDevices true 3
      (fresh 4990000 (Some Scenario.session))
      = Some (Rejected (AxiosError None "timeout of 20000ms exceeded"), w') /\
    requestsOf (trace w') =
      [ {| config := refreshRequest Scenario.session; authorization := None |};
        {| config := Scenario.listDevices; authorization := Some "access-1" |} ] /\
    backoffsOf (trace w') = [].
Proof.
  destruct (failure_without_status_is_thrown_at_once
              Scenario.appLimiter Scenario.unreachable 9 Scenario.listDevices true 3
              (fresh 4990000 (Some Scenario.session)) ltac:(lia))
    as (header & wa & Hheader & Hthrown).
  vm_compute in Hheader. injection Hheader as <- <-.
  destruct (Hthrown "timeout of 20000ms exceeded" eq_refl)
    as (o & w' & Hreq & Hwaits & _ & [[-> Htrace] | [_ Ho]]).
  - exists w'. split; [exact Hreq|]. split.
    + rewrite Htrace. reflexivity.
    + rewrite Hwaits. reflexivity.
  - vm_compute in Hreq. destruct Ho as [-> | ->]; discriminate Hreq.
Defined.

(** The same without authentication, at attempt count 2: one call, and
    the error. *)
Lemma timeout_at_the_third_attempt_is_thrown_at_once :
  exists w',
    request Scenario.appLimiter Scenario.silent 1 Scenario.listDevices false 2
      (fresh 1000000 None)
      = Some (Rejected (AxiosError None "timeout of 20000ms exceeded"), w') /\
    trace w' = [Http {| config := Scenario.listDevices; authorization := None |}].
Proof. eexists. split; vm_compute; reflexivity. Qed.

(** C5, the statement of the specification refuted.  The server never
    answers; the first attempt (attempt count 0, below 4) ends with the
    timeout of axios.  The request is rejected with that error after
    one call: no backoff wait, no second call. *)
Lemma timeout_is_not_retried :
  exists w',
    request Scenario.appLimiter Scenario.silent 10 Scenario.listDevices false 0
      (fresh 1000000 None)
      = Some (Rejected (AxiosError None "timeout of 20000ms exceeded"), w') /\
    trace w' = [Http {| config := Scenario.listDevices; authorization := None |}] /\
    ~ Stated.retriedAfterBackoff 0 [] (trace w').
Proof.
  eexists. split; [vm_compute; reflexivity|]. split; [vm_compute; reflexivity|].
  intros (sent' & rest & Heq). vm_compute in Heq. discriminate.
Qed.

(** C3: where the code departs from the specification.  Every attempt
    fails with 429 or 5xx.  The retry is made inside the operation that
    holds the slot of the failed attempt, so each retry needs one more
    slot of the rate limiter.  With [slots] slots, 1 to 4, the request
    makes [slots] attempts and [slots] backoff waits; the next attempt
    stays in the queue behind the operations that wait for it, and the
    request never settles: the fifth failure and its error are never
    reached. *)
Theorem retries_starve_when_slots_run_out
    (gate : RateLimiter.Config) (server : Server) (fuel : nat)
    (config : AxiosRequestConfig) (w : World) (slots : nat) :
  RateLimiter.maxConcurrent gate = Z.of_nat slots ->
  (1 <= slots <= 4)%nat ->
  alwaysUnavailable server ->
  free gate w -> RateLimiter.activeCount (limiter w) = 0 ->
  exists w',
    request gate server (S slots + fuel) config false 0 w = Some (Pending, w') /\
    backoffsOf (trace w') = backoffsOf (trace w) ++ map backoff (seq 0 slots) /\
    length (requestsOf (trace w')) = (length (requestsOf (trace w)) + slots)%nat.
Proof.
  intros Hmax Hslots Hdown Hfree Hidle.
  destruct slots as [|slots]; [lia|].
  apply request_starves_after; auto; lia.
Qed.

(** The same with the rate limiter of the app, which has two slots, and
    a server that answers 429 every time: two attempts, the waits of
    1000 and 2000 ms, and nothing more. *)
Lemma retries_starve_in_the_app :
  exists w',
    request Scenario.appLimiter Scenario.throttling 10 Scenario.listDevices false 0
      (fresh 1000000 None) = Some (Pending, w') /\
    backoffsOf (trace w') = [1000; 2000] /\
    length (requestsOf (trace w')) = 2%nat.
Proof.
  apply (retries_starve_when_slots_run_out
           Scenario.appLimiter Scenario.throttling 7 Scenario.listDevices
           (fresh 1000000 None) 2).
  - reflexivity.
  - lia.
  - intros n r. exists 429, "Request failed with status code 429".
    split; [reflexivity | left; reflexivity].
  - unfold free. simpl. split; [reflexivity|]. split; [reflexivity|]. lia.
  - reflexivity.
Defined.

(** The world the request is left in: both slots are taken, by the
    first and the second attempt, and the third attempt is in the
    queue. *)
Lemma retries_starve_in_the_app_limiter :
  exists w',
    request Scenario.appLimiter Scenario.throttling 10 Scenario.listDevices false 0
      (fresh 1000000 None) = Some (Pending, w') /\
    RateLimiter.activeCount (limiter w') = 2 /\
    length (RateLimiter.queue (limiter w')) = 1%nat.
Proof. eexists. split; [vm_compute; reflexivity|]. vm_compute. repeat split. Qed.

(** X25.  What the specification describes happens when the rate limiter
    has a slot for each of the five attempts: four waits of 1000, 2000,
    4000 and 8000 ms, five calls, and the error of the fifth call
    thrown as it is. *)
Theorem retries_exhaust_with_a_slot_per_attempt
    (gate : RateLimiter.Config) (server : Server) (fuel : nat)
    (config : AxiosRequestConfig) (w : World) :
  5 <= RateLimiter.maxConcurrent gate ->
  alwaysUnavailable server ->
  free gate w -> RateLimiter.activeCount (limiter w) = 0 ->
  exists w' status message,
    request gate server (5 + fuel) config false 0 w
      = Some (Rejected (AxiosError (Some status) message), w') /\
    result (server (length (requestsOf (trace w)) + 4)%nat
              {| config := config; authorization := None |})
      = Failure (Some status) message /\
    backoffsOf (trace w') = backoffsOf (trace w) ++ [1000; 2000; 4000; 8000] /\
    length (requestsOf (trace w')) = (length (requestsOf (trace w)) + 5)%nat.
Proof.
  intros Hmax Hdown Hfree Hidle.
  destruct (request_exhausts gate server Hdown 4 fuel config w)
    as (w' & status & message & Hreq & Hlast & Hwaits & Hsent & _); auto; [lia|].
  exists w', status, message. auto.
Qed.

(** C4: where the code departs from the specification.  The session is
    valid for the client and rejected by the server; every refresh is
    granted.  The forced refresh is scheduled from inside the operation
    that holds the slot of the rejected attempt.  With the two slots of
    the app the refresh after the first 401 runs and the request is
    retried with the new token; the refresh after the second 401
    (attempt count 1, below 2) stays in the queue behind the two
    attempts that wait for it.  The request never settles: no retry
    with attempt count 2, no error. *)
Lemma second_refresh_starves_in_the_app :
  exists w',
    request Scenario.appLimiter Scenario.rejecting 10 Scenario.listDevices true 0
      (fresh 1000000 (Some Scenario.session)) = Some (Pending, w') /\
    requestsOf (trace w') =
      [ {| config := Scenario.listDevices; authorization := Some "access-0" |};
        {| config := refreshRequest Scenario.session; authorization := None |};
        {| config := Scenario.listDevices; authorization := Some "access-1" |} ] /\
    RateLimiter.activeCount (limiter w') = 2 /\
    length (RateLimiter.queue (limiter w')) = 1%nat.
Proof. eexists. split; [vm_compute; reflexivity|]. vm_compute. repeat split. Qed.

(** With a single slot, which the constructor of the rate limiter
    allows, the refresh after the first 401 already starves. *)
Lemma first_refresh_starves_with_one_slot :
  exists w',
    request (Scenario.limiterWith 1) Scenario.rejecting 10 Scenario.listDevices true 0
      (fresh 1000000 (Some Scenario.session)) = Some (Pending, w') /\
    requestsOf (trace w') =
      [ {| config := Scenario.listDevices; authorization := Some "access-0" |} ].
Proof. eexists. split; [vm_compute; reflexivity|]. vm_compute. reflexivity. Qed.

(** What the specification describes happens with three slots: a
    refresh and a retry after the first and after the second 401, and
    the third 401 (attempt count 2) thrown as it is. *)
Lemma third_unauthorized_is_thrown_with_three_slots :
  exists w',
    request (Scenario.limiterWith 3) Scenario.rejecting 10 Scenario.listDevices true 0
      (fresh 1000000 (Some Scenario.session))
      = Some (Rejected (AxiosError (Some 401) "Request failed with status code 401"), w') /\
    map (fun r => (url (config r), authorization r)) (requestsOf (trace w')) =
      [ ("/device/group", Some "access-0"); ("/auth/token", None);
        ("/device/group", Some "access-1"); ("/auth/token", None);
        ("/device/group", Some "access-1") ] /\
    backoffsOf (trace w') = [].
Proof. eexists. split; [vm_compute; reflexivity|]. vm_compute. split; reflexivity. Qed.

(** C10, the statement of the specification refuted.  The refresh
    response has an access token and names the account under [user.id];
    it has no [userId] field.  The stored session takes the account
    from [user.id]: the previous [userId] is not retained. *)
Lemma user_object_replaces_the_previous_userId :
  exists stored w',
    Scenario.session.(userId) = "user-1" /\
    LoginResponse.userId Scenario.tokensWithUserObject = None /\
    refresh Scenario.appLimiter (Scenario.answering Scenario.tokensWithUserObject) 10
      Scenario.session (fresh 1000000 (Some Scenario.session))
      = Some (Resolved stored, w') /\
    userId stored = "user-2" /\
    ~ Stated.retainsPrevious Scenario.tokensWithUserObject Scenario.session stored.
Proof.
  eexists _, _. split; [reflexivity|]. split; [reflexivity|].
  split; [vm_compute; reflexivity|]. split; [reflexivity|].
  intros (_ & Huser). specialize (Huser eq_refl). discriminate Huser.
Qed.

(** A refresh response with an access token and nothing else: the
    stored session keeps the previous refresh token and [userId]. *)
Lemma access_token_alone_keeps_the_previous_session_fields :
  exists stored w',
    refresh Scenario.appLimiter (Scenario.answering Scenario.accessTokenOnly) 10
      Scenario.session (fresh 1000000 (Some Scenario.session))
      = Some (Resolved stored, w') /\
    accessToken stored = "access-1" /\
    refreshToken stored = "refresh-0" /\
    userId stored = "user-1".
Proof.
  destruct (refresh_keeps_what_the_response_leaves_out
              Scenario.appLimiter (Scenario.answering Scenario.accessTokenOnly) 10
              Scenario.session (fresh 1000000 (Some Scenario.session))
              (released
                 (sent {| config := refreshRequest Scenario.session; authorization := None |}
                    10 (admitted Scenario.appLimiter (fresh 1000000 (Some Scenario.session)))))
              (TokensBody Scenario.accessTokenOnly) eq_refl)
    as [_ Hstored].
  destruct (Hstored eq_refl) as (stored & w2 & _ & [Hrefresh _] & Ha & _ & Hr & _ & Hu).
  exists stored, w2. split; [exact Hrefresh|]. split; [|split].
  - by injection Ha.
  - exact (Hr eq_refl).
  - exact (Hu eq_refl eq_refl).
Defined.

End RetryFacts.

(* ------------------------------------------------------------------ *)
(** ** The rate limiter *)

Section RateLimiterFacts.
Import RateLimiter.

Variable c : Config.

(** What [process()] can do, case by case. *)
Lemma process_cases (now : Z) (s : State) :
  (process c now s = (s, Nothing) /\
     (queue s = [] \/ maxConcurrent c <= activeCount s)) \/
  (exists wait, process c now s = (s, Later wait) /\ 0 < wait /\
     wait = minInterval c - (now - lastStart s) /\
     queue s <> [] /\ activeCount s < maxConcurrent c) \/
  (exists item rest,
     queue s = item :: rest /\ activeCount s < maxConcurrent c /\
     minInterval c - (now - lastStart s) <= 0 /\
     process c now s =
       ({| queue := rest; activeCount := activeCount s + 1; lastStart := now |},
        Started item)).
Proof.
  unfold process. destruct (queue s) as [|item rest] eqn:Hq.
  - left. auto.
  - destruct (Z.leb_spec (maxConcurrent c) (activeCount s)).
    + left. auto.
    + destruct (Z.ltb_spec 0 (Z.max 0 (minInterval c - (now - lastStart s)))).
      * right. left. eexists. repeat split; try done; lia.
      * right. right. exists item, rest. repeat split; try done; lia.
Qed.

(** An operation is started only from the head of the queue, only into
    a free slot, and only [minInterval] after the last start. *)
Lemma process_starts_head (now : Z) (s s' : State) (item : QueueItem) :
  process c now s = (s', Started item) ->
  exists rest, queue s = item :: rest /\ queue s' = rest /\
    activeCount s < maxConcurrent c /\
    activeCount s' = activeCount s + 1 /\
    lastStart s + minInterval c <= now.
Proof.
  destruct (process_cases now s)
    as [[-> _] | [(wait & -> & _) | (item' & rest & Hq & Hlt & Hwait & ->)]];
    try discriminate.
  intros [= <- <-]. exists rest. simpl. repeat split; auto. lia.
Qed.

(** When the pacing timer fires, and nothing else happened meanwhile,
    [process()] starts the head of the queue. *)
Lemma process_after_wait (now : Z) (s : State) (wait : Z) :
  process c now s = (s, Later wait) ->
  exists item, snd (process c (now + wait) s) = Started item.
Proof.
  destruct (process_cases now s)
    as [[-> _] | [(wait' & -> & Hpos & Hwait & Hq & Hslot) | (item & rest & _ & _ & _ & ->)]];
    try discriminate.
  intros [= <-]. unfold process.
  destruct (queue s) as [|item rest]; [done|].
  destruct (Z.leb_spec (maxConcurrent c) (activeCount s)); [lia|].
  destruct (Z.ltb_spec 0 (Z.max 0 (minInterval c - (now + wait' - lastStart s)))); [lia|].
  by exists item.
Qed.

Lemma runProcess_wellFormed (now : Z) (sys : System) :
  wellFormed c sys -> wellFormed c (runProcess c now sys).
Proof.
  intros (Hcount & Hmax & Hfifo). unfold runProcess.
  destruct (process_cases now (state sys))
    as [[-> _] | [(wait & -> & _) | (item & rest & Hq & Hlt & _ & ->)]];
    unfold wellFormed; simpl; auto.
  repeat split.
  - rewrite length_app. simpl. lia.
  - lia.
  - rewrite Hfifo, Hq, <- app_assoc. reflexivity.
Qed.

(** Every admission and every completion preserves the invariant. *)
Lemma step_wellFormed (e : Event) (sys sys' : System) :
  wellFormed c sys -> step c e sys = Some sys' -> wellFormed c sys'.
Proof.
  intros Hwf. destruct e as [item now | now | item now]; simpl.
  - intros [= <-]. unfold schedule.
    destruct (queueFull c (state sys)); simpl; [exact Hwf|].
    apply runProcess_wellFormed.
    destruct Hwf as (Hcount & Hmax & Hfifo).
    unfold wellFormed; simpl. repeat split; auto.
    rewrite Hfifo, <- app_assoc. reflexivity.
  - destruct (takeDue now (timers sys)); [|discriminate].
    intros [= <-]. apply runProcess_wellFormed. exact Hwf.
  - destruct (remove1 item (running sys)) as [rest|] eqn:Hrm; [|discriminate].
    intros [= <-]. apply runProcess_wellFormed.
    destruct Hwf as (Hcount & Hmax & Hfifo).
    apply remove1_length in Hrm.
    unfold wellFormed; simpl. repeat split; auto; lia.
Qed.

Lemma run_wellFormed (events : list Event) (sys sys' : System) :
  wellFormed c sys -> run c events sys = Some sys' -> wellFormed c sys'.
Proof.
  revert sys. induction events as [|e events IH]; intros sys Hwf; simpl.
  - intros [= <-]. exact Hwf.
  - destruct (step c e sys) as [sys1|] eqn:Hstep; [|discriminate].
    apply IH. eapply step_wellFormed; eauto.
Qed.

Lemma boot_wellFormed : 0 <= maxConcurrent c -> wellFormed c boot.
Proof. intros H. unfold wellFormed; simpl. auto. Qed.

(** *** A gate whose slots are all taken *)

Lemma runProcess_saturated (now : Z) (sys : System) :
  maxConcurrent c <= activeCount (state sys) ->
  activeCount (state (runProcess c now sys)) = activeCount (state sys) /\
  running (runProcess c now sys) = running sys /\
  started (runProcess c now sys) = started sys.
Proof.
  intros Hsat. unfold runProcess.
  destruct (process_cases now (state sys))
    as [[-> _] | [(wait & -> & _ & _ & _ & Hlt) | (item & rest & _ & Hlt & _ & ->)]];
    simpl; auto; lia.
Qed.

(** X7.  While no running operation settles, a gate whose slots are all
    taken starts nothing, whoever calls [schedule] and whatever timers
    fire: an operation in the queue can only be started after one of
    the running operations has settled. *)
Lemma saturated_gate_starts_nothing (events : list Event) (sys sys' : System) :
  maxConcurrent c <= activeCount (state sys) ->
  forallb settlesNothing events = true ->
  run c events sys = Some sys' ->
  activeCount (state sys') = activeCount (state sys) /\
  running sys' = running sys /\
  started sys' = started sys.
Proof.
  revert sys. induction events as [|e events IH]; intros sys Hsat Hev; simpl.
  - intros [= <-]. auto.
  - simpl in Hev. apply andb_true_iff in Hev as [He Hev].
    destruct (step c e sys) as [sys1|] eqn:Hstep; [|discriminate]. intros Hrun.
    assert (H1 : activeCount (state sys1) = activeCount (state sys) /\
                 running sys1 = running sys /\ started sys1 = started sys).
    { destruct e as [item now | now | item now]; simpl in Hstep; try discriminate.
      - injection Hstep as <-. unfold schedule.
        destruct (queueFull c (state sys)); simpl; [auto|].
        apply (runProcess_saturated now
                 {| state := push item (state sys); running := running sys;
                    timers := timers sys; accepted := accepted sys ++ [item];
                    started := started sys; refused := refused sys |}).
        exact Hsat.
      - destruct (takeDue now (timers sys)) as [rest|]; [|discriminate].
        injection Hstep as <-.
        apply (runProcess_saturated now
                 {| state := state sys; running := running sys; timers := rest;
                    accepted := accepted sys; started := started sys;
                    refused := refused sys |}).
        exact Hsat. }
    destruct H1 as (Ha & Hr & Hs).
    destruct (IH sys1) as (Ha' & Hr' & Hs'); auto; [lia|].
    repeat split; congruence.
Qed.

(** *** The bound on the queue *)

Lemma runProcess_queue_length (now : Z) (sys : System) :
  (length (queue (state (runProcess c now sys))) <= length (queue (state sys)))%nat.
Proof.
  unfold runProcess.
  destruct (process_cases now (state sys))
    as [[-> _] | [(wait & -> & _) | (item & rest & Hq & _ & _ & ->)]]; simpl; auto.
  rewrite Hq. simpl. lia.
Qed.

Lemma step_boundedQueue (m : Z) (e : Event) (sys sys' : System) :
  maxQueueSize c = Some m -> 1 <= m ->
  boundedQueue m sys -> step c e sys = Some sys' -> boundedQueue m sys'.
Proof.
  intros Hm Hpos Hb. unfold boundedQueue in *.
  destruct e as [item now | now | item now]; simpl.
  - intros [= <-]. unfold schedule, queueFull. rewrite Hm.
    destruct (Z.eqb_spec m 0); [lia|]. simpl.
    destruct (Z.leb_spec m (Z.of_nat (length (queue (state sys))))); simpl; [exact Hb|].
    match goal with |- context [runProcess c now ?x] =>
      pose proof (runProcess_queue_length now x) as Hle end.
    simpl in Hle. rewrite length_app in Hle. simpl in Hle. lia.
  - destruct (takeDue now (timers sys)); [|discriminate]. intros [= <-].
    match goal with |- context [runProcess c now ?x] =>
      pose proof (runProcess_queue_length now x) as Hle end.
    simpl in Hle. lia.
  - destruct (remove1 item (running sys)); [|discriminate]. intros [= <-].
    match goal with |- context [runProcess c now ?x] =>
      pose proof (runProcess_queue_length now x) as Hle end.
    simpl in Hle. lia.
Qed.

(** With a bound of 1 or more the queue never grows beyond it. *)
Lemma run_boundedQueue (m : Z) (events : list Event) (sys sys' : System) :
  maxQueueSize c = Some m -> 1 <= m ->
  boundedQueue m sys -> run c events sys = Some sys' -> boundedQueue m sys'.
Proof.
  intros Hm Hpos. revert sys. induction events as [|e events IH]; intros sys Hb; simpl.
  - intros [= <-]. exact Hb.
  - destruct (step c e sys) as [sys1|] eqn:Hstep; [|discriminate].
    apply IH. eapply step_boundedQueue; eauto.
Qed.

(** [schedule] throws only when a bound is set and is not 0. *)
Lemma schedule_throws_only_with_a_bound (item : QueueItem) (now : Z) (sys : System)
    (message : string) :
  fst (schedule c item now sys) = Threw message ->
  exists m, maxQueueSize c = Some m /\ m <> 0 /\
            m <= Z.of_nat (length (queue (state sys))).
Proof.
  unfold schedule, queueFull. destruct (maxQueueSize c) as [m|]; [|discriminate].
  destruct (Z.eqb_spec m 0); [discriminate|]. simpl.
  destruct (Z.leb_spec m (Z.of_nat (length (queue (state sys))))); [|discriminate].
  intros _. exists m. auto.
Qed.

(** Without a bound, or with the bound 0, the guard is never true. *)
Lemma queueFull_unbounded (s : State) :
  maxQueueSize c = None \/ maxQueueSize c = Some 0 -> queueFull c s = false.
Proof. unfold queueFull. intros [-> | ->]; reflexivity. Qed.

(** A negative [maxQueueSize] is truthy and below every length. *)
Lemma queueFull_negative (m : Z) (s : State) :
  maxQueueSize c = Some m -> m < 0 -> queueFull c s = true.
Proof.
  unfold queueFull. intros -> Hneg.
  destruct (Z.eqb_spec m 0); [lia|].
  destruct (Z.leb_spec m (Z.of_nat (length (queue s)))); [reflexivity | lia].
Qed.

(** With a negative [maxQueueSize] nothing is ever accepted. *)
Lemma step_nothing_accepted (m : Z) (e : Event) (sys sys' : System) :
  maxQueueSize c = Some m -> m < 0 ->
  queue (state sys) = [] /\ accepted sys = [] /\ started sys = [] ->
  step c e sys = Some sys' ->
  queue (state sys') = [] /\ accepted sys' = [] /\ started sys' = [].
Proof.
  intros Hm Hneg (Hq & Ha & Hs). destruct e as [item now | now | item now]; simpl.
  - unfold schedule. rewrite (queueFull_negative m) by done. intros [= <-]. auto.
  - destruct (takeDue now (timers sys)) as [rest|]; [|discriminate].
    intros [= <-]. unfold runProcess, process. simpl. rewrite Hq. auto.
  - destruct (remove1 item (running sys)) as [rest|]; [|discriminate].
    intros [= <-]. unfold runProcess, process. simpl. rewrite Hq. auto.
Qed.

Lemma run_nothing_accepted (m : Z) (events : list Event) (sys sys' : System) :
  maxQueueSize c = Some m -> m < 0 ->
  queue (state sys) = [] /\ accepted sys = [] /\ started sys = [] ->
  run c events sys = Some sys' ->
  queue (state sys') = [] /\ accepted sys' = [] /\ started sys' = [].
Proof.
  intros Hm Hneg. revert sys. induction events as [|e events IH]; intros sys Hinv; simpl.
  - by intros [= <-].
  - destruct (step c e sys) as [sys1|] eqn:Hstep; [|discriminate].
    apply IH. eapply step_nothing_accepted; eauto.
Qed.

Lemma burst_accepted (n : nat) (sys : System) :
  maxQueueSize c = None \/ maxQueueSize c = Some 0 ->
  wellFormed c sys -> started sys = running sys ->
  exists sys', run c (burst n) sys = Some sys' /\
    wellFormed c sys' /\ started sys' = running sys' /\
    refused sys' = refused sys /\
    length (accepted sys') = (length (accepted sys) + n)%nat.
Proof.
  intros Hunb. revert sys. induction n as [|n IH]; intros sys Hwf Hsr; simpl.
  - exists sys. split; [reflexivity|]. split; [exact Hwf|]. split; [exact Hsr|].
    split; [reflexivity | lia].
  - unfold schedule. rewrite (queueFull_unbounded _ Hunb). simpl.
    match goal with |- context [runProcess c 0 ?x] => set (sys1 := x) end.
    assert (Hwf1 : wellFormed c (runProcess c 0 sys1)).
    { apply runProcess_wellFormed. destruct Hwf as (Hcount & Hmax & Hfifo).
      unfold wellFormed, sys1; simpl. repeat split; auto.
      rewrite Hfifo, <- app_assoc. reflexivity. }
    assert (Hsr1 : started (runProcess c 0 sys1) = running (runProcess c 0 sys1)).
    { unfold runProcess. destruct (process c 0 (state sys1)) as [s [| wait | item]];
        simpl; auto. by rewrite Hsr. }
    assert (Hacc : accepted (runProcess c 0 sys1) = accepted sys ++ [0%nat]).
    { unfold runProcess. destruct (process c 0 (state sys1)) as [s [| wait | item]];
        reflexivity. }
    assert (Href : refused (runProcess c 0 sys1) = refused sys).
    { unfold runProcess. destruct (process c 0 (state sys1)) as [s [| wait | item]];
        reflexivity. }
    destruct (IH _ Hwf1 Hsr1) as (sys' & Hrun & Hwf' & Hsr' & Href' & Hlen).
    exists sys'. split; [exact Hrun|]. split; [exact Hwf'|]. split; [exact Hsr'|].
    split; [congruence|].
    rewrite Hlen, Hacc, length_app. simpl. lia.
Qed.

(** Without a bound the queue grows as far as one likes. *)
Lemma queue_grows_without_bound (n : nat) :
  maxQueueSize c = None \/ maxQueueSize c = Some 0 ->
  0 <= maxConcurrent c ->
  exists events sys,
    run c events boot = Some sys /\ refused sys = [] /\
    (n <= length (queue (state sys)))%nat.
Proof.
  intros Hunb Hmax.
  destruct (burst_accepted (n + Z.to_nat (maxConcurrent c)) boot Hunb)
    as (sys & Hrun & (Hcount & Hle & Hfifo) & Hsr & Href & Hlen).
  { by apply boot_wellFormed. }
  { reflexivity. }
  exists (burst (n + Z.to_nat (maxConcurrent c))), sys.
  split; [exact Hrun|]. split; [exact Href|].
  apply (f_equal (@length _)) in Hfifo. rewrite length_app, Hsr in Hfifo.
  simpl in Hlen. lia.
Qed.

End RateLimiterFacts.

Section RateLimiterClaims.
Import RateLimiter.

(** C6.  A rate gate constructed with [maxConcurrent = k], [k >= 1],
    after any sequence of calls of [schedule], timers firing and
    operations settling: the number of operations running is at most
    [k]; the counter [activeCount] is that number; and the operations
    started so far, followed by the queue, are the operations accepted
    so far in the order of their acceptance, so the queue is served
    first in, first out.  ([step_wellFormed] is the same statement for
    one admission or completion step.) *)
Theorem gate_never_exceeds_maxConcurrent_and_admits_fifo
    (options : Options.t) (k : Z) (events : list Event) (sys : System) :
  Options.maxConcurrent options = Some k ->
  1 <= k ->
  run (constructor options) events boot = Some sys ->
  maxConcurrent (constructor options) = k /\
  Z.of_nat (length (running sys)) <= k /\
  activeCount (state sys) = Z.of_nat (length (running sys)) /\
  accepted sys = started sys ++ queue (state sys).
Proof.
  intros Hk Hpos Hrun.
  assert (Hmax : maxConcurrent (constructor options) = k).
  { simpl. rewrite Hk. simpl. lia. }
  destruct (run_wellFormed (constructor options) events boot sys)
    as (Hcount & Hle & Hfifo); auto.
  { apply boot_wellFormed. lia. }
  repeat split; auto. lia.
Qed.

(** Three calls on the two slots of the app, and one completion. *)
Lemma three_calls_two_slots :
  exists sys,
    run Scenario.appLimiter
      [Schedule 1%nat 1000000; Schedule 2%nat 1000500; Schedule 3%nat 1001000;
       Settles 1%nat 1002000] boot = Some sys /\
    Z.of_nat (length (running sys)) <= 2 /\
    accepted sys = started sys ++ queue (state sys).
Proof.
  eexists. split; [vm_compute; reflexivity|].
  destruct (gate_never_exceeds_maxConcurrent_and_admits_fifo
              {| Options.maxConcurrent := Some 2; Options.minInterval := Some 400;
                 Options.maxQueueSize := None |} 2
              [Schedule 1%nat 1000000; Schedule 2%nat 1000500; Schedule 3%nat 1001000;
               Settles 1%nat 1002000] _ eq_refl ltac:(lia) eq_refl)
    as (_ & Hle & _ & Hfifo).
  split; [exact Hle | exact Hfifo].
Defined.

(** C7, as amended.  For every rate gate constructed with a
    [maxQueueSize] of 1 or more, a call of [schedule] made while the
    queue holds [maxQueueSize] entries (or more) throws
    "Rate limiter queue full" at once; the operation is not put in the
    queue and not started, and the queue, the counter, the running
    operations and the timers are as before the call. *)
Theorem schedule_on_a_full_queue_throws
    (options : Options.t) (m : Z) (item : QueueItem) (now : Z) (sys : System) :
  Options.maxQueueSize options = Some m ->
  1 <= m ->
  m <= Z.of_nat (length (queue (state sys))) ->
  exists sys',
    schedule (constructor options) item now sys = (Threw "Rate limiter queue full", sys') /\
    state sys' = state sys /\
    running sys' = running sys /\
    timers sys' = timers sys /\
    accepted sys' = accepted sys /\
    started sys' = started sys /\
    refused sys' = refused sys ++ [item].
Proof.
  intros Hm Hpos Hfull. unfold schedule, queueFull. simpl. rewrite Hm.
  destruct (Z.eqb_spec m 0); [lia|]. simpl.
  destruct (Z.leb_spec m (Z.of_nat (length (queue (state sys))))); [|lia].
  eexists. split; [reflexivity|]. simpl. repeat split.
Qed.

(** With [maxQueueSize: 1]: the first call waits in the queue for the
    pacing timer, the second call is refused. *)
Lemma second_call_on_a_queue_of_one_throws :
  exists sys',
    schedule (constructor (Scenario.boundedLimiter 1)) 2%nat 0
      (snd (schedule (constructor (Scenario.boundedLimiter 1)) 1%nat 0 boot))
      = (Threw "Rate limiter queue full", sys') /\
    queue (state sys') = [1%nat] /\ running sys' = [] /\ refused sys' = [2%nat].
Proof.
  destruct (schedule_on_a_full_queue_throws (Scenario.boundedLimiter 1) 1 2%nat 0
              (snd (schedule (constructor (Scenario.boundedLimiter 1)) 1%nat 0 boot))
              eq_refl ltac:(lia) ltac:(vm_compute; discriminate))
    as (sys' & Hcall & Hstate & Hrunning & _ & _ & _ & Hrefused).
  exists sys'. split; [exact Hcall|]. rewrite Hstate, Hrunning, Hrefused.
  vm_compute. repeat split.
Defined.

(** C7, the statement of the specification refuted.  The gate is
    constructed with [maxQueueSize: 0]; the queue holds 0 entries, that
    is [maxQueueSize] entries.  The call of [schedule] does not throw:
    the operation is accepted and started. *)
Lemma schedule_with_bound_zero_is_accepted :
  Options.maxQueueSize (Scenario.boundedLimiter 0) = Some 0 /\
  Z.of_nat (length (queue (state boot))) = 0 /\
  fst (schedule (constructor (Scenario.boundedLimiter 0)) 7%nat 1000000 boot) = Enqueued /\
  running (snd (schedule (constructor (Scenario.boundedLimiter 0)) 7%nat 1000000 boot))
    = [7%nat].
Proof. vm_compute. repeat split. Qed.

(** C9, as amended.  When the gate is constructed without
    [maxQueueSize], or with [maxQueueSize] 0, no call of [schedule]
    throws "queue full": every call is accepted, and for every length
    there is a run, without any refusal, in which the queue reaches that
    length.  For every other [maxQueueSize] the check is made.  With a
    [maxQueueSize] of 1 or more the queue never holds more than
    [maxQueueSize] operations.  With a negative [maxQueueSize] every
    call of [schedule] throws "queue full", also on an empty queue:
    nothing is ever accepted or started.  A call of [schedule] throws
    only when a bound is set, is not 0, and is at most the length of the
    queue. *)
Theorem queue_full_check_is_skipped_for_no_bound_or_zero_only (options : Options.t) :
  (Options.maxQueueSize options = None \/ Options.maxQueueSize options = Some 0 ->
     (forall item now sys,
        fst (schedule (constructor options) item now sys) = Enqueued) /\
     (forall n : nat, exists events sys,
        run (constructor options) events boot = Some sys /\
        refused sys = [] /\
        (n <= length (queue (state sys)))%nat)) /\
  (forall m, Options.maxQueueSize options = Some m -> 1 <= m ->
     forall events sys,
       run (constructor options) events boot = Some sys ->
       Z.of_nat (length (queue (state sys))) <= m) /\
  (forall m, Options.maxQueueSize options = Some m -> m < 0 ->
     (forall item now sys,
        fst (schedule (constructor options) item now sys)
          = Threw "Rate limiter queue full") /\
     (forall events sys,
        run (constructor options) events boot = Some sys ->
        queue (state sys) = [] /\ accepted sys = [] /\ started sys = [])) /\
  (forall item now sys message,
     fst (schedule (constructor options) item now sys) = Threw message ->
     exists m, Options.maxQueueSize options = Some m /\ m <> 0 /\
               m <= Z.of_nat (length (queue (state sys)))).
Proof.
  split; [|split; [|split]].
  - intros Hunb. split.
    + intros item now sys. unfold schedule.
      rewrite (queueFull_unbounded (constructor options)); [reflexivity | exact Hunb].
    + intros n. apply queue_grows_without_bound; [exact Hunb | simpl; lia].
  - intros m Hm Hpos events sys Hrun.
    apply (run_boundedQueue (constructor options) m events boot sys); auto.
    unfold boundedQueue. simpl. lia.
  - intros m Hm Hneg. split.
    + intros item now sys. unfold schedule.
      rewrite (queueFull_negative (constructor options) m); [reflexivity | exact Hm | exact Hneg].
    + intros events sys Hrun.
      apply (run_nothing_accepted (constructor options) m events boot sys); auto.
  - intros item now sys message Hthrew.
    apply (schedule_throws_only_with_a_bound _ _ _ _ _ Hthrew).
Qed.

(** The gate of the app has no bound; a gate with the bound 0 behaves
    the same. *)
Lemma app_limiter_accepts_every_call :
  fst (schedule Scenario.appLimiter 1%nat 0 boot) = Enqueued /\
  fst (schedule (constructor (Scenario.boundedLimiter 0)) 1%nat 0 boot) = Enqueued.
Proof.
  split.
  - apply (proj1 (proj1 (queue_full_check_is_skipped_for_no_bound_or_zero_only
             {| Options.maxConcurrent := Some 2; Options.minInterval := Some 400;
                Options.maxQueueSize := None |}) (or_introl eq_refl))).
  - apply (proj1 (proj1 (queue_full_check_is_skipped_for_no_bound_or_zero_only
             (Scenario.boundedLimiter 0)) (or_intror eq_refl))).
Defined.

(** C9, the statement of the specification refuted.  The gate is
    constructed with [maxQueueSize: -1], which is not 1 or more.  The
    check is made all the same: -1 is truthy and the length of the empty
    queue is not below it, so the first call of [schedule] throws
    "queue full". *)
Lemma negative_bound_refuses_the_first_call :
  Options.maxQueueSize (Scenario.boundedLimiter (-1)) = Some (-1) /\
  queue (state boot) = [] /\
  fst (schedule (constructor (Scenario.boundedLimiter (-1))) 1%nat 0 boot)
    = Threw "Rate limiter queue full" /\
  ~ Stated.enforcedOnlyFromOne (Scenario.boundedLimiter (-1)).
Proof.
  split; [reflexivity|]. split; [reflexivity|]. split; [reflexivity|].
  intros Honly.
  destruct (Honly 1%nat 0 boot "Rate limiter queue full" eq_refl) as (m & Hm & Hpos).
  injection Hm as <-. lia.
Qed.

End RateLimiterClaims.

(* ------------------------------------------------------------------ *)
(** ** The poll scheduler *)

Section PollSchedulerFacts.
Import PollScheduler.

Variable c : Config.

Lemma clearTimeout_running (r : Ref) (s : State) :
  running (clearTimeout r s) = running s.
Proof.
  unfold clearTimeout. destruct (objects s !! r) as [t|]; [|reflexivity].
  destruct (timeout t); reflexivity.
Qed.

Lemma clearTimeout_history (r : Ref) (s : State) :
  runs (clearTimeout r s) = runs s /\
  nextHandle (clearTimeout r s) = nextHandle s /\
  executing (clearTimeout r s) = executing s.
Proof.
  unfold clearTimeout. destruct (objects s !! r) as [t|]; [|auto].
  destruct (timeout t); auto.
Qed.

Lemma clearTimeout_pending (r : Ref) (s : State) (t : Timer) :
  t ∈ pending (clearTimeout r s) -> t ∈ pending s.
Proof.
  unfold clearTimeout. destruct (objects s !! r) as [o|]; [|auto].
  destruct (timeout o); [|auto]. simpl. unfold cancel.
  rewrite list_elem_of_filter. tauto.
Qed.

Lemma stop_all_running (l : list (string * Ref)) (s : State) :
  running (fold_left (fun acc kr => clearTimeout (snd kr) acc) l s) = running s.
Proof.
  revert s. induction l as [|kr l IH]; intros s; simpl; [reflexivity|].
  rewrite IH. apply clearTimeout_running.
Qed.

(** After [stop()] the scheduler is not running. *)
Lemma stop_not_running (s : State) : running (stop s) = false.
Proof.
  unfold stop. destruct (running s) eqn:Hr; simpl; [|exact Hr].
  rewrite stop_all_running. reflexivity.
Qed.

Lemma fire_pending (h : Handle) (clock : Z) (l rest : list Timer) (t : Timer) :
  fire h clock l = Some (t, rest) ->
  t ∈ l /\ handle t = h /\ due t <= clock /\ (forall t', t' ∈ rest -> t' ∈ l) /\
  length l = S (length rest).
Proof.
  revert rest. induction l as [|x l IH]; intros rest; simpl; [discriminate|].
  destruct (Nat.eqb_spec (handle x) h) as [Hh | Hh].
  - destruct (Z.leb_spec (due x) clock); [|discriminate].
    intros [= <- <-]. split; [left|]. split; [done|]. split; [done|].
    split; [|done]. intros t' Ht'. by right.
  - destruct (fire h clock l) as [[t1 rest1]|]; [|discriminate].
    intros [= <- <-]. destruct (IH rest1 eq_refl) as (Hin & Hh' & Hdue & Hsub & Hlen).
    split; [by right|]. split; [done|]. split; [done|]. split; [|simpl; lia].
    intros t' Ht'. apply elem_of_cons in Ht' as [-> | Ht']; [left | right; auto].
Qed.

(** While the scheduler is not running, what the environment does
    starts no action and sets no timer. *)
Lemma environment_step_stopped (e : Event) (s s' : State) :
  running s = false -> environment e = true -> step c e s = Some s' ->
  running s' = false /\
  runs s' = runs s /\
  nextHandle s' = nextHandle s /\
  (forall t, t ∈ pending s' -> t ∈ pending s) /\
  (length (executing s') <= length (executing s))%nat.
Proof.
  intros Hstopped Henv. destruct e as [| | | | | dt | h | r settled]; try discriminate; simpl.
  - destruct (0 <=? dt); [|discriminate]. intros [= <-]. simpl. auto.
  - destruct (fire h (now s) (pending s)) as [[t rest]|] eqn:Hfire; [|discriminate].
    intros [= <-]. unfold executeBegin. simpl. rewrite Hstopped. simpl.
    apply fire_pending in Hfire as (_ & _ & _ & Hsub & _). auto.
  - destruct (remove1 r (executing s)) as [rest|] eqn:Hrm; [|discriminate].
    intros [= <-]. unfold executeEnd.
    assert (Hlen : (length rest <= length (executing s))%nat).
    { apply remove1_length in Hrm. lia. }
    destruct settled as [|reason]; simpl.
    + rewrite Hstopped. simpl. auto.
    + unfold executeCatch. simpl.
      destruct (logger c); [|simpl; rewrite Hstopped; simpl; auto].
      destruct (objects s !! r); [destruct reason|]; simpl; rewrite Hstopped; simpl; auto.
Qed.

Lemma environment_run_stopped (events : list Event) (s s' : State) :
  running s = false -> forallb environment events = true ->
  run c events s = Some s' ->
  running s' = false /\
  runs s' = runs s /\
  nextHandle s' = nextHandle s /\
  (forall t, t ∈ pending s' -> t ∈ pending s) /\
  (length (executing s') <= length (executing s))%nat.
Proof.
  revert s. induction events as [|e events IH]; intros s Hstopped Henv; simpl.
  - intros [= <-]. auto.
  - simpl in Henv. apply andb_true_iff in Henv as [He Henv].
    destruct (step c e s) as [s1|] eqn:Hstep; [|discriminate]. intros Hrun.
    destruct (environment_step_stopped e s s1) as (Hr1 & Hruns1 & Hh1 & Hp1 & He1); auto.
    destruct (IH s1 Hr1 Henv Hrun) as (Hr & Hruns & Hh & Hp & Hex).
    repeat split; auto; try congruence. lia.
Qed.

Lemma stop_history (s : State) :
  runs (stop s) = runs s /\ nextHandle (stop s) = nextHandle s /\
  (forall t, t ∈ pending (stop s) -> t ∈ pending s).
Proof.
  assert (Hgen : forall (l : list (string * Ref)) s1,
    runs (fold_left (fun acc kr => clearTimeout (snd kr) acc) l s1) = runs s1 /\
    nextHandle (fold_left (fun acc kr => clearTimeout (snd kr) acc) l s1) = nextHandle s1 /\
    (forall t, t ∈ pending (fold_left (fun acc kr => clearTimeout (snd kr) acc) l s1) ->
               t ∈ pending s1)).
  { induction l as [|kr l IHl]; intros s1; simpl; [auto|].
    destruct (IHl (clearTimeout (snd kr) s1)) as (H1 & H2 & H3).
    destruct (clearTimeout_history (snd kr) s1) as (H4 & H5 & _).
    split; [congruence|]. split; [congruence|].
    intros t Ht. eapply clearTimeout_pending; eauto. }
  unfold stop. destruct (running s); simpl; [|auto].
  apply (Hgen (tasks s) (set_running false s)).
Qed.

(** X9.  After [stop()], whatever the environment does (time passing, timers
    firing, actions in flight settling): no action is started, no timer
    is set, so an action that was in flight settles without scheduling
    its task again, and the scheduler stays stopped.  Every timer that
    is still pending was pending before [stop()]. *)
Lemma nothing_starts_after_stop (events : list Event) (s s' : State) :
  forallb environment events = true ->
  run c (Stop :: events) s = Some s' ->
  running s' = false /\
  runs s' = runs s /\
  nextHandle s' = nextHandle s /\
  (forall t, t ∈ pending s' -> t ∈ pending s).
Proof.
  intros Henv. simpl. intros Hrun.
  destruct (environment_run_stopped events (stop s) s') as (Hr & Hruns & Hh & Hp & _); auto.
  { apply stop_not_running. }
  destruct (stop_history s) as (H1 & H2 & H3).
  split; [done|]. split; [congruence|]. split; [congruence|]. auto.
Qed.


(** *** The timers [stop()] cancels *)

Lemma clearTimeout_object_other (r r' : Ref) (s : State) :
  r <> r' -> objects (clearTimeout r' s) !! r = objects s !! r.
Proof.
  intros Hne. unfold clearTimeout. destruct (objects s !! r') as [o|]; [|reflexivity].
  destruct (timeout o); [|reflexivity]. simpl. by rewrite lookup_insert_ne.
Qed.

Lemma clearTimeout_object_same (r : Ref) (s : State) (o : ScheduledTask) :
  objects s !! r = Some o ->
  exists o', objects (clearTimeout r s) !! r = Some o' /\ timeout o' = None.
Proof.
  intros Ho. unfold clearTimeout. rewrite Ho.
  destruct (timeout o) eqn:Ht; simpl.
  - rewrite lookup_insert_eq. eauto.
  - eauto.
Qed.

Lemma clearTimeout_cancels (r : Ref) (s : State) (o : ScheduledTask) (h : Handle) :
  objects s !! r = Some o -> timeout o = Some h ->
  forall t, t ∈ pending (clearTimeout r s) -> handle t <> h.
Proof.
  intros Ho Ht t. unfold clearTimeout. rewrite Ho, Ht. simpl. unfold cancel.
  rewrite list_elem_of_filter. intros [Hne _].
  destruct (Nat.eqb_spec (handle t) h); [by simpl in Hne | done].
Qed.

Lemma clearTimeout_cleared (r r' : Ref) (h : Handle) (s : State) :
  cleared r h s -> cleared r h (clearTimeout r' s).
Proof.
  intros (Hgone & o & Ho & Hnone). split.
  - intros t Ht. apply Hgone. eapply clearTimeout_pending; eauto.
  - destruct (decide (r = r')) as [<- | Hne].
    + eapply clearTimeout_object_same; eauto.
    + exists o. by rewrite clearTimeout_object_other.
Qed.

Lemma clearAll_cleared (l : list (string * Ref)) (r : Ref) (h : Handle) (s : State) :
  cleared r h s ->
  cleared r h (fold_left (fun acc kr => clearTimeout (snd kr) acc) l s).
Proof.
  revert s. induction l as [|kr l IH]; intros s Hc; simpl; [exact Hc|].
  apply IH. by apply clearTimeout_cleared.
Qed.

Lemma clearAll_clears (l : list (string * Ref)) :
  forall (s : State) (key : string) (r : Ref) (o : ScheduledTask) (h : Handle),
  (key, r) ∈ l -> objects s !! r = Some o -> timeout o = Some h ->
  cleared r h (fold_left (fun acc kr => clearTimeout (snd kr) acc) l s).
Proof.
  induction l as [|kr l IH]; intros s key r o h Hin Ho Ht; simpl.
  - by apply elem_of_nil in Hin.
  - assert (Hhere : cleared r h (clearTimeout r s)).
    { split; [by eapply clearTimeout_cancels|by eapply clearTimeout_object_same]. }
    apply elem_of_cons in Hin as [<- | Hin]; simpl.
    + by apply clearAll_cleared.
    + destruct (decide (r = snd kr)) as [<- | Hne].
      * by apply clearAll_cleared.
      * eapply IH; eauto. by rewrite clearTimeout_object_other.
Qed.

(** X10.  [stop()] cancels the timer that each registered task records:
    no pending timer has its handle any more, and the task records no
    timer. *)
Lemma stop_cancels_recorded_timers (s : State) (key : string) (r : Ref)
    (o : ScheduledTask) (h : Handle) :
  running s = true ->
  (key, r) ∈ tasks s -> objects s !! r = Some o -> timeout o = Some h ->
  (forall t, t ∈ pending (stop s) -> handle t <> h) /\
  (exists o', objects (stop s) !! r = Some o' /\ timeout o' = None).
Proof.
  intros Hrun Hin Ho Ht. unfold stop. rewrite Hrun. simpl.
  by eapply (clearAll_clears (tasks s) (set_running false s)).
Qed.

End PollSchedulerFacts.

Section PollSchedulerClaims.
Import PollScheduler.

(** An action in flight when [stop()] is called can settle, and sets
    no timer when it does. *)
Lemma action_in_flight_settles_after_stop :
  exists s',
    run Scenario.noJitter
      [Register Scenario.essential; Start; Fires 0%nat; Stop;
       Completes 0%nat Fulfilled; Advance 5000] initial = Some s' /\
    runs s' = [("essential", 0)] /\ executing s' = [] /\ pending s' = [].
Proof. eexists. split; [vm_compute; reflexivity|]. vm_compute. repeat split. Qed.

(** C8: where the code departs from the specification.  A timer that
    [stop()] does not cancel: the interval of a task is changed while
    its action is in flight.  [updateInterval] sets a timer (handle 1)
    and records it in the task; when the action completes, [execute]
    sets another (handle 2) and records it over the first.  [stop()]
    clears the timer the task records, handle 2; the timer with handle
    1 is still pending after [stop()]. *)
Theorem stop_leaves_a_replaced_timer_pending :
  exists s,
    run Scenario.noJitter Scenario.intervalChangedInFlight initial = Some s /\
    running s = false /\
    pending s = [{| handle := 1%nat; due := 2000; target := 0%nat |}] /\
    (objects s !! 0%nat ≫= timeout) = None.
Proof. eexists. split; [vm_compute; reflexivity|]. vm_compute. repeat split. Qed.

(** When that timer fires, [execute] returns at once: nothing runs. *)
Lemma leaked_timer_starts_nothing :
  exists s,
    run Scenario.noJitter
      (Scenario.intervalChangedInFlight ++ [Advance 5000; Fires 1%nat]) initial = Some s /\
    runs s = [("essential", 0)] /\ pending s = [] /\ executing s = [].
Proof. eexists. split; [vm_compute; reflexivity|]. vm_compute. repeat split. Qed.

End PollSchedulerClaims.

(* ------------------------------------------------------------------ *)
(** ** The mappers: reading back what was written *)

Section MappersReadFacts.
Import Types Mappers.

Lemma lowerAscii_idempotent (a : ascii) : lowerAscii (lowerAscii a) = lowerAscii a.
Proof. destruct a as [[] [] [] [] [] [] [] []]; reflexivity. Qed.

Lemma toLowerCase_idempotent (s : string) : toLowerCase (toLowerCase s) = toLowerCase s.
Proof. induction s as [|a s IH]; simpl; [reflexivity|]. by rewrite lowerAscii_idempotent, IH. Qed.

Lemma MODE_MAP_inverse (n : Z) (m : ThermostatMode) :
  MODE_MAP n = Some m <-> n = MODE_REVERSE_MAP m.
Proof.
  unfold MODE_MAP. split.
  - repeat (match goal with |- context [?x =? ?y] => destruct (Z.eqb_spec x y) end);
      intros [= <-]; subst; reflexivity.
  - intros ->. by destruct m.
Qed.

Lemma FAN_SPEED_MAP_inverse (n : Z) (f : FanSpeed) :
  FAN_SPEED_MAP n = Some f <-> n = FAN_SPEED_REVERSE_MAP f.
Proof.
  unfold FAN_SPEED_MAP. split.
  - repeat (match goal with |- context [?x =? ?y] => destruct (Z.eqb_spec x y) end);
      intros [= <-]; subst; reflexivity.
  - intros ->. by destruct f.
Qed.

(** X1.  What [createWritePayload] writes, the read mappers decode to
    the value that was asked for: the mode number to the name of the
    mode, the fan speed number to the fan speed, the two swing flags to
    the swing mode.  A field the patch leaves out is absent from the
    payload and reads as no fan speed and no swing mode.  On numbers the
    tables are inverse to each other: [MODE_MAP] of a number is a mode
    exactly when the number is the one [MODE_REVERSE_MAP] has for it,
    and a number is read as a fan speed exactly when it is the one
    [FAN_SPEED_REVERSE_MAP] has for it. *)
Theorem written_fields_are_read_back
    (patch : Partial.DeviceState) (currentState : option DeviceState) :
  let payload := createWritePayload patch currentState in
  let wire (key : string) := JNumber <$> payload !! key in
  (forall m, Partial.thermostatMode patch = Some m ->
     mapThermostatMode (wire "operationMode") = modeName m) /\
  mapFanSpeed (wire "fanSpeed") = Partial.fanSpeed patch /\
  mapSwingMode (wire "airSwingUD") (wire "airSwingLR") = Partial.swingMode patch /\
  (forall n m, MODE_MAP n = Some m <-> n = MODE_REVERSE_MAP m) /\
  (forall n f, mapFanSpeed (Some (JNumber n)) = Some f <-> n = FAN_SPEED_REVERSE_MAP f).
Proof.
  intros payload wire.
  destruct (createWritePayload_lookup patch currentState)
    as (_ & Hmode & _ & Hfan & Hud & Hlr & _).
  fold payload in Hmode, Hfan, Hud, Hlr. unfold wire.
  split; [|split; [|split; [|split]]].
  - intros m Hm. rewrite Hmode, Hm. by destruct m.
  - rewrite Hfan. by destruct (Partial.fanSpeed patch) as [[]|].
  - rewrite Hud, Hlr. by destruct (Partial.swingMode patch) as [[]|].
  - intros n m. apply MODE_MAP_inverse.
  - intros n f. apply FAN_SPEED_MAP_inverse.
Qed.

Lemma inherited_key_in_lower_case (key : string) :
  key ∈ objectPrototypeKeys -> toLowerCase key = key ->
  key = "constructor" \/ key = "__proto__".
Proof.
  unfold objectPrototypeKeys. rewrite !elem_of_cons, elem_of_nil.
  intros H Hlow.
  repeat (destruct H as [-> | H]; [first [by left | by right | by vm_compute in Hlow]|]).
  done.
Qed.

Lemma modeKeys_named (key : string) :
  key ∈ modeKeys -> exists m, key = modeName m.
Proof.
  unfold modeKeys. simpl. rewrite !elem_of_cons, elem_of_nil.
  intros H.
  repeat (destruct H as [-> | H];
          [first [by exists ModeAuto | by exists ModeHeat | by exists ModeDry
                 | by exists ModeCool | by exists ModeFan]|]).
  done.
Qed.

(** X2.  [mapThermostatMode] returns the name of a thermostat mode in
    every case but one.  A string is compared in lower case, so 'HEAT'
    reads as 'heat'; a number outside 0..4, and a value that is neither
    a string nor a number, read as 'auto'.  The exception: the test
    [normalized in MODE_REVERSE_MAP] also finds the properties that the
    object inherits, so a string that is 'constructor' or '__proto__' in
    lower case is returned as it is, and is the name of no mode. *)
Theorem mapThermostatMode_yields_a_mode_or_an_inherited_key (rawMode : option JsonValue) :
  ((exists m, mapThermostatMode rawMode = modeName m) \/
   (exists s, rawMode = Some (JString s) /\ mapThermostatMode rawMode = toLowerCase s /\
              (toLowerCase s = "constructor" \/ toLowerCase s = "__proto__"))) /\
  (forall s m, rawMode = Some (JString s) -> toLowerCase s = modeName m ->
     mapThermostatMode rawMode = modeName m) /\
  (forall s, rawMode = Some (JString s) ->
     toLowerCase s = "constructor" \/ toLowerCase s = "__proto__" ->
     mapThermostatMode rawMode = toLowerCase s /\
     forall m, mapThermostatMode rawMode <> modeName m) /\
  (forall n, rawMode = Some (JNumber n) -> (n < 0 \/ 4 < n) ->
     mapThermostatMode rawMode = "auto") /\
  ((forall s, rawMode <> Some (JString s)) -> (forall n, rawMode <> Some (JNumber n)) ->
     mapThermostatMode rawMode = "auto").
Proof.
  split; [|split; [|split; [|split]]].
  - destruct rawMode as [[n | s | b |]|]; simpl; try (left; by exists ModeAuto).
    + left. destruct (MODE_MAP n) as [m|]; [by exists m | by exists ModeAuto].
    + unfold inModeReverseMap.
      destruct (bool_decide_reflect (toLowerCase s ∈ modeKeys)) as [Hown | Hown]; simpl.
      * left. by apply modeKeys_named.
      * destruct (bool_decide_reflect (toLowerCase s ∈ objectPrototypeKeys)) as [Hin | Hin].
        -- right. exists s. split; [done|]. split; [done|].
           apply inherited_key_in_lower_case; [done | apply toLowerCase_idempotent].
        -- left. by exists ModeAuto.
  - intros s m -> Hlow. simpl. rewrite Hlow. by destruct m.
  - intros s -> [Hlow | Hlow]; simpl; rewrite Hlow; (split; [reflexivity | by intros []]).
  - intros n -> Hn. simpl. unfold MODE_MAP.
    repeat (match goal with |- context [?x =? ?y] => destruct (Z.eqb_spec x y) end); try lia.
    reflexivity.
  - intros Hs Hn. destruct rawMode as [[n | s | b |]|]; try reflexivity.
    + by destruct (Hn n).
    + by destruct (Hs s).
Qed.

End MappersReadFacts.

Section CapabilityFacts.
Import Types Mappers.

Lemma elem_of_add (x y : string) (l : list string) : x ∈ add y l <-> x = y \/ x ∈ l.
Proof.
  unfold add. destruct (bool_decide_reflect (y ∈ l)) as [Hin | Hin].
  - split; [auto|]. by intros [-> | H].
  - rewrite elem_of_app, list_elem_of_singleton. tauto.
Qed.

Lemma elem_of_add_if (b : bool) (x y : string) (l : list string) :
  x ∈ (if b then add y l else l) <-> (x = y /\ b = true) \/ x ∈ l.
Proof. destruct b; [rewrite elem_of_add|]; intuition congruence. Qed.

(** X3.  The capability plan holds no capability twice.  It holds the
    four basic capabilities, first and in this order, and 'alarm_filter',
    last; 'measure_humidity', 'measure_temperature_outdoor', 'fan_speed'
    and 'swing_mode' exactly when the device has the feature; and
    'measure_power', 'meter_power' and 'alarm_connection' exactly when
    the device supports energy monitoring. *)
Theorem capability_plan_lists_each_capability_once (device : ComfortDevice.t) :
  let features := ComfortDevice.features device in
  let plan := capabilities (buildCapabilityPlan device) in
  NoDup plan /\
  (forall capability : string,
     capability ∈ plan <->
       capability ∈ ["onoff"; "thermostat_mode"; "target_temperature";
                     "measure_temperature"; "alarm_filter"] \/
       (capability = "measure_humidity" /\
          ComfortDeviceFeatures.supportsHumidity features = true) \/
       (capability = "measure_temperature_outdoor" /\
          ComfortDeviceFeatures.supportsOutdoorTemperature features = true) \/
       (capability ∈ ["measure_power"; "meter_power"; "alarm_connection"] /\
          ComfortDeviceFeatures.supportsEnergyMonitoring features = true) \/
       (capability = "fan_speed" /\ ComfortDeviceFeatures.fanSpeeds features <> []) \/
       (capability = "swing_mode" /\
          (ComfortDeviceFeatures.supportsSwingVertical features = true \/
           ComfortDeviceFeatures.supportsSwingHorizontal features = true))) /\
  take 4 plan = ["onoff"; "thermostat_mode"; "target_temperature"; "measure_temperature"] /\
  last plan = Some "alarm_filter".
Proof.
  intros features plan. subst plan features. unfold buildCapabilityPlan.
  destruct (ComfortDevice.features device) as [lo hi speeds hum out energy vert hor]. simpl.
  split; [|split].
  - destruct speeds, hum, out, energy, vert, hor;
      apply (bool_decide_unpack _); vm_compute; exact I.
  - intros capability.
    rewrite elem_of_add, elem_of_add_if, !elem_of_add, elem_of_add_if, elem_of_add_if.
    destruct energy, speeds; simpl;
      rewrite ?elem_of_add, ?elem_of_add_if, !elem_of_cons, !elem_of_nil, orb_true_iff.
    all: rewrite ?Nat.ltb_irrefl; intuition congruence.
  - destruct speeds, hum, out, energy, vert, hor; split; reflexivity.
Qed.

End CapabilityFacts.

Section SetpointFacts.
Import Types Mappers.

(** X4.  When the patch sets a target temperature, the value sent is
    never above the maximum in force (the patch's own, else the cached
    one).  It is not below the minimum when the bounds are in order;
    when the minimum is above the maximum, the maximum is sent; and a
    value within the bounds is sent as it is. *)
Theorem setpoint_sent_never_exceeds_the_maximum
    (patch : Partial.DeviceState) (currentState : option DeviceState) (t : Z) :
  Partial.targetTemperature patch = Some t ->
  let lo := Partial.minTemperature patch ?? (currentState ≫= minTemperature) in
  let hi := Partial.maxTemperature patch ?? (currentState ≫= maxTemperature) in
  exists sent,
    createWritePayload patch currentState !! "targetTemp" = Some sent /\
    (forall h, hi = Some h -> sent <= h) /\
    (forall l, lo = Some l -> (forall h, hi = Some h -> l <= h) -> l <= sent) /\
    (forall l h, lo = Some l -> hi = Some h -> h < l -> sent = h) /\
    ((forall l, lo = Some l -> l <= t) -> (forall h, hi = Some h -> t <= h) -> sent = t).
Proof.
  intros Ht lo hi.
  destruct (createWritePayload_lookup patch currentState) as (_ & _ & Htemp & _).
  rewrite Ht in Htemp. simpl in Htemp. fold lo hi in Htemp.
  eexists. split; [exact Htemp|]. unfold clamp.
  destruct lo as [l|], hi as [h|]; repeat split.
  all: try (intros; simplify_eq; lia).
  all: intros; simplify_eq.
  all: try match goal with H : forall h, Some ?x = Some h -> _ |- _ => specialize (H _ eq_refl) end.
  all: try match goal with H : forall h, Some ?x = Some h -> _ |- _ => specialize (H _ eq_refl) end.
  all: lia.
Qed.

(** The patch [{ targetTemperature: 40 }] with the cached maximum 30:
    what is sent is at most 30. *)
Lemma setpoint_above_the_cached_maximum_is_sent_as_the_maximum :
  Partial.targetTemperature Scenario.setpoint40 = Some 40 /\
  exists sent,
    createWritePayload Scenario.setpoint40 (Some Scenario.livingRoom) !! "targetTemp"
      = Some sent /\
    sent <= 30.
Proof.
  split; [reflexivity|].
  destruct (setpoint_sent_never_exceeds_the_maximum
              Scenario.setpoint40 (Some Scenario.livingRoom) 40 eq_refl)
    as (sent & Hsent & Hmax & _).
  exists sent. split; [exact Hsent|]. by apply Hmax.
Defined.

End SetpointFacts.


(* ------------------------------------------------------------------ *)
(** ** The rate limiter: pacing, and the slot that is handed on *)

Section GateFacts.
Import RateLimiter.

Variable c : Config.

Lemma runProcess_paced (now : Z) (sys : System) :
  (started (runProcess c now sys) = started sys /\
   lastStart (state (runProcess c now sys)) = lastStart (state sys)) \/
  (exists item rest,
     queue (state sys) = item :: rest /\
     started (runProcess c now sys) = started sys ++ [item] /\
     lastStart (state (runProcess c now sys)) = now /\
     lastStart (state sys) + minInterval c <= now).
Proof.
  unfold runProcess.
  destruct (process_cases c now (state sys))
    as [[-> _] | [(wait & -> & _) | (item & rest & Hq & Hlt & Hwait & ->)]]; simpl; auto.
  right. exists item, rest. repeat split; auto. lia.
Qed.

(** X5.  Pacing.  Whatever happens to the gate (a call of [schedule],
    a pacing timer that fires, an operation that settles), either
    nothing is started and [lastStart] stays, or exactly one operation
    is started: the head of the queue (the operation just pushed, when
    the queue was empty), at a moment that is at least [minInterval]
    after the previous start; [lastStart] becomes that moment. *)
Theorem starts_are_paced (e : Event) (sys sys' : System) :
  step c e sys = Some sys' ->
  (started sys' = started sys /\ lastStart (state sys') = lastStart (state sys)) \/
  (exists item rest now,
     now = match e with Schedule _ t | TimerFires t | Settles _ t => t end /\
     queue (state sys) ++ match e with Schedule i _ => [i] | _ => [] end = item :: rest /\
     started sys' = started sys ++ [item] /\
     lastStart (state sys') = now /\
     lastStart (state sys) + minInterval c <= now).
Proof.
  destruct e as [i now | now | i now]; simpl.
  - intros [= <-]. unfold schedule. destruct (queueFull c (state sys)); simpl; [auto|].
    match goal with |- context [runProcess c now ?x] =>
      destruct (runProcess_paced now x) as [H | (item & rest & Hq & Hs & Hl & Hp)] end;
      simpl in *; [auto|].
    right. exists item, rest, now. auto.
  - destruct (takeDue now (timers sys)); [|discriminate]. intros [= <-].
    match goal with |- context [runProcess c now ?x] =>
      destruct (runProcess_paced now x) as [H | (item & rest & Hq & Hs & Hl & Hp)] end;
      simpl in *; [auto|].
    right. exists item, rest, now. rewrite app_nil_r. auto.
  - destruct (remove1 i (running sys)); [|discriminate]. intros [= <-].
    match goal with |- context [runProcess c now ?x] =>
      destruct (runProcess_paced now x) as [H | (item & rest & Hq & Hs & Hl & Hp)] end;
      simpl in *; [auto|].
    right. exists item, rest, now. rewrite app_nil_r. auto.
Qed.

(** X6.  When a running operation settles while operations wait in the
    queue, its slot is handed on.  If [minInterval] has passed since the
    last start, the head of the queue is started at once, and the
    counter is as before.  Otherwise nothing is started, the counter is
    one less, and a timer is set for the moment [minInterval] after the
    last start. *)
Theorem settled_operation_hands_its_slot_on
    (item head : QueueItem) (rest : list QueueItem) (now : Z) (sys sys' : System) :
  wellFormed c sys ->
  queue (state sys) = head :: rest ->
  step c (Settles item now) sys = Some sys' ->
  (lastStart (state sys) + minInterval c <= now ->
     started sys' = started sys ++ [head] /\
     queue (state sys') = rest /\
     activeCount (state sys') = activeCount (state sys) /\
     timers sys' = timers sys) /\
  (now < lastStart (state sys) + minInterval c ->
     started sys' = started sys /\
     queue (state sys') = head :: rest /\
     activeCount (state sys') = activeCount (state sys) - 1 /\
     timers sys' = timers sys ++ [lastStart (state sys) + minInterval c]).
Proof.
  intros (Hcount & Hmax & _) Hq. simpl.
  destruct (remove1 item (running sys)) as [left|]; [|discriminate]. intros [= <-].
  unfold runProcess, process. simpl. rewrite Hq.
  destruct (Z.leb_spec (maxConcurrent c) (activeCount (state sys) - 1)); [lia|].
  destruct (Z.ltb_spec 0 (Z.max 0 (minInterval c - (now - lastStart (state sys)))));
    simpl; split; intros Hpace; try lia.
  - repeat split; auto. f_equal. f_equal. lia.
  - repeat split; auto. lia.
Qed.

End GateFacts.

Section GateWitnesses.
Import RateLimiter.

(** Both slots of the app are taken and a third call waits; the first
    operation settles 1500 ms after the last start: the third call is
    started at once. *)
Lemma third_call_starts_when_the_first_settles :
  exists sys',
    step Scenario.appLimiter (Settles 1%nat 1002000)
      {| state := {| queue := [3%nat]; activeCount := 2; lastStart := 1000500 |};
         running := [1%nat; 2%nat]; timers := [];
         accepted := [1%nat; 2%nat; 3%nat]; started := [1%nat; 2%nat]; refused := [] |}
      = Some sys' /\
    started sys' = [1%nat; 2%nat; 3%nat] /\ queue (state sys') = [].
Proof.
  eexists. split; [reflexivity|].
  destruct (settled_operation_hands_its_slot_on Scenario.appLimiter 1%nat 3%nat [] 1002000
              {| state := {| queue := [3%nat]; activeCount := 2; lastStart := 1000500 |};
                 running := [1%nat; 2%nat]; timers := [];
                 accepted := [1%nat; 2%nat; 3%nat]; started := [1%nat; 2%nat];
                 refused := [] |} _
              ltac:(unfold wellFormed; simpl; repeat split; lia) eq_refl eq_refl)
    as [Hnow _].
  destruct (Hnow ltac:(simpl; lia)) as (Hs & Hq & _).
  split; [exact Hs | exact Hq].
Defined.

(** A second call 100 ms after the first is not started: the 400 ms of
    the app have not passed. *)
Lemma second_call_waits_for_the_pacing_interval :
  exists sys',
    step Scenario.appLimiter (Schedule 2%nat 1000100)
      (snd (schedule Scenario.appLimiter 1%nat 1000000 boot)) = Some sys' /\
    started sys' = [1%nat] /\ lastStart (state sys') = 1000000.
Proof.
  eexists. split; [reflexivity|].
  destruct (starts_are_paced Scenario.appLimiter (Schedule 2%nat 1000100)
              (snd (schedule Scenario.appLimiter 1%nat 1000000 boot)) _ eq_refl)
    as [[Hs Hl] | (item & rest & now & -> & _ & _ & _ & Hp)].
  - split; [exact Hs | exact Hl].
  - vm_compute in Hp. by destruct Hp.
Defined.

End GateWitnesses.

Section GateBounds.
Import RateLimiter.

(** X8.  Whatever the options, the constructor yields
    [maxConcurrent = max(1, maxConcurrent ?? 2)], which is at least 1
    and is 2 when the option is absent, and
    [minInterval = max(0, minInterval ?? 200)].  In every run of a gate
    so constructed the number of running operations stays within that
    bound, and [activeCount] is that number. *)
Theorem gate_of_any_options_keeps_its_bound
    (options : Options.t) (events : list Event) (sys : System) :
  run (constructor options) events boot = Some sys ->
  let bound := Z.max 1 (nullish_or (Options.maxConcurrent options) 2) in
  maxConcurrent (constructor options) = bound /\
  1 <= bound /\
  (Options.maxConcurrent options = None -> bound = 2) /\
  0 <= minInterval (constructor options) /\
  (Options.minInterval options = None -> minInterval (constructor options) = 200) /\
  Z.of_nat (length (running sys)) <= bound /\
  activeCount (state sys) = Z.of_nat (length (running sys)).
Proof.
  intros Hrun bound.
  destruct (run_wellFormed (constructor options) events boot sys)
    as (Hcount & Hle & _); auto.
  { apply boot_wellFormed. simpl. lia. }
  subst bound. simpl in *. repeat split; try lia.
  - by intros ->.
  - by intros ->.
Qed.

(** A gate constructed with [maxConcurrent: 0] and [minInterval: -5]
    has one slot and no pacing: of two calls the first runs and the
    second waits. *)
Lemma gate_built_with_no_slot_runs_one_operation :
  exists sys,
    run (constructor {| Options.maxConcurrent := Some 0; Options.minInterval := Some (-5);
                        Options.maxQueueSize := None |})
      [Schedule 1%nat 1000; Schedule 2%nat 1000] boot = Some sys /\
    running sys = [1%nat] /\ Z.of_nat (length (running sys)) <= 1.
Proof.
  eexists. split; [reflexivity|]. split; [reflexivity|].
  apply (gate_of_any_options_keeps_its_bound
           {| Options.maxConcurrent := Some 0; Options.minInterval := Some (-5);
              Options.maxQueueSize := None |}
           [Schedule 1%nat 1000; Schedule 2%nat 1000] _ eq_refl).
Defined.

(** Both slots of the app are taken: two more calls are queued, and
    nothing is started. *)
Lemma full_gate_starts_nothing_while_nothing_settles :
  exists sys',
    run Scenario.appLimiter [Schedule 3%nat 1001000; Schedule 4%nat 1002000]
      (snd (schedule Scenario.appLimiter 2%nat 1000500
              (snd (schedule Scenario.appLimiter 1%nat 1000000 boot)))) = Some sys' /\
    running sys' = [1%nat; 2%nat] /\ started sys' = [1%nat; 2%nat] /\
    queue (state sys') = [3%nat; 4%nat].
Proof.
  destruct (run Scenario.appLimiter
              [Schedule 3%nat 1001000; Schedule 4%nat 1002000]
              (snd (schedule Scenario.appLimiter 2%nat 1000500
                      (snd (schedule Scenario.appLimiter 1%nat 1000000 boot)))))
    as [sys'|] eqn:Hrun; [|by vm_compute in Hrun].
  exists sys'. split; [reflexivity|].
  destruct (saturated_gate_starts_nothing Scenario.appLimiter
              [Schedule 3%nat 1001000; Schedule 4%nat 1002000]
              (snd (schedule Scenario.appLimiter 2%nat 1000500
                      (snd (schedule Scenario.appLimiter 1%nat 1000000 boot))))
              sys' ltac:(simpl; lia) eq_refl Hrun) as (_ & Hr & Hs).
  split; [exact Hr|]. split; [exact Hs|].
  vm_compute in Hrun. injection Hrun as <-. reflexivity.
Defined.

End GateBounds.



(* ------------------------------------------------------------------ *)
(** ** The poll scheduler: registrations and timers *)

Section SchedulerInvariant.
Import PollScheduler.

Variable c : Config.

Lemma sameTasks_refl (s : State) : sameTasks s s.
Proof. unfold sameTasks. repeat split; eauto. Qed.

Lemma sameTasks_trans (s1 s2 s3 : State) :
  sameTasks s1 s2 -> sameTasks s2 s3 -> sameTasks s1 s3.
Proof.
  intros (Ht & Hn & Ho & Hh & Hp) (Ht' & Hn' & Ho' & Hh' & Hp').
  unfold sameTasks. split; [congruence|]. split; [congruence|]. split; [|split].
  - intros r o Hr. destruct (Ho r o Hr) as (o1 & Hr1 & Hid1).
    destruct (Ho' r o1 Hr1) as (o2 & Hr2 & Hid2). exists o2. split; [done | congruence].
  - lia.
  - intros t Hin. destruct (Hp' t Hin) as [Hin2 | Hnew]; [|right; lia].
    destruct (Hp t Hin2) as [Hin1 | Hnew]; [by left | right; lia].
Qed.

Lemma sameTasks_clearTimeout (r : Ref) (s : State) : sameTasks s (clearTimeout r s).
Proof.
  unfold clearTimeout. destruct (objects s !! r) as [o|] eqn:Ho; [|apply sameTasks_refl].
  destruct (timeout o) as [h|]; [|apply sameTasks_refl].
  unfold sameTasks. simpl. split; [done|]. split; [done|]. split; [|split; [lia|]].
  - intros r' o' Hr'. destruct (decide (r' = r)) as [-> | Hne].
    + rewrite lookup_insert_eq. rewrite Ho in Hr'. injection Hr' as <-. eauto.
    + rewrite lookup_insert_ne by done. eauto.
  - intros t. unfold cancel. rewrite list_elem_of_filter. tauto.
Qed.

Lemma sameTasks_schedule (r : Ref) (immediate : bool) (s : State) :
  sameTasks s (schedule c r immediate s).
Proof.
  unfold schedule. destruct (running s); simpl; [|apply sameTasks_refl].
  destruct (objects s !! r) as [o|] eqn:Ho; [|apply sameTasks_refl].
  assert (Hgen : forall delay s1, objects s1 = objects s -> tasks s1 = tasks s ->
            nextRef s1 = nextRef s -> nextHandle s1 = nextHandle s -> pending s1 = pending s ->
            sameTasks s
              (set_objects
                 (<[r := {| id := id o; interval := interval o;
                            immediate := PollScheduler.immediate o;
                            timeout := Some (nextHandle s1); lastRun := lastRun o |}]>
                    (objects s1))
                 (set_pending
                    (pending s1 ++ [{| handle := nextHandle s1; due := now s1 + delay;
                                       target := r |}])
                    (set_nextHandle (S (nextHandle s1)) s1)))).
  { intros delay s1 Hobj Htasks Href Hh Hp. unfold sameTasks. simpl.
    rewrite Hobj, Htasks, Href, Hh, Hp.
    split; [done|]. split; [done|]. split; [|split; [lia|]].
    - intros r' o' Hr'. destruct (decide (r' = r)) as [-> | Hne].
      + rewrite lookup_insert_eq. rewrite Ho in Hr'. injection Hr' as <-. eauto.
      + rewrite lookup_insert_ne by done. eauto.
    - intros t. rewrite elem_of_app, list_elem_of_singleton.
      intros [Hin | ->]; [by left | right; simpl; lia]. }
  destruct immediate.
  - by apply Hgen.
  - unfold calculateDelay. destruct (jitter c <=? 0); by apply Hgen.
Qed.

Lemma sameTasks_executeBegin (r : Ref) (s : State) : sameTasks s (executeBegin r s).
Proof.
  unfold executeBegin. destruct (running s); simpl; [|apply sameTasks_refl].
  destruct (objects s !! r) as [o|] eqn:Ho; [|apply sameTasks_refl].
  unfold sameTasks. simpl. split; [done|]. split; [done|]. split; [|split; [lia | auto]].
  intros r' o' Hr'. destruct (decide (r' = r)) as [-> | Hne].
  - rewrite lookup_insert_eq. rewrite Ho in Hr'. injection Hr' as <-. eauto.
  - rewrite lookup_insert_ne by done. eauto.
Qed.

Lemma sameTasks_executeCatch (r : Ref) (reason : Reason) (s : State) :
  sameTasks s (executeCatch c r reason s).
Proof.
  unfold executeCatch. destruct (logger c); [|apply sameTasks_refl].
  destruct (objects s !! r); [|apply sameTasks_refl].
  destruct reason; unfold sameTasks; simpl; repeat split; eauto.
Qed.

Lemma sameTasks_executeEnd (r : Ref) (settled : Settled) (s : State) :
  sameTasks s (executeEnd c r settled s).
Proof.
  unfold executeEnd.
  assert (Hlog : sameTasks s
            match settled with
            | Rejected reason => executeCatch c r reason s
            | Fulfilled => s
            end).
  { destruct settled; [apply sameTasks_refl | apply sameTasks_executeCatch]. }
  destruct (running _); [|exact Hlog].
  eapply sameTasks_trans; [exact Hlog | apply sameTasks_schedule].
Qed.

Lemma sameTasks_fold {A} (f : State -> A -> State) (l : list A) (s : State) :
  (forall acc x, sameTasks acc (f acc x)) -> sameTasks s (fold_left f l s).
Proof.
  intros Hf. revert s. induction l as [|x l IH]; intros s; simpl; [apply sameTasks_refl|].
  eapply sameTasks_trans; [apply Hf | apply IH].
Qed.

Lemma sameTasks_start (s : State) : sameTasks s (start c s).
Proof.
  unfold start. destruct (running s); [apply sameTasks_refl|].
  eapply sameTasks_trans; [|apply sameTasks_fold].
  - unfold sameTasks. simpl. repeat split; eauto.
  - intros acc kr.
    destruct (objects acc !! snd kr); [apply sameTasks_schedule | apply sameTasks_refl].
Qed.

Lemma sameTasks_stop (s : State) : sameTasks s (stop s).
Proof.
  unfold stop. destruct (running s); simpl; [|apply sameTasks_refl].
  eapply sameTasks_trans; [|apply sameTasks_fold].
  - unfold sameTasks. simpl. repeat split; eauto.
  - intros acc kr. apply sameTasks_clearTimeout.
Qed.

Lemma consistent_sameTasks (s s' : State) :
  consistent s -> sameTasks s s' -> consistent s'.
Proof.
  intros (Hnd & Hsound & Hfresh) (Ht & Hn & Ho & Hh & Hp). unfold consistent.
  rewrite Ht, Hn. split; [done|]. split.
  - intros key r Hin. destruct (Hsound key r Hin) as (Hlt & o & Hr & Hid).
    split; [done|]. destruct (Ho r o Hr) as (o' & Hr' & Hid').
    exists o'. split; [done | congruence].
  - intros t Hin. destruct (Hp t Hin) as [Hold | Hnew]; [|lia].
    specialize (Hfresh t Hold). lia.
Qed.

Lemma lookupTask_None (key : string) (l : list (string * Ref)) :
  lookupTask key l = None <-> key ∉ map fst l.
Proof.
  induction l as [|[k r] l IH]; simpl.
  - split; [intros _; apply not_elem_of_nil | done].
  - rewrite not_elem_of_cons. destruct (String.eqb_spec key k) as [-> | Hne].
    + split; [discriminate | by intros [? _]].
    + rewrite IH. tauto.
Qed.

Lemma lookupTask_Some (key : string) (l : list (string * Ref)) (r : Ref) :
  lookupTask key l = Some r -> (key, r) ∈ l.
Proof.
  induction l as [|[k r'] l IH]; simpl; [discriminate|].
  destruct (String.eqb_spec key k) as [-> | Hne].
  - intros [= ->]. left.
  - intros H. right. by apply IH.
Qed.

Lemma deleteTask_subset (key : string) (l : list (string * Ref)) (kr : string * Ref) :
  kr ∈ deleteTask key l -> kr ∈ l /\ fst kr <> key.
Proof.
  unfold deleteTask. rewrite list_elem_of_filter. intros [Hne Hin]. split; [done|].
  intros <-. rewrite String.eqb_refl in Hne. done.
Qed.

Lemma deleteTask_NoDup (key : string) (l : list (string * Ref)) :
  NoDup (map fst l) -> NoDup (map fst (deleteTask key l)).
Proof.
  induction l as [|[k r] l IH]; simpl; [done|].
  rewrite NoDup_cons. intros [Hnotin Hnd]. unfold deleteTask. rewrite filter_cons. simpl.
  destruct (decide _) as [Hkeep | Hdrop]; [|by apply IH].
  simpl. apply NoDup_cons. split; [|by apply IH].
  intros Hin. apply Hnotin. apply list_elem_of_fmap in Hin as ([k' r'] & -> & Hin').
  apply deleteTask_subset in Hin' as [Hin' _]. apply list_elem_of_fmap. by exists (k', r').
Qed.

Lemma lookupTask_deleteTask (key : string) (l : list (string * Ref)) :
  lookupTask key (deleteTask key l) = None.
Proof.
  apply lookupTask_None. intros Hin.
  apply list_elem_of_fmap in Hin as ([k r] & -> & Hin).
  apply deleteTask_subset in Hin as [_ Hne]. by apply Hne.
Qed.

Lemma consistent_register (task : PollTask.t) (s : State) :
  consistent s -> consistent (register c task s).
Proof.
  intros Hc. unfold register.
  destruct (lookupTask (PollTask.id task) (tasks s)) eqn:Hlook.
  { eapply consistent_sameTasks; [exact Hc|]. unfold sameTasks. simpl. repeat split; eauto. }
  apply lookupTask_None in Hlook.
  match goal with |- consistent (if running ?s1 then _ else _) =>
    assert (Hc1 : consistent s1) end.
  { destruct Hc as (Hnd & Hsound & Hfresh). unfold consistent. simpl.
    split; [|split; [|exact Hfresh]].
    - rewrite map_app. simpl. apply NoDup_app. split; [done|]. split.
      + intros k Hk. rewrite list_elem_of_singleton. by intros ->.
      + apply NoDup_singleton.
    - intros key r. rewrite elem_of_app, list_elem_of_singleton. intros [Hin | [= -> ->]].
      + destruct (Hsound key r Hin) as (Hlt & o & Hr & Hid). split; [lia|].
        exists o. rewrite lookup_insert_ne by lia. done.
      + split; [lia|]. eexists. rewrite lookup_insert_eq. split; reflexivity. }
  destruct (running _); [|exact Hc1].
  eapply consistent_sameTasks; [exact Hc1 | apply sameTasks_schedule].
Qed.

Lemma consistent_updateInterval (key : string) (newInterval : Z) (s : State) :
  consistent s -> consistent (updateInterval c key newInterval s).
Proof.
  intros Hc. unfold updateInterval.
  destruct (lookupTask key (tasks s)) as [r|].
  2: { eapply consistent_sameTasks; [exact Hc|]. unfold sameTasks. simpl. repeat split; eauto. }
  match goal with |- consistent (if running ?s1 then _ else _) =>
    assert (Hs1 : sameTasks s s1) end.
  { destruct (objects s !! r) as [o|] eqn:Ho; [|apply sameTasks_refl].
    unfold sameTasks. simpl. split; [done|]. split; [done|]. split; [|split; [lia | auto]].
    intros r' o' Hr'. destruct (decide (r' = r)) as [-> | Hne].
    - rewrite lookup_insert_eq. rewrite Ho in Hr'. injection Hr' as <-. eauto.
    - rewrite lookup_insert_ne by done. eauto. }
  eapply consistent_sameTasks; [exact Hc|].
  destruct (running _); [|exact Hs1].
  eapply sameTasks_trans; [exact Hs1|].
  eapply sameTasks_trans; [apply sameTasks_clearTimeout | apply sameTasks_schedule].
Qed.

Lemma consistent_unregister (key : string) (s : State) :
  consistent s -> consistent (unregister key s).
Proof.
  intros Hc. unfold unregister. destruct (lookupTask key (tasks s)) as [r|]; [|exact Hc].
  pose proof (consistent_sameTasks _ _ Hc (sameTasks_clearTimeout r s)) as (Hnd & Hsound & Hfresh).
  unfold consistent. simpl. split; [by apply deleteTask_NoDup|]. split; [|exact Hfresh].
  intros k r' Hin. apply deleteTask_subset in Hin as [Hin _]. by apply Hsound.
Qed.

Lemma fire_subset (h : Handle) (clock : Z) (l rest : list Timer) (t : Timer) :
  fire h clock l = Some (t, rest) -> forall t', t' ∈ rest -> t' ∈ l.
Proof. intros Hfire. by apply fire_pending in Hfire as (_ & _ & _ & Hsub & _). Qed.

Lemma step_consistent (e : Event) (s s' : State) :
  consistent s -> step c e s = Some s' -> consistent s'.
Proof.
  intros Hc. destruct e as [task | key i | | | key | dt | h | r settled]; simpl.
  - intros [= <-]. by apply consistent_register.
  - intros [= <-]. by apply consistent_updateInterval.
  - intros [= <-]. eapply consistent_sameTasks; [exact Hc | apply sameTasks_start].
  - intros [= <-]. eapply consistent_sameTasks; [exact Hc | apply sameTasks_stop].
  - intros [= <-]. by apply consistent_unregister.
  - destruct (0 <=? dt); [|discriminate]. intros [= <-]. exact Hc.
  - destruct (fire h (now s) (pending s)) as [[t rest]|] eqn:Hfire; [|discriminate].
    intros [= <-]. eapply consistent_sameTasks; [|apply sameTasks_executeBegin].
    destruct Hc as (Hnd & Hsound & Hfresh). unfold consistent. simpl.
    split; [done|]. split; [done|]. intros t' Hin. apply Hfresh. eapply fire_subset; eauto.
  - destruct (remove1 r (executing s)) as [rest|]; [|discriminate].
    intros [= <-]. eapply consistent_sameTasks; [|apply sameTasks_executeEnd]. exact Hc.
Qed.

Lemma run_consistent (events : list Event) (s s' : State) :
  consistent s -> run c events s = Some s' -> consistent s'.
Proof.
  revert s. induction events as [|e events IH]; intros s Hc; simpl.
  - intros [= <-]. exact Hc.
  - destruct (step c e s) as [s1|] eqn:Hstep; [|discriminate].
    apply IH. eapply step_consistent; eauto.
Qed.

Lemma initial_consistent : consistent initial.
Proof.
  unfold consistent. simpl. split; [apply NoDup_nil_2|]. split.
  - intros key r Hin. by apply elem_of_nil in Hin.
  - intros t Hin. by apply elem_of_nil in Hin.
Qed.

(** X11.  In every run from a new scheduler the ids of the registered
    tasks are pairwise distinct, the entries of [this.tasks] are what
    [tasks.get] finds, and each refers to a task object with that id.
    [register] with an id that is registered throws 'Poll task with id
    ... already registered' and changes no registration, no task object
    and no timer. *)
Theorem registered_ids_stay_unique (events : list Event) (s : State) :
  run c events initial = Some s ->
  NoDup (map fst (tasks s)) /\
  (forall key r, (key, r) ∈ tasks s <-> lookupTask key (tasks s) = Some r) /\
  (forall key r, lookupTask key (tasks s) = Some r ->
     exists o, objects s !! r = Some o /\ id o = key) /\
  (forall task, lookupTask (PollTask.id task) (tasks s) <> None ->
     tasks (register c task s) = tasks s /\
     objects (register c task s) = objects s /\
     pending (register c task s) = pending s /\
     thrown (register c task s) =
       thrown s ++ ["Poll task with id " +:+ quote +:+ PollTask.id task +:+ quote
                      +:+ " already registered"]).
Proof.
  intros Hrun.
  destruct (run_consistent events initial s initial_consistent Hrun) as (Hnd & Hsound & _).
  split; [exact Hnd|]. split; [|split].
  - intros key r. split; [|apply lookupTask_Some].
    revert Hnd. generalize (tasks s) as l. induction l as [|[k r'] l IH]; simpl.
    + intros _ Hin. by apply elem_of_nil in Hin.
    + rewrite NoDup_cons. intros [Hnotin Hnd] Hin.
      apply elem_of_cons in Hin as [[= -> ->] | Hin].
      * by rewrite String.eqb_refl.
      * destruct (String.eqb_spec key k) as [-> | Hne]; [|by apply IH].
        destruct Hnotin. apply list_elem_of_fmap. by exists (k, r).
  - intros key r Hlook. apply lookupTask_Some in Hlook.
    by destruct (Hsound key r Hlook) as (_ & Ho).
  - intros task Hdup. unfold register.
    destruct (lookupTask (PollTask.id task) (tasks s)); [|done]. simpl. auto.
Qed.

End SchedulerInvariant.

Section SchedulerFacts.
Import PollScheduler.

Variable c : Config.

(** What [schedule] does to a running scheduler. *)
Lemma schedule_running (r : Ref) (immediate : bool) (s : State) (o : ScheduledTask) :
  running s = true -> objects s !! r = Some o ->
  let s' := schedule c r immediate s in
  pending s' = pending s ++
    [{| handle := nextHandle s;
        due := now s + (if immediate then 0 else interval o + nextJitter c s);
        target := r |}] /\
  objects s' = <[r := {| id := id o; interval := interval o;
                         immediate := PollScheduler.immediate o;
                         timeout := Some (nextHandle s); lastRun := lastRun o |}]> (objects s) /\
  nextHandle s' = S (nextHandle s) /\
  running s' = true /\ now s' = now s /\ tasks s' = tasks s /\
  runs s' = runs s /\ logged s' = logged s /\ executing s' = executing s /\
  thrown s' = thrown s /\ escaped s' = escaped s.
Proof.
  intros Hrun Ho. unfold schedule, nextJitter. rewrite Hrun, Ho. simpl.
  destruct immediate; simpl.
  - repeat split; auto.
  - unfold calculateDelay. destruct (jitter c <=? 0); simpl.
    + rewrite Z.add_0_r. repeat split; auto.
    + rewrite Z.add_assoc. repeat split; auto.
Qed.

(** The [catch] clause touches the two histories only. *)
Lemma executeCatch_history (r : Ref) (reason : Reason) (s : State) (o : ScheduledTask) :
  objects s !! r = Some o ->
  let s' := executeCatch c r reason s in
  logged s' = logged s ++ (if logger c then logs reason (id o) else []) /\
  escaped s' = escaped s ++ (if logger c then escapes reason (id o) else []) /\
  s' = set_escaped (escaped s') (set_logged (logged s') s).
Proof.
  intros Ho. unfold executeCatch. rewrite Ho.
  destruct s, (logger c), reason; simpl; rewrite ?app_nil_r; repeat split; reflexivity.
Qed.

(** What [execute] does once the action has settled, on a running
    scheduler. *)
Lemma executeEnd_running (r : Ref) (settled : Settled) (s : State) (o : ScheduledTask) :
  running s = true -> objects s !! r = Some o ->
  let s' := executeEnd c r settled s in
  pending s' = pending s ++
    [{| handle := nextHandle s; due := now s + interval o + nextJitter c s; target := r |}] /\
  (objects s' !! r ≫= timeout) = Some (nextHandle s) /\
  runs s' = runs s /\ running s' = true /\ tasks s' = tasks s /\
  match settled with
  | Fulfilled => logged s' = logged s /\ escaped s' = escaped s
  | Rejected reason =>
      logged s' = logged s ++ (if logger c then logs reason (id o) else []) /\
      escaped s' = escaped s ++ (if logger c then escapes reason (id o) else [])
  end.
Proof.
  intros Hrun Ho. unfold executeEnd.
  destruct settled as [|reason].
  - rewrite Hrun.
    destruct (schedule_running r false s o Hrun Ho)
      as (Hp & Hobj & _ & Hr & _ & Ht & Hruns & Hl & _ & _ & He).
    cbv zeta in *. rewrite Hp, Hobj, Hl, He, Hruns, Hr, Ht, lookup_insert_eq. simpl.
    rewrite Z.add_assoc. repeat split; reflexivity.
  - destruct (executeCatch_history r reason s o Ho) as (Hlog & Hesc & Hs1).
    cbv zeta in *.
    set (s1 := executeCatch c r reason s) in *.
    assert (Hsame : running s1 = true /\ objects s1 = objects s /\ pending s1 = pending s /\
                    nextHandle s1 = nextHandle s /\ now s1 = now s /\
                    nextJitter c s1 = nextJitter c s /\ runs s1 = runs s /\
                    tasks s1 = tasks s).
    { rewrite Hs1. simpl. unfold nextJitter. simpl. repeat split; auto. }
    destruct Hsame as (Hrun1 & Hobj1 & Hp1 & Hh1 & Hnow1 & Hj1 & Hruns1 & Ht1).
    rewrite Hrun1.
    assert (Ho1 : objects s1 !! r = Some o) by (by rewrite Hobj1).
    destruct (schedule_running r false s1 o Hrun1 Ho1)
      as (Hp & Hobj & _ & Hr & _ & Ht & Hruns & Hl & _ & _ & He).
    cbv zeta in *. rewrite Hp, Hobj, Hl, He, Hruns, Hr, Ht, lookup_insert_eq. simpl.
    rewrite Hp1, Hh1, Hnow1, Hj1, Hruns1, Ht1, Hlog, Hesc, Z.add_assoc.
    repeat split; reflexivity.
Qed.


End SchedulerFacts.

Section IntervalFacts.
Import PollScheduler.

Variable c : Config.


Lemma schedule_now (r : Ref) (immediate : bool) (s : State) :
  now (schedule c r immediate s) = now s.
Proof.
  unfold schedule. destruct (running s); simpl; [|done].
  destruct (objects s !! r); [|done].
  destruct immediate; [done|].
  unfold calculateDelay. by destruct (jitter c <=? 0).
Qed.

Lemma executeEnd_now (r : Ref) (settled : Settled) (s : State) :
  now (executeEnd c r settled s) = now s.
Proof.
  unfold executeEnd.
  assert (Hl : now match settled with
                   | Rejected reason => executeCatch c r reason s
                   | Fulfilled => s
                   end = now s).
  { destruct settled as [|reason]; [reflexivity|]. unfold executeCatch.
    destruct (logger c); [|reflexivity].
    destruct (objects s !! r); [destruct reason|]; reflexivity. }
  destruct (running _); [|exact Hl]. by rewrite schedule_now.
Qed.

Lemma fire_fresh (h : Handle) (clock : Z) (l : list Timer) (t : Timer) :
  (forall t', t' ∈ l -> handle t' <> h) -> handle t = h -> due t <= clock ->
  fire h clock (l ++ [t]) = Some (t, l).
Proof.
  intros Hfresh Hh Hdue. induction l as [|x l IH]; simpl.
  - rewrite Hh, Nat.eqb_refl. destruct (Z.leb_spec (due t) clock); [done | lia].
  - destruct (Nat.eqb_spec (handle x) h) as [Heq | Hne].
    + destruct (Hfresh x); [left | done].
    + rewrite IH; [done|]. intros t' Hin. apply Hfresh. by right.
Qed.

Lemma remove1_elem_of {A} `{EqDecision A} (x : A) (l : list A) :
  x ∈ l -> is_Some (remove1 x l).
Proof.
  induction l as [|y l IH]; simpl; [by intros ?%elem_of_nil|].
  destruct (decide (x = y)); [eauto|].
  intros [-> | Hin]%elem_of_cons; [done|].
  destruct (IH Hin) as [rest ->]. simpl. eauto.
Qed.

(** X15.  [unregister] does not stop a task whose action is in flight.
    The id is gone from [this.tasks]; but when the action settles,
    [execute] schedules the task object again, and when that timer
    fires the action runs again. *)
Theorem unregistered_task_in_flight_runs_again
    (key : string) (r : Ref) (settled : Settled) (dt : Z) (s : State) (o : ScheduledTask) :
  consistent s -> running s = true ->
  lookupTask key (tasks s) = Some r -> objects s !! r = Some o ->
  r ∈ executing s ->
  0 <= dt -> interval o + nextJitter c s <= dt ->
  exists s',
    run c [Unregister key; Completes r settled; Advance dt; Fires (nextHandle s)] s = Some s' /\
    lookupTask key (tasks s') = None /\
    runs s' = runs s ++ [(id o, now s + dt)].
Proof.
  intros (_ & _ & Hfresh) Hrun Hlook Ho Hexec Hdt Hdelay.
  cbn [run step]. unfold unregister. rewrite Hlook.
  set (s1 := clearTimeout r s).
  destruct (clearTimeout_object_same r s o Ho) as (o1 & Ho1 & Hnone). fold s1 in Ho1.
  destruct (clearTimeout_history r s) as (Hruns1 & Hh1 & Hex1). fold s1 in Hruns1, Hh1, Hex1.
  assert (Hrun1 : running s1 = true) by (unfold s1; by rewrite clearTimeout_running).
  assert (Hsame := sameTasks_clearTimeout r s). fold s1 in Hsame.
  destruct Hsame as (_ & _ & Hobj & _ & Hpend).
  destruct (Hobj r o Ho) as (o1' & Ho1' & Hid). rewrite Ho1 in Ho1'. injection Ho1' as <-.
  assert (Hmisc : now s1 = now s /\ nextJitter c s1 = nextJitter c s /\
                  logged s1 = logged s /\ interval o1 = interval o).
  { revert Ho1. unfold s1, clearTimeout, nextJitter. rewrite Ho.
    destruct (timeout o) eqn:Ht; simpl.
    - rewrite lookup_insert_eq. by intros [= <-].
    - rewrite Ho. by intros [= <-]. }
  destruct Hmisc as (Hnow1 & Hjit1 & _ & Hint1).
  set (s2 := set_tasks (deleteTask key (tasks s1)) s1).
  simpl executing. rewrite Hex1.
  destruct (remove1_elem_of r (executing s) Hexec) as [rest ->].
  set (s3 := set_executing rest s2).
  destruct (executeEnd_running c r settled s3 o1 Hrun1 Ho1)
    as (Hp4 & Hobj4 & Hruns4 & Hrun4 & Htasks4 & _).
  set (s4 := executeEnd c r settled s3) in *.
  simpl in Hp4, Hruns4, Htasks4.
  assert (Hnow4 : now s4 = now s).
  { unfold s4. rewrite executeEnd_now. exact Hnow1. }
  destruct (Z.leb_spec 0 dt); [|lia].
  simpl pending. simpl PollScheduler.now. rewrite Hp4, Hnow4.
  rewrite (fire_fresh (nextHandle s) (now s + dt) (pending s1)); cycle 1.
  { intros t Hin. destruct (Hpend t Hin) as [Hold | Hnew]; [|lia].
    specialize (Hfresh t Hold). lia. }
  { simpl. congruence. }
  { simpl. change (nextJitter c s3) with (nextJitter c s1). lia. }
  simpl target.
  destruct (objects s4 !! r) as [o4|] eqn:Ho4; [|discriminate Hobj4].
  assert (Hid4 : id o4 = id o).
  { assert (Hs : sameTasks s3 s4) by apply sameTasks_executeEnd.
    destruct Hs as (_ & _ & Hobj34 & _).
    destruct (Hobj34 r o1 Ho1) as (o4' & Ho4' & Hid4). rewrite Ho4 in Ho4'.
    injection Ho4' as <-. congruence. }
  eexists. split; [reflexivity|]. split.
  - unfold executeBegin. simpl. rewrite Hrun4. simpl. rewrite Ho4. simpl.
    rewrite Htasks4. apply lookupTask_deleteTask.
  - unfold executeBegin. simpl. rewrite Hrun4. simpl. rewrite Ho4. simpl.
    rewrite Hruns4, Hruns1, Hid4. reflexivity.
Qed.

End IntervalFacts.

Section StartFacts.
Import PollScheduler.

Variable c : Config.




End StartFacts.


(* ------------------------------------------------------------------ *)
(** ** The client: attempts, sessions and the cache *)

Section ClientFacts.
Import Types ComfortCloudClient.

Variable gate : RateLimiter.Config.
Variable server : Server.

Lemma sameButGate_refl (w : World) : sameButGate w w.
Proof. unfold sameButGate. repeat split. Qed.

Lemma sameButGate_trans (w1 w2 w3 : World) :
  sameButGate w1 w2 -> sameButGate w2 w3 -> sameButGate w1 w3.
Proof.
  unfold sameButGate. intros (? & ? & ? & ? & ? & ? & ?) (? & ? & ? & ? & ? & ? & ?).
  repeat split; congruence.
Qed.

Lemma started_inv {A} (fn : M A) (w w' : World) (o : Outcome A) :
  started gate fn w = Some (o, w') ->
  exists w1, fn w = Some (o, w1) /\ sameButGate w1 w'.
Proof.
  unfold started. destruct (fn w) as [[[a | e |] w1]|]; intros [= <- <-];
    eexists; (split; [reflexivity|]); by unfold sameButGate.
Qed.

(** [schedule] either leaves the operation in the queue or refuses it,
    or runs it in a world that differs in the clock and the limiter. *)
Lemma schedule_inv {A} (fn : M A) (w w' : World) (o : Outcome A) :
  schedule gate fn w = Some (o, w') ->
  (sameButGate w w' /\
   (o = Pending \/ o = Rejected (JsError "Rate limiter queue full"))) \/
  (exists w0 w1, sameButGate w w0 /\ fn w0 = Some (o, w1) /\ sameButGate w1 w').
Proof.
  unfold schedule. destruct (RateLimiter.queueFull gate (limiter w)).
  { intros [= <- <-]. left. split; [apply sameButGate_refl | by right]. }
  cbv zeta. destruct (RateLimiter.process gate _ _) as [s [| wait | item]].
  - intros [= <- <-]. left. split; [by unfold sameButGate | by left].
  - destruct (RateLimiter.process gate _ _) as [s' [| wait' | item]].
    + intros [= <- <-]. left. split; [by unfold sameButGate | by left].
    + intros [= <- <-]. left. split; [by unfold sameButGate | by left].
    + intros (w1 & Hfn & Hsame)%started_inv. right. eexists _, w1.
      split; [|split; [exact Hfn | exact Hsame]]. by unfold sameButGate.
  - intros (w1 & Hfn & Hsame)%started_inv. right. eexists _, w1.
    split; [|split; [exact Hfn | exact Hsame]]. by unfold sameButGate.
Qed.

Lemma backoff_sum (attempt waits : nat) :
  (waits <= 4 - attempt)%nat ->
  foldr Z.add 0 (map backoff (seq attempt waits)) <= 15000.
Proof.
  intros Hle.
  destruct attempt as [|[|[|[|attempt]]]];
    destruct waits as [|[|[|[|[|waits]]]]]; try lia; vm_compute; intros H; discriminate H.
Qed.

(** X16.  A request without authentication (the calls of [login] and
    [refresh]) sends its call at most five times, at most [5 - attempt]
    times from the attempt count [attempt], always the same call.
    Between the calls it waits [backoff attempt], [backoff (attempt+1)],
    ... in this order: at most four waits, of at most 15000 ms in all.
    This holds whatever the server answers and however the promise
    ends. *)
Theorem unauthenticated_request_makes_at_most_five_calls (fuel : nat) :
  forall (config : AxiosRequestConfig) (attempt : nat) (w w' : World) (o : Outcome Body),
  request gate server fuel config false attempt w = Some (o, w') ->
  exists calls waits : nat,
    requestsOf (trace w') =
      requestsOf (trace w) ++ repeat {| config := config; authorization := None |} calls /\
    backoffsOf (trace w') = backoffsOf (trace w) ++ map backoff (seq attempt waits) /\
    (calls <= S (4 - attempt))%nat /\ (waits <= 4 - attempt)%nat /\
    (waits <= calls <= S waits)%nat /\
    foldr Z.add 0 (map backoff (seq attempt waits)) <= 15000.
Proof.
  induction fuel as [|fuel IH]; intros config attempt w w' o; [discriminate|].
  simpl. rewrite bind_eq. simpl.
  assert (Hnone : forall w1 : World, trace w1 = trace w ->
            exists calls waits : nat,
              requestsOf (trace w1) =
                requestsOf (trace w)
                  ++ repeat {| config := config; authorization := None |} calls /\
              backoffsOf (trace w1) = backoffsOf (trace w) ++ map backoff (seq attempt waits) /\
              (calls <= S (4 - attempt))%nat /\ (waits <= 4 - attempt)%nat /\
              (waits <= calls <= S waits)%nat /\
              foldr Z.add 0 (map backoff (seq attempt waits)) <= 15000).
  { intros w1 ->. exists 0%nat, 0%nat. simpl. rewrite !app_nil_r. repeat split; lia. }
  intros [[(_ & _ & _ & _ & Htrace & _) _]
         | (w0 & w1 & (_ & _ & _ & _ & Htrace0 & _) & Hfn & (_ & _ & _ & _ & Htrace1 & _))]%schedule_inv;
    [by apply Hnone|].
  rewrite Htrace1. clear Htrace1 w'.
  assert (Hone : forall w2 : World,
            trace w2 = trace w0 ++ [Http {| config := config; authorization := None |}] ->
            exists calls waits : nat,
              requestsOf (trace w2) =
                requestsOf (trace w)
                  ++ repeat {| config := config; authorization := None |} calls /\
              backoffsOf (trace w2) = backoffsOf (trace w) ++ map backoff (seq attempt waits) /\
              (calls <= S (4 - attempt))%nat /\ (waits <= 4 - attempt)%nat /\
              (waits <= calls <= S waits)%nat /\
              foldr Z.add 0 (map backoff (seq attempt waits)) <= 15000).
  { intros w2 ->. exists 1%nat, 0%nat. rewrite Htrace0, requestsOf_app, backoffsOf_app. simpl.
    rewrite !app_nil_r. repeat split; lia. }
  revert Hfn. unfold catch, httpRequest.
  destruct (result (server _ _)) as [body | status message].
  { intros [= <- <-]. by apply Hone. }
  rewrite andb_false_r. simpl.
  destruct (retryable status && (attempt <? 4)%nat) eqn:Hretry.
  2: { intros [= <- <-]. by apply Hone. }
  apply andb_true_iff in Hretry as [_ Hlt]. apply Nat.ltb_lt in Hlt.
  rewrite bind_eq. simpl. intros Hnext.
  destruct (IH _ _ _ _ _ Hnext) as (calls & waits & Hcalls & Hwaits & Hc & Hw & Hcw & _).
  simpl in Hcalls, Hwaits.
  rewrite !requestsOf_app, Htrace0 in Hcalls. rewrite !backoffsOf_app, Htrace0 in Hwaits.
  simpl in Hcalls, Hwaits. rewrite !app_nil_r in Hcalls, Hwaits.
  exists (S calls), (S waits). split; [|split; [|split; [|split; [|split]]]].
  - rewrite Hcalls, <- !app_assoc. reflexivity.
  - rewrite Hwaits, <- !app_assoc. simpl. by rewrite Nat.add_1_r.
  - lia.
  - lia.
  - lia.
  - apply backoff_sum. lia.
Qed.

End ClientFacts.

Section CacheFacts.
Import Types ComfortCloudClient.

Variable gate : RateLimiter.Config.
Variable server : Server.
Variable mapDeviceState : Body -> Z -> DeviceState.

Lemma keepsCache_bind {A B} (m : M A) (k : A -> M B) :
  keepsCache m -> (forall a, keepsCache (k a)) -> keepsCache (m ≫= k).
Proof.
  intros Hm Hk w o w'. rewrite bind_eq.
  destruct (m w) as [[[a | e |] w1]|] eqn:Hmw; try discriminate.
  - intros Hkw. rewrite (Hk _ _ _ _ Hkw). eapply Hm; eauto.
  - intros [= <- <-]. eapply Hm; eauto.
  - intros [= <- <-]. eapply Hm; eauto.
Qed.

Lemma keepsCache_catch {A} (m : M A) (handler : Error -> M A) :
  keepsCache m -> (forall e, keepsCache (handler e)) -> keepsCache (catch m handler).
Proof.
  intros Hm Hh w o w'. unfold catch.
  destruct (m w) as [[[a | e |] w1]|] eqn:Hmw; try discriminate.
  - intros [= <- <-]. eapply Hm; eauto.
  - intros Hhw. rewrite (Hh _ _ _ _ Hhw). eapply Hm; eauto.
  - intros [= <- <-]. eapply Hm; eauto.
Qed.

Lemma keepsCache_schedule {A} (fn : M A) :
  keepsCache fn -> keepsCache (schedule gate fn).
Proof.
  intros Hfn w o w'.
  intros [[(_ & _ & _ & Hc & _) _]
         | (w0 & w1 & (_ & _ & _ & Hc0 & _) & Hrun & (_ & _ & _ & Hc1 & _))]%(schedule_inv gate);
    [done|].
  rewrite Hc1, (Hfn _ _ _ Hrun). exact Hc0.
Qed.

Lemma keepsCache_httpRequest (r : HttpRequest) : keepsCache (httpRequest server r).
Proof. intros w o w'. unfold httpRequest. by destruct (result _); intros [= <- <-]. Qed.

Lemma keepsCache_throw {A} (e : Error) : keepsCache (throw e : M A).
Proof. by intros w o w' [= <- <-]. Qed.

Lemma keepsCache_ret {A} (a : A) : keepsCache (ret a).
Proof. by intros w o w' [= <- <-]. Qed.

Lemma keepsCache_mret {A} (a : A) : keepsCache (mret a : M A).
Proof. by intros w o w' [= <- <-]. Qed.

Lemma keepsCache_delay (ms : Z) : keepsCache (delay ms).
Proof. by intros w o w' [= <- <-]. Qed.

Lemma keepsCache_getTokens : keepsCache getTokens.
Proof. intros w o w'. unfold getTokens. by destruct (tokensLoaded w); intros [= <- <-]. Qed.

Lemma keepsCache_setTokens (t : option AuthTokens) : keepsCache (setTokens t).
Proof.
  intros w o w'. unfold setTokens. cbv zeta.
  by destruct (written _), t; intros [= <- <-].
Qed.

Lemma keepsCache_refreshWith (request : Requester) (session : AuthTokens) :
  (forall config, keepsCache (request config false 0%nat)) ->
  keepsCache (refreshWith request session).
Proof.
  intros Hreq. unfold refreshWith.
  apply keepsCache_bind; [apply Hreq|]. intros response.
  apply keepsCache_bind; [by intros w o w' [= <- <-]|]. intros clock.
  apply keepsCache_bind;
    [destruct (parseTokens _ _ _); [apply keepsCache_ret | apply keepsCache_throw]|].
  intros nextTokens.
  apply keepsCache_bind; [apply keepsCache_setTokens|]. intros _. apply keepsCache_ret.
Qed.

Lemma keepsCache_ensureAuthenticatedWith (request : Requester) :
  (forall config, keepsCache (request config false 0%nat)) ->
  keepsCache (ensureAuthenticatedWith request).
Proof.
  intros Hreq. unfold ensureAuthenticatedWith.
  apply keepsCache_bind; [apply keepsCache_getTokens|].
  intros [session|]; [|apply keepsCache_throw].
  apply keepsCache_bind; [by intros w o w' [= <- <-]|]. intros clock.
  destruct (_ <? _); [by apply keepsCache_refreshWith | apply keepsCache_ret].
Qed.

Lemma keepsCache_handleUnauthorizedWith (request : Requester) :
  (forall config, keepsCache (request config false 0%nat)) ->
  keepsCache (handleUnauthorizedWith request).
Proof.
  intros Hreq. unfold handleUnauthorizedWith.
  apply keepsCache_bind; [apply keepsCache_getTokens|].
  intros [session|]; [|apply keepsCache_throw].
  apply keepsCache_bind; [by apply keepsCache_refreshWith|]. intros _. apply keepsCache_ret.
Qed.

(** No request touches the state cache. *)
Lemma request_keeps_cache (fuel : nat) :
  forall (config : AxiosRequestConfig) (requiresAuth : bool) (attempt : nat),
  keepsCache (request gate server fuel config requiresAuth attempt).
Proof.
  induction fuel as [|fuel IH]; intros config requiresAuth attempt; [by intros w o w' [=]|].
  simpl. apply keepsCache_bind.
  { destruct requiresAuth; [|apply keepsCache_ret].
    apply keepsCache_bind; [apply keepsCache_ensureAuthenticatedWith; intros; apply IH|].
    intros t. apply keepsCache_ret. }
  intros authorization.
  apply keepsCache_schedule, keepsCache_catch; [apply keepsCache_httpRequest|].
  intros [status message | message]; [|apply keepsCache_throw].
  destruct (statusIs 401 status && requiresAuth && (attempt <? 2)%nat).
  - apply keepsCache_bind; [apply keepsCache_handleUnauthorizedWith; intros; apply IH|].
    intros _. apply IH.
  - destruct (retryable status && (attempt <? 4)%nat); [|apply keepsCache_throw].
    apply keepsCache_bind; [apply keepsCache_delay|]. intros _. apply IH.
Qed.

Lemma readState_cache (fuel : nat) (deviceId : string) (w w' : World)
    (o : Outcome DeviceState) :
  readState gate server mapDeviceState fuel deviceId w = Some (o, w') ->
  match o with
  | Resolved state => stateCache w' = <[deviceId := state]> (stateCache w)
  | _ => stateCache w' = stateCache w
  end.
Proof.
  unfold readState. rewrite bind_eq.
  destruct (ensureAuthenticated gate server fuel w) as [[[t | e |] w1]|] eqn:Hauth;
    try discriminate.
  2,3: intros [= <- <-];
       eapply (keepsCache_ensureAuthenticatedWith (request gate server fuel)); eauto;
       intros; apply request_keeps_cache.
  assert (Hc1 : stateCache w1 = stateCache w).
  { eapply (keepsCache_ensureAuthenticatedWith (request gate server fuel)); eauto.
    intros; apply request_keeps_cache. }
  rewrite bind_eq.
  destruct (request gate server fuel _ true 0%nat w1) as [[[body | e |] w2]|] eqn:Hreq;
    try discriminate.
  2,3: intros [= <- <-]; rewrite <- Hc1; eapply request_keeps_cache; eauto.
  assert (Hc2 : stateCache w2 = stateCache w1) by (eapply request_keeps_cache; eauto).
  rewrite bind_eq. simpl. rewrite bind_eq. simpl. intros [= <- <-]. simpl. congruence.
Qed.

(** X24.  The state cache changes only by a successful read.  When
    [readState] or [writeState] resolves with a state, the cache entry
    of the device is that state and no other entry has changed.  When
    they do not resolve the cache is as before, also when the control
    call of [writeState] succeeded and the read that follows failed. *)
Theorem cache_holds_what_the_last_read_returned
    (fuel : nat) (deviceId : string) (patch : Partial.DeviceState) (w w' : World)
    (o : Outcome DeviceState) :
  readState gate server mapDeviceState fuel deviceId w = Some (o, w') \/
  writeState gate server mapDeviceState fuel deviceId patch w = Some (o, w') ->
  match o with
  | Resolved state =>
      stateCache w' = <[deviceId := state]> (stateCache w) /\
      stateCache w' !! deviceId = Some state /\
      (forall other, other <> deviceId -> stateCache w' !! other = stateCache w !! other)
  | _ => stateCache w' = stateCache w
  end.
Proof.
  assert (Hgoal : forall w0 : World, stateCache w0 = stateCache w ->
            readState gate server mapDeviceState fuel deviceId w0 = Some (o, w') ->
            match o with
            | Resolved state =>
                stateCache w' = <[deviceId := state]> (stateCache w) /\
                stateCache w' !! deviceId = Some state /\
                (forall other, other <> deviceId ->
                   stateCache w' !! other = stateCache w !! other)
            | _ => stateCache w' = stateCache w
            end).
  { intros w0 Hc0 Hread. apply readState_cache in Hread.
    destruct o as [state | e |]; [|congruence..].
    rewrite Hread, Hc0. split; [done|]. split; [apply lookup_insert_eq|].
    intros other Hne. by rewrite lookup_insert_ne. }
  intros [Hread | Hwrite]; [by apply (Hgoal w)|].
  revert Hwrite. unfold writeState. rewrite bind_eq.
  destruct (ensureAuthenticated gate server fuel w) as [[[t | e |] w1]|] eqn:Hauth;
    try discriminate.
  2,3: intros [= <- <-];
       eapply (keepsCache_ensureAuthenticatedWith (request gate server fuel)); eauto;
       intros; apply request_keeps_cache.
  assert (Hc1 : stateCache w1 = stateCache w).
  { eapply (keepsCache_ensureAuthenticatedWith (request gate server fuel)); eauto.
    intros; apply request_keeps_cache. }
  rewrite bind_eq. simpl. rewrite bind_eq.
  destruct (request gate server fuel _ true 0%nat w1) as [[[body | e |] w2]|] eqn:Hreq;
    try discriminate.
  2,3: intros [= <- <-]; rewrite <- Hc1; eapply request_keeps_cache; eauto.
  assert (Hc2 : stateCache w2 = stateCache w1) by (eapply request_keeps_cache; eauto).
  rewrite bind_eq.
  destruct (readState gate server mapDeviceState fuel deviceId w2)
    as [[[state | e |] w3]|] eqn:Hread; try discriminate.
  - simpl. intros [= <- <-]. apply (Hgoal w2); [congruence | exact Hread].
  - intros [= <- <-]. apply readState_cache in Hread. simpl in Hread. congruence.
  - intros [= <- <-]. apply readState_cache in Hread. simpl in Hread. congruence.
Qed.

End CacheFacts.

Section AttemptFacts.
Import Types ComfortCloudClient.

Variable gate : RateLimiter.Config.
Variable server : Server.
Variable mapDeviceState : Body -> Z -> DeviceState.

(** One attempt of a request whose header is settled. *)
Lemma request_attempt (fuel : nat) (config : AxiosRequestConfig) (requiresAuth : bool)
    (attempt : nat) (w : World) (authorization : option string) :
  free gate w -> authorized requiresAuth w authorization ->
  request gate server (S fuel) config requiresAuth attempt w =
  started gate
    (catch
       (httpRequest server {| config := config; authorization := authorization |})
       (fun error =>
          match error with
          | AxiosError status message =>
              if statusIs 401 status && requiresAuth && (attempt <? 2)%nat then
                (handleUnauthorizedWith (request gate server fuel);;
                 request gate server fuel config requiresAuth (attempt + 1)%nat)
              else if retryable status && (attempt <? 4)%nat then
                (delay (backoff attempt);;
                 request gate server fuel config requiresAuth (attempt + 1)%nat)
              else throw error
          | JsError _ => throw error
          end))
    (admitted gate w).
Proof.
  intros Hfree Hauth. simpl. rewrite bind_eq.
  destruct requiresAuth; simpl in Hauth.
  - destruct Hauth as (session & Hloaded & Htokens & Hvalid & ->).
    rewrite bind_eq, (ensureAuthenticated_valid _ _ session) by done. simpl.
    by apply schedule_free.
  - subst authorization. simpl. by apply schedule_free.
Qed.

(** X17.  A failure that meets neither retry test is thrown again at
    once, as the error of axios: one call, no wait, the slot given
    back, the session and the cache untouched.  This covers a status
    such as 400, 403 or 404 at any attempt count; 401 on a request
    without authentication (the call of [login] or [refresh]) or at
    attempt count 2; 429 or 5xx at attempt count 4. *)
Theorem failure_that_is_not_retried_is_thrown_at_once
    (fuel : nat) (config : AxiosRequestConfig) (requiresAuth : bool) (attempt : nat)
    (w : World) (authorization : option string) (status : option Z) (message : string)
    (ms : Z) :
  free gate w ->
  authorized requiresAuth w authorization ->
  server (length (requestsOf (trace w))) {| config := config; authorization := authorization |}
    = {| result := Failure status message; latency := ms |} ->
  statusIs 401 status && requiresAuth && (attempt <? 2)%nat = false ->
  retryable status && (attempt <? 4)%nat = false ->
  exists w',
    request gate server (S fuel) config requiresAuth attempt w
      = Some (Rejected (AxiosError status message), w') /\
    trace w' = trace w ++ [Http {| config := config; authorization := authorization |}] /\
    RateLimiter.activeCount (limiter w') = RateLimiter.activeCount (limiter w) /\
    sameSession w w' /\ stateCache w' = stateCache w.
Proof.
  intros Hfree Hauth Hreply Hno401 Hnoretry.
  exists (released (sent {| config := config; authorization := authorization |} ms
                      (admitted gate w))).
  split; [|split; [reflexivity|split; [simpl; lia|split; [by unfold sameSession | reflexivity]]]].
  rewrite (request_attempt _ _ _ _ _ authorization) by done.
  apply started_rejected; [|reflexivity].
  unfold catch, httpRequest. simpl. rewrite Hreply. simpl.
  rewrite Hno401, Hnoretry. reflexivity.
Qed.

(** X18.  A call the server accepts is made once.  The request resolves
    with the body; the call is started at
    [max(now, lastStart + minInterval)]; the slot is given back; the
    session and the cache are untouched. *)
Theorem successful_call_is_made_once
    (fuel : nat) (config : AxiosRequestConfig) (requiresAuth : bool) (attempt : nat)
    (w : World) (authorization : option string) (body : Body) (ms : Z) :
  free gate w ->
  authorized requiresAuth w authorization ->
  server (length (requestsOf (trace w))) {| config := config; authorization := authorization |}
    = {| result := Success body; latency := ms |} ->
  exists w',
    request gate server (S fuel) config requiresAuth attempt w = Some (Resolved body, w') /\
    trace w' = trace w ++ [Http {| config := config; authorization := authorization |}] /\
    now w' = startTime gate w + Z.max 0 ms /\
    RateLimiter.lastStart (limiter w') = startTime gate w /\
    RateLimiter.activeCount (limiter w') = RateLimiter.activeCount (limiter w) /\
    RateLimiter.queue (limiter w') = [] /\
    sameSession w w' /\ stateCache w' = stateCache w.
Proof.
  intros Hfree Hauth Hreply.
  exists (released (sent {| config := config; authorization := authorization |} ms
                      (admitted gate w))).
  split; [|simpl; repeat split; lia].
  rewrite (request_attempt _ _ _ _ _ authorization) by done.
  apply started_resolved; [|reflexivity].
  unfold catch, httpRequest. simpl. rewrite Hreply. reflexivity.
Qed.

(** X21.  Without a session (none in memory once the tokens are loaded,
    none in the store before that), an authenticated request,
    [readState] and [writeState] are rejected with 'Comfort Cloud
    credentials missing', and no call is made: the trace, the cache,
    the rate limiter and the store are as before. *)
Theorem without_a_session_no_call_is_made
    (fuel : nat) (config : AxiosRequestConfig) (attempt : nat) (deviceId : string)
    (patch : Partial.DeviceState) (w : World) :
  sessionOf w = None ->
  let missing := JsError "Comfort Cloud credentials missing" in
  request gate server (S fuel) config true attempt w = Some (Rejected missing, loaded w) /\
  readState gate server mapDeviceState fuel deviceId w = Some (Rejected missing, loaded w) /\
  writeState gate server mapDeviceState fuel deviceId patch w
    = Some (Rejected missing, loaded w) /\
  trace (loaded w) = trace w /\ stateCache (loaded w) = stateCache w /\
  limiter (loaded w) = limiter w /\ store (loaded w) = store w.
Proof.
  intros Hnone missing.
  assert (Hensure : forall request : Requester,
            ensureAuthenticatedWith request w = Some (Rejected missing, loaded w)).
  { intros request. unfold ensureAuthenticatedWith. rewrite bind_eq.
    unfold getTokens, loaded, sessionOf in *.
    destruct (tokensLoaded w); simpl; rewrite Hnone; reflexivity. }
  split; [|split; [|split]].
  - simpl. rewrite !bind_eq, Hensure. reflexivity.
  - unfold readState, ensureAuthenticated. rewrite bind_eq, Hensure. reflexivity.
  - unfold writeState, ensureAuthenticated. rewrite bind_eq, Hensure. reflexivity.
  - unfold loaded. by destruct (tokensLoaded w).
Qed.

(** X22.  The session is used as it is until 60 seconds before the
    stored [expiresAt], which [parseTokens] put 60 seconds before the
    declared expiry.  So a session declared for [L >= 120] seconds is
    used until [L - 120] seconds after its issue, and refreshed on any
    use after that; a session declared for 120 seconds or less is
    refreshed on every use after the moment of its issue. *)
Theorem session_is_refreshed_two_minutes_before_it_expires
    (fuel : nat) (response : LoginResponse.t) (previous : option AuthTokens) (issued : Z)
    (session : AuthTokens) (w : World) :
  parseTokens response previous issued = Returned session ->
  tokensLoaded w = true -> tokens w = Some session ->
  let usableUntil := issued + (Z.max (lifetimeOf response - 60) 60 - 60) * 1000 in
  (now w <= usableUntil ->
     ensureAuthenticated gate server fuel w = Some (Resolved session, w)) /\
  (usableUntil < now w ->
     ensureAuthenticated gate server fuel w = refresh gate server fuel session w) /\
  (120 <= lifetimeOf response -> usableUntil = issued + (lifetimeOf response - 120) * 1000) /\
  (lifetimeOf response <= 120 -> usableUntil = issued).
Proof.
  intros Hparse Hloaded Htokens usableUntil.
  destruct (parseTokens_returns _ _ _ _ Hparse) as (_ & _ & _ & _ & _ & Hexp).
  subst usableUntil. split; [|split; [|split]]; try lia.
  - intros Hnow. apply ensureAuthenticated_valid; auto. lia.
  - intros Hnow. unfold ensureAuthenticated, ensureAuthenticatedWith.
    rewrite bind_eq. unfold getTokens. rewrite Hloaded, Htokens.
    rewrite bind_eq. simpl.
    destruct (Z.ltb_spec (expiresAt session - now w) (60 * 1000)); [reflexivity | lia].
Qed.

Lemma request_resolves
    (fuel : nat) (config : AxiosRequestConfig) (requiresAuth : bool) (attempt : nat)
    (w : World) (authorization : option string) (body : Body) (ms : Z) :
  free gate w ->
  authorized requiresAuth w authorization ->
  server (length (requestsOf (trace w))) {| config := config; authorization := authorization |}
    = {| result := Success body; latency := ms |} ->
  request gate server (S fuel) config requiresAuth attempt w =
  Some (Resolved body,
        released (sent {| config := config; authorization := authorization |} ms
                    (admitted gate w))).
Proof.
  intros Hfree Hauth Hreply.
  rewrite (request_attempt _ _ _ _ _ authorization) by done.
  apply started_resolved; [|reflexivity].
  unfold catch, httpRequest. simpl. rewrite Hreply. reflexivity.
Qed.

(** What [parseTokens] returns when it does not throw. *)
Lemma parseTokens_succeeds (response : LoginResponse.t) (previous : option AuthTokens)
    (issued : Z) :
  falsy (LoginResponse.uToken response ?? LoginResponse.accessToken response)
    || falsy (LoginResponse.refreshToken response ?? (refreshToken <$> previous)) = false ->
  exists session,
    parseTokens response previous issued = Returned session /\
    Some (accessToken session)
      = LoginResponse.uToken response ?? LoginResponse.accessToken response /\
    truthy (accessToken session) = true /\ truthy (refreshToken session) = true /\
    issued + 60 * 1000 <= expiresAt session.
Proof.
  intros Hok.
  destruct (parseTokens response previous issued) as [session | e] eqn:Hparse.
  - exists session. split; [reflexivity|].
    destruct (parseTokens_returns _ _ _ _ Hparse) as (Ha & Hr & Hat & Hrt & _ & Hexp).
    rewrite <- Hat in Ha. rewrite <- Hrt in Hr. simpl in Ha, Hr.
    apply negb_false_iff in Ha, Hr. repeat split; auto. lia.
  - unfold parseTokens in Hparse. rewrite Hok in Hparse. discriminate.
Qed.

Lemma free_after_call (r : HttpRequest) (ms : Z) (w : World) :
  free gate w ->
  RateLimiter.activeCount (limiter w) + 1 < RateLimiter.maxConcurrent gate ->
  free gate (sent r ms (admitted gate w)).
Proof.
  intros (Hfull & Hq & Hslot) Hnext. unfold free. simpl. repeat split; auto.
  rewrite <- Hfull. by apply queueFull_empty.
Qed.

(** X19.  The session is valid for the client and the server rejects
    it once.  Let there be two free slots; let the store do the write
    of the renewed session; and let the renewed session be declared for
    long enough not to be about to expire when that write is done (120
    seconds, and the time the write takes).  Then the first call is
    answered 401, the session is renewed by one refresh, the call is
    repeated once with the new access token, and the request resolves
    with the body of that call.  Three calls and no backoff wait; the
    renewed session is in memory and in the store; both slots are given
    back. *)
Theorem rejected_session_is_renewed_and_the_call_repeated
    (fuel : nat) (config : AxiosRequestConfig) (w : World) (session : AuthTokens)
    (message access : string) (response : LoginResponse.t) (body : Body)
    (ms0 ms1 ms2 ms3 : Z) :
  free gate w ->
  RateLimiter.activeCount (limiter w) + 1 < RateLimiter.maxConcurrent gate ->
  tokensLoaded w = true -> tokens w = Some session ->
  60 * 1000 <= expiresAt session - now w ->
  server (length (requestsOf (trace w)))
    {| config := config; authorization := Some (accessToken session) |}
    = {| result := Failure (Some 401) message; latency := ms0 |} ->
  server (S (length (requestsOf (trace w))))
    {| config := refreshRequest session; authorization := None |}
    = {| result := Success (TokensBody response); latency := ms1 |} ->
  LoginResponse.uToken response ?? LoginResponse.accessToken response = Some access ->
  truthy access = true ->
  falsy (LoginResponse.refreshToken response ?? Some (refreshToken session)) = false ->
  nextWrite w = {| written := Saved; took := ms3 |} ->
  Z.max 0 ms3 <= (lifetimeOf response - 120) * 1000 ->
  server (S (S (length (requestsOf (trace w)))))
    {| config := config; authorization := Some access |}
    = {| result := Success body; latency := ms2 |} ->
  exists w' renewed,
    request gate server (S (S fuel)) config true 0 w = Some (Resolved body, w') /\
    requestsOf (trace w') = requestsOf (trace w) ++
      [ {| config := config; authorization := Some (accessToken session) |};
        {| config := refreshRequest session; authorization := None |};
        {| config := config; authorization := Some access |} ] /\
    backoffsOf (trace w') = backoffsOf (trace w) /\
    tokens w' = Some renewed /\ store w' = Some renewed /\
    accessToken renewed = access /\
    RateLimiter.activeCount (limiter w') = RateLimiter.activeCount (limiter w) /\
    RateLimiter.queue (limiter w') = [].
Proof.
  intros Hfree Hnext Hloaded Htokens Hvalid Hreply0 Hreply1 Haccess Htruthy Hrenewal
    Hwrite Hlong Hreply2.
  set (r0 := {| config := config; authorization := Some (accessToken session) |}) in *.
  set (r1 := {| config := refreshRequest session; authorization := None |}) in *.
  set (r2 := {| config := config; authorization := Some access |}) in *.
  set (w1 := sent r0 ms0 (admitted gate w)).
  set (w2 := released (sent r1 ms1 (admitted gate w1))).
  assert (Hfree1 : free gate w1) by (by apply free_after_call).
  (* the refresh *)
  assert (Hrefresh : request gate server (S fuel) (refreshRequest session) false 0 w1
                     = Some (Resolved (TokensBody response), w2)).
  { apply request_resolves; [done | reflexivity|].
    unfold w1. simpl. rewrite requestsOf_app, length_app. simpl.
    rewrite Nat.add_1_r. exact Hreply1. }
  destruct (parseTokens_succeeds response (Some session) (now w2))
    as (renewed & Hparse & Hat & _ & _ & _).
  { rewrite Haccess. simpl. rewrite Htruthy. simpl. exact Hrenewal. }
  rewrite Haccess in Hat. injection Hat as Hat.
  destruct (parseTokens_returns _ _ _ _ Hparse) as (_ & _ & _ & _ & _ & Hexp).
  set (w3 := saved renewed ms3 w2).
  assert (Hhandle : handleUnauthorizedWith (request gate server (S fuel)) w1
                    = Some (Resolved tt, w3)).
  { unfold handleUnauthorizedWith. rewrite bind_eq. unfold getTokens.
    change (tokensLoaded w1) with (tokensLoaded w). rewrite Hloaded.
    change (tokens w1) with (tokens w). rewrite Htokens.
    rewrite bind_eq.
    change (refreshWith (request gate server (S fuel)) session)
      with (refresh gate server (S fuel) session).
    rewrite (refresh_eq _ _ _ _ _ _ _ Hrefresh).
    change (asLoginResponse (TokensBody response)) with response.
    rewrite Hparse. change (nextWrite w2) with (nextWrite w). rewrite Hwrite. reflexivity. }
  (* the retry *)
  set (w4 := released (sent r2 ms2 (admitted gate w3))).
  assert (Hretry : request gate server (S fuel) config true 1 w3
                   = Some (Resolved body, w4)).
  { unfold w4, r2. rewrite <- Hat. apply request_resolves.
    - destruct Hfree as (Hfull & Hq & Hslot). unfold free. simpl. repeat split; [|lia].
      rewrite <- Hfull. by apply queueFull_empty.
    - exists renewed. simpl. repeat split; auto. rewrite Hexp. simpl. lia.
    - rewrite Hat. unfold w3, w2, w1. simpl. rewrite !requestsOf_app, !length_app. simpl.
      replace (length (requestsOf (trace w)) + 1 + 1)%nat
        with (S (S (length (requestsOf (trace w))))) by lia.
      exact Hreply2. }
  exists (released w4), renewed.
  split; [|split; [|split; [|split; [|split; [|split; [|split]]]]]].
  - rewrite (request_attempt _ _ _ _ _ (Some (accessToken session))); [|done|by exists session].
    apply started_resolved; [|reflexivity].
    unfold catch, httpRequest.
    change (trace (admitted gate w)) with (trace w). fold r0. rewrite Hreply0.
    cbn -[request handleUnauthorizedWith]. rewrite bind_eq.
    match goal with |- context [handleUnauthorizedWith _ ?x] => change x with w1 end.
    rewrite Hhandle. exact Hretry.
  - simpl. rewrite !requestsOf_app. simpl. rewrite <- !app_assoc. reflexivity.
  - simpl. rewrite !backoffsOf_app. simpl. by rewrite !app_nil_r.
  - reflexivity.
  - reflexivity.
  - exact Hat.
  - simpl. lia.
  - reflexivity.
Qed.

(** [login] once its call has resolved with a body. *)
Lemma login_eq (fuel : nat) (credentials : ProviderLoginRequest) (w w1 : World) (body : Body) :
  request gate server fuel (loginRequest credentials) false 0%nat w
    = Some (Resolved body, w1) ->
  login gate server fuel credentials w =
  match parseTokens (asLoginResponse body) None (now w1) with
  | Returned session =>
      match written (nextWrite w1) with
      | Saved =>
          Some (Resolved session, saved session (took (nextWrite w1)) w1)
      | WriteFailed message =>
          Some (Rejected (JsError message), assigned session (took (nextWrite w1)) w1)
      end
  | Thrown e => Some (Rejected e, w1)
  end.
Proof.
  intros Hreq. unfold login. rewrite bind_eq.
  change {| url := "/auth/login"; method := POST;
            data := LoginData (email credentials) (password credentials) |}
    with (loginRequest credentials).
  rewrite Hreq. rewrite bind_eq. simpl. rewrite bind_eq.
  destruct (parseTokens _ _ _) as [session | e]; [|reflexivity].
  simpl. rewrite bind_eq, setTokens_eq. by destruct (written _).
Qed.

(** X23.  When [login] resolves, the session it returns is the one in
    memory and the one the store holds.  Both tokens are non-empty and
    come from the response (there is no previous session to fall back
    on); the [userId] is the response's [userId], else its [user.id],
    else 'unknown'; and when the response arrived the session had at
    least a minute to go.  When [login] does not resolve, the store
    holds what it held.  The session in memory is untouched as well
    when the call failed or a token is missing in the response; but
    when the write to the store threw, [login] is rejected with the
    error of the store and the session of the response is in memory
    already.  With a store that works, a login that does not resolve
    leaves the session as it was. *)
Theorem login_stores_the_session_it_returns
    (fuel : nat) (credentials : ProviderLoginRequest) (w w' : World)
    (o : Outcome AuthTokens) :
  login gate server fuel credentials w = Some (o, w') ->
  match o with
  | Resolved session =>
      tokens w' = Some session /\ store w' = Some session /\ tokensLoaded w' = true /\
      truthy (accessToken session) = true /\ truthy (refreshToken session) = true /\
      exists body w1,
        request gate server fuel (loginRequest credentials) false 0 w
          = Some (Resolved body, w1) /\
        now w1 + 60 * 1000 <= expiresAt session /\
        now w' = now w1 + Z.max 0 (took (nextWrite w)) /\
        Some (accessToken session)
          = LoginResponse.uToken (asLoginResponse body)
              ?? LoginResponse.accessToken (asLoginResponse body) /\
        Some (refreshToken session) = LoginResponse.refreshToken (asLoginResponse body) /\
        userId session
          = nullish_or
              (LoginResponse.userId (asLoginResponse body)
                 ?? (LoginResponse.user (asLoginResponse body) ≫= LoginResponse.id))
              "unknown"
  | _ =>
      store w' = store w /\
      (written (nextWrite w) = Saved -> sameSession w w') /\
      (sameSession w w' \/
       exists session message body w1,
         request gate server fuel (loginRequest credentials) false 0 w
           = Some (Resolved body, w1) /\
         parseTokens (asLoginResponse body) None (now w1) = Returned session /\
         written (nextWrite w) = WriteFailed message /\
         o = Rejected (JsError message) /\
         tokens w' = Some session /\ tokensLoaded w' = true)
  end.
Proof.
  intros Hlogin.
  assert (Hcall : forall w1, sameSession w w1 ->
            store w1 = store w /\ (written (nextWrite w) = Saved -> sameSession w w1) /\
            (sameSession w w1 \/
             exists session message body w0,
               request gate server fuel (loginRequest credentials) false 0 w
                 = Some (Resolved body, w0) /\
               parseTokens (asLoginResponse body) None (now w0) = Returned session /\
               written (nextWrite w) = WriteFailed message /\
               o = Rejected (JsError message) /\
               tokens w1 = Some session /\ tokensLoaded w1 = true)).
  { intros w1 Hsame. split; [apply Hsame|]. split; [done | by left]. }
  destruct (request gate server fuel (loginRequest credentials) false 0 w)
    as [[[body | e |] w1]|] eqn:Hreq.
  2,3,4: revert Hlogin; unfold login; rewrite bind_eq;
         change {| url := "/auth/login"; method := POST;
                   data := LoginData (email credentials) (password credentials) |}
           with (loginRequest credentials);
         rewrite Hreq; try discriminate; intros [= <- <-]; apply Hcall;
         eapply request_unauthenticated_keeps_session; eauto.
  pose proof (request_unauthenticated_keeps_session _ _ _ _ _ _ _ _ Hreq) as Hsame.
  rewrite (login_eq _ _ _ _ _ Hreq), (sameSession_nextWrite _ _ Hsame) in Hlogin.
  destruct (parseTokens (asLoginResponse body) None (now w1)) as [session | e] eqn:Hparse.
  2: { injection Hlogin as <- <-. by apply Hcall. }
  destruct (parseTokens_returns _ _ _ _ Hparse) as (Ha & Hr & Hat & Hrt & Hu & Hexp).
  rewrite <- Hat in Ha. rewrite <- Hrt in Hr. simpl in Ha, Hr, Hrt, Hu.
  apply negb_false_iff in Ha, Hr.
  destruct (written (nextWrite w)) as [|message] eqn:Hwrite; injection Hlogin as <- <-.
  - split; [done|]. split; [done|]. split; [done|]. split; [done|]. split; [done|].
    exists body, w1. split; [done|]. split; [lia|]. split; [done|]. split; [done|]. split.
    + rewrite Hrt. by destruct (LoginResponse.refreshToken (asLoginResponse body)).
    + rewrite Hu.
      by destruct (LoginResponse.userId (asLoginResponse body)
                     ?? (LoginResponse.user (asLoginResponse body) ≫= LoginResponse.id)).
  - simpl. split; [apply Hsame|]. split; [done|].
    right. exists session, message, body, w1. done.
Qed.

End AttemptFacts.

Section RenewalFacts.
Import Types ComfortCloudClient.

Variable gate : RateLimiter.Config.
Variable server : Server.

Lemma request_eq (fuel : nat) (config : AxiosRequestConfig) (requiresAuth : bool)
    (attempt : nat) :
  request gate server (S fuel) config requiresAuth attempt =
  (authorization ←
     (if requiresAuth then
        tokens ← ensureAuthenticatedWith (request gate server fuel);
        ret (Some (Types.accessToken tokens))
      else ret None);
   schedule gate
     (catch
        (httpRequest server {| config := config; authorization := authorization |})
        (fun error =>
           match error with
           | AxiosError status message =>
               if statusIs 401 status && requiresAuth && (attempt <? 2)%nat then
                 (handleUnauthorizedWith (request gate server fuel);;
                  request gate server fuel config requiresAuth (attempt + 1)%nat)
               else if retryable status && (attempt <? 4)%nat then
                 (delay (backoff attempt);;
                  request gate server fuel config requiresAuth (attempt + 1)%nat)
               else throw error
           | JsError _ => throw error
           end))).
Proof. reflexivity. Qed.

Lemma getTokens_eq (w : World) : getTokens w = Some (Resolved (sessionOf w), loaded w).
Proof. unfold getTokens, sessionOf, loaded. by destruct (tokensLoaded w) eqn:H. Qed.

Lemma nextWrite_loaded (w : World) : nextWrite (loaded w) = nextWrite w.
Proof. unfold loaded. by destruct (tokensLoaded w). Qed.

(** X20.  A session that expires within 60 seconds is renewed before
    the call: the refresh is made first, and the new session replaces
    the one in memory.  When the store does the write of the new
    session, the call is made with the new access token and the request
    resolves with its body; one free slot is enough, since the refresh
    has settled when the call is scheduled.  When the write throws, the
    request is rejected with the error of the store and the call is not
    made; the new session is in memory, the store holds what it held. *)
Theorem expiring_session_is_renewed_before_the_call
    (fuel : nat) (config : AxiosRequestConfig) (attempt : nat) (w : World)
    (session : AuthTokens) (access : string) (response : LoginResponse.t) (body : Body)
    (ms1 ms2 : Z) :
  free gate w ->
  sessionOf w = Some session ->
  expiresAt session - now w < 60 * 1000 ->
  server (length (requestsOf (trace w)))
    {| config := refreshRequest session; authorization := None |}
    = {| result := Success (TokensBody response); latency := ms1 |} ->
  LoginResponse.uToken response ?? LoginResponse.accessToken response = Some access ->
  truthy access = true ->
  falsy (LoginResponse.refreshToken response ?? Some (refreshToken session)) = false ->
  server (S (length (requestsOf (trace w))))
    {| config := config; authorization := Some access |}
    = {| result := Success body; latency := ms2 |} ->
  exists w' renewed,
    accessToken renewed = access /\
    tokens w' = Some renewed /\
    backoffsOf (trace w') = backoffsOf (trace w) /\
    RateLimiter.activeCount (limiter w') = RateLimiter.activeCount (limiter w) /\
    match written (nextWrite w) with
    | Saved =>
        request gate server (S (S fuel)) config true attempt w = Some (Resolved body, w') /\
        requestsOf (trace w') = requestsOf (trace w) ++
          [ {| config := refreshRequest session; authorization := None |};
            {| config := config; authorization := Some access |} ] /\
        store w' = Some renewed
    | WriteFailed message =>
        request gate server (S (S fuel)) config true attempt w
          = Some (Rejected (JsError message), w') /\
        requestsOf (trace w') = requestsOf (trace w) ++
          [ {| config := refreshRequest session; authorization := None |} ] /\
        store w' = store w
    end.
Proof.
  intros Hfree Hsession Hsoon Hreply1 Haccess Htruthy Hrenewal Hreply2.
  set (r1 := {| config := refreshRequest session; authorization := None |}) in *.
  set (w0 := loaded w).
  assert (Hw0 : now w0 = now w /\ limiter w0 = limiter w /\ trace w0 = trace w /\
                store w0 = store w).
  { unfold w0, loaded. by destruct (tokensLoaded w). }
  destruct Hw0 as (Hnow0 & Hlim0 & Htrace0 & Hstore0).
  assert (Hfree0 : free gate w0).
  { unfold free. rewrite Hlim0. exact Hfree. }
  set (w2 := released (sent r1 ms1 (admitted gate w0))).
  assert (Hrefresh : request gate server (S fuel) (refreshRequest session) false 0 w0
                     = Some (Resolved (TokensBody response), w2)).
  { apply request_resolves; [done | reflexivity|]. rewrite Htrace0. exact Hreply1. }
  destruct (parseTokens_succeeds response (Some session) (now w2))
    as (renewed & Hparse & Hat & _ & _ & Hexp).
  { rewrite Haccess. simpl. rewrite Htruthy. simpl. exact Hrenewal. }
  rewrite Haccess in Hat. injection Hat as Hat.
  assert (Hensure : ensureAuthenticatedWith (request gate server (S fuel)) w
                    = refresh gate server (S fuel) session w0).
  { unfold ensureAuthenticatedWith. rewrite bind_eq, getTokens_eq, Hsession.
    rewrite bind_eq. unfold dateNow, gets. fold w0. rewrite Hnow0.
    destruct (Z.ltb_spec (expiresAt session - now w) (60 * 1000)); [reflexivity | lia]. }
  rewrite (refresh_eq _ _ _ _ _ _ _ Hrefresh) in Hensure.
  change (asLoginResponse (TokensBody response)) with response in Hensure.
  rewrite Hparse in Hensure.
  change (nextWrite w2) with (nextWrite w0) in Hensure.
  unfold w0 in Hensure at 1 2 3. rewrite nextWrite_loaded in Hensure. fold w0 in Hensure.
  destruct (written (nextWrite w)) as [|message].
  - set (w3 := saved renewed (took (nextWrite w)) w2) in *.
    set (r2 := {| config := config; authorization := Some (accessToken renewed) |}).
    exists (released (sent r2 ms2 (admitted gate w3))), renewed.
    split; [exact Hat|]. split; [reflexivity|]. split; [|split; [|split; [|split]]].
    + simpl. rewrite !backoffsOf_app, Htrace0. simpl. by rewrite !app_nil_r.
    + simpl. rewrite Hlim0. lia.
    + rewrite request_eq, bind_eq, bind_eq, Hensure.
      cbn -[request schedule]. rewrite schedule_free.
      2: { destruct Hfree0 as (Hfull & Hq & Hslot). unfold free. simpl. repeat split; [|lia].
           rewrite <- Hfull. by apply queueFull_empty. }
      apply started_resolved; [|reflexivity].
      unfold catch, httpRequest.
      replace (server _ _) with {| result := Success body; latency := ms2 |}; [reflexivity|].
      rewrite <- Hreply2. unfold r2. rewrite Hat. f_equal.
      simpl. rewrite requestsOf_app, length_app, Htrace0. simpl. lia.
    + unfold r2. simpl. rewrite !requestsOf_app, Htrace0, Hat. simpl.
      rewrite <- !app_assoc. reflexivity.
    + reflexivity.
  - exists (assigned renewed (took (nextWrite w)) w2), renewed.
    split; [exact Hat|]. split; [reflexivity|]. split; [|split; [|split; [|split]]].
    + simpl. rewrite !backoffsOf_app, Htrace0. simpl. by rewrite !app_nil_r.
    + simpl. rewrite Hlim0. lia.
    + rewrite request_eq, bind_eq, bind_eq, Hensure. reflexivity.
    + simpl. rewrite !requestsOf_app, Htrace0. reflexivity.
    + simpl. exact Hstore0.
Qed.

End RenewalFacts.


(* ------------------------------------------------------------------ *)
(** ** Instances *)

Section SchedulerWitnesses.
Import PollScheduler.

(** The action of 'essential' is in flight when [stop()] is called; it
    settles, and time passes: nothing runs, no timer is left. *)
Lemma essential_is_in_flight_when_stop_is_called :
  exists s',
    run Scenario.noJitter [Stop; Completes 0%nat Fulfilled; Advance 5000] Scenario.inFlight
      = Some s' /\
    running s' = false /\ runs s' = [("essential", 0)] /\ pending s' = [].
Proof.
  destruct (run Scenario.noJitter [Stop; Completes 0%nat Fulfilled; Advance 5000]
              Scenario.inFlight) as [s'|] eqn:Hrun; [|by vm_compute in Hrun].
  exists s'. split; [reflexivity|].
  destruct (nothing_starts_after_stop Scenario.noJitter
              [Completes 0%nat Fulfilled; Advance 5000] Scenario.inFlight s' eq_refl Hrun)
    as (Hr & Hruns & _ & Hp).
  split; [exact Hr|]. split; [exact Hruns|].
  destruct (pending s') as [|t l]; [reflexivity|].
  specialize (Hp t ltac:(left)). vm_compute in Hp. by apply elem_of_nil in Hp.
Defined.

(** The timer of 'essential' is pending when [stop()] is called. *)
Lemma stop_cancels_the_timer_of_essential :
  (forall t, t ∈ pending (stop Scenario.polling) -> handle t <> 0%nat) /\
  (exists o', objects (stop Scenario.polling) !! 0%nat = Some o' /\ timeout o' = None).
Proof.
  apply (stop_cancels_recorded_timers Scenario.polling "essential" 0%nat
           Scenario.essentialScheduled 0%nat).
  - reflexivity.
  - vm_compute. left.
  - vm_compute. reflexivity.
  - reflexivity.
Defined.

(** 'essential' registered twice is registered once. *)
Lemma essential_is_registered_once :
  exists s,
    run Scenario.noJitter [Register Scenario.essential; Register Scenario.essential] initial
      = Some s /\
    NoDup (map fst (tasks s)) /\ length (tasks s) = 1%nat.
Proof.
  eexists. split; [reflexivity|]. split; [|reflexivity].
  apply (registered_ids_stay_unique Scenario.noJitter
           [Register Scenario.essential; Register Scenario.essential] _ eq_refl).
Defined.


Lemma inFlight_is_consistent : consistent Scenario.inFlight.
Proof.
  apply (run_consistent Scenario.noJitter
           [Register Scenario.essential; Start; Fires 0%nat] initial);
    [apply initial_consistent | vm_compute; reflexivity].
Qed.



(** The first action of 'essential' is rejected with [undefined]: the
    next run is due 1000 ms later all the same; nothing is logged, and
    the TypeError of the [catch] clause leaves [execute]. *)
Lemma poll_rejected_with_undefined_is_not_logged :
  exists s',
    step Scenario.noJitter (Completes 0%nat (Rejected Nullish)) Scenario.inFlight = Some s' /\
    pending s' = [{| handle := 1%nat; due := 1000; target := 0%nat |}] /\
    logged s' = [] /\ escaped s' = ["essential"].
Proof. eexists. split; [reflexivity|]. vm_compute. repeat split. Qed.


(** 'essential' is unregistered while its action is in flight: 1000 ms
    after the action has settled it runs again. *)
Lemma essential_runs_again_after_it_was_unregistered :
  exists s',
    run Scenario.noJitter
      [Unregister "essential"; Completes 0%nat Fulfilled; Advance 1000; Fires 1%nat]
      Scenario.inFlight = Some s' /\
    lookupTask "essential" (tasks s') = None /\
    runs s' = [("essential", 0); ("essential", 1000)].
Proof.
  apply (unregistered_task_in_flight_runs_again Scenario.noJitter "essential" 0%nat Fulfilled 1000
           Scenario.inFlight Scenario.essentialRunning inFlight_is_consistent).
  - reflexivity.
  - reflexivity.
  - reflexivity.
  - vm_compute. left.
  - lia.
  - vm_compute. discriminate.
Defined.

End SchedulerWitnesses.

Section ClientWitnesses.
Import Types ComfortCloudClient.

(** The client of the scenarios: signed in, its rate limiter idle. *)
Lemma signedIn_free : free Scenario.appLimiter Scenario.signedIn.
Proof. unfold free. simpl. split; [reflexivity|]. split; [reflexivity|]. lia. Qed.

Lemma signedIn_authorized : authorized true Scenario.signedIn (Some "access-0").
Proof.
  exists Scenario.session. split; [reflexivity|]. split; [reflexivity|].
  split; [simpl; lia | reflexivity].
Qed.

(** A server that answers 429 every time, and a slot for every attempt. *)
Lemma throttled_call_is_sent_five_times :
  exists o w',
    request (Scenario.limiterWith 5) Scenario.throttling 10 Scenario.listDevices false 0
      (fresh 1000000 None) = Some (o, w') /\
    exists calls waits : nat,
      requestsOf (trace w') =
        requestsOf (trace (fresh 1000000 None))
          ++ repeat {| config := Scenario.listDevices; authorization := None |} calls /\
      backoffsOf (trace w') =
        backoffsOf (trace (fresh 1000000 None)) ++ map backoff (seq 0 waits) /\
      (calls <= S (4 - 0))%nat /\ (waits <= 4 - 0)%nat /\
      (waits <= calls <= S waits)%nat /\
      foldr Z.add 0 (map backoff (seq 0 waits)) <= 15000.
Proof.
  destruct (request (Scenario.limiterWith 5) Scenario.throttling 10 Scenario.listDevices
              false 0 (fresh 1000000 None)) as [[o w']|] eqn:Hreq;
    [|by vm_compute in Hreq].
  exists o, w'. split; [reflexivity|].
  exact (unauthenticated_request_makes_at_most_five_calls
           (Scenario.limiterWith 5) Scenario.throttling 10 Scenario.listDevices 0
           (fresh 1000000 None) w' o Hreq).
Defined.

(** A device list that the server answers with 404. *)
Lemma not_found_is_thrown_at_once :
  exists w',
    request Scenario.appLimiter (Scenario.failing 404) 10 Scenario.listDevices true 0
      Scenario.signedIn
      = Some (Rejected (AxiosError (Some 404) "Request failed"), w') /\
    trace w' = [Http {| config := Scenario.listDevices; authorization := Some "access-0" |}].
Proof.
  destruct (failure_that_is_not_retried_is_thrown_at_once
              Scenario.appLimiter (Scenario.failing 404) 9 Scenario.listDevices true 0
              Scenario.signedIn (Some "access-0") (Some 404) "Request failed" 20
              signedIn_free signedIn_authorized eq_refl eq_refl eq_refl)
    as (w' & Hreq & Htrace & _).
  exists w'. split; [exact Hreq | exact Htrace].
Defined.

(** A device list that the server accepts after 30 ms. *)
Lemma accepted_call_gives_its_slot_back :
  exists w',
    request Scenario.appLimiter Scenario.accepting 10 Scenario.listDevices true 0
      Scenario.signedIn = Some (Resolved OtherBody, w') /\
    now w' = 1000030 /\ RateLimiter.activeCount (limiter w') = 0.
Proof.
  destruct (successful_call_is_made_once
              Scenario.appLimiter Scenario.accepting 9 Scenario.listDevices true 0
              Scenario.signedIn (Some "access-0") OtherBody 30
              signedIn_free signedIn_authorized eq_refl)
    as (w' & Hreq & _ & Hnow & _ & Hactive & _).
  exists w'. split; [exact Hreq|]. split; [exact Hnow | exact Hactive].
Defined.

(** The server has dropped the session: with the two slots of the app
    the device list is fetched after one refresh. *)
Lemma expired_session_is_renewed_in_the_app :
  exists w' renewed,
    request Scenario.appLimiter Scenario.expired 10 Scenario.listDevices true 0
      Scenario.signedIn = Some (Resolved OtherBody, w') /\
    tokens w' = Some renewed /\ accessToken renewed = "access-1" /\
    RateLimiter.activeCount (limiter w') = 0.
Proof.
  destruct (rejected_session_is_renewed_and_the_call_repeated
              Scenario.appLimiter Scenario.expired 8 Scenario.listDevices
              Scenario.signedIn Scenario.session
              "Request failed with status code 401" "access-1" (Scenario.tokensFor 3600)
              OtherBody 10 10 30 0
              signedIn_free ltac:(simpl; lia) eq_refl eq_refl ltac:(simpl; lia)
              eq_refl eq_refl eq_refl eq_refl eq_refl eq_refl
              ltac:(vm_compute; intros H; discriminate H) eq_refl)
    as (w' & renewed & Hreq & _ & _ & Htokens & _ & Haccess & Hactive & _).
  exists w', renewed. split; [exact Hreq|]. split; [exact Htokens|].
  split; [exact Haccess | exact Hactive].
Defined.

(** The renewed session is declared for 60 seconds and the write to
    the store takes a millisecond.  When the call is repeated the
    renewed session is about to expire already, and it is renewed a
    second time before the call is made. *)
Lemma short_session_is_renewed_again_before_the_call_is_repeated :
  exists w',
    request Scenario.appLimiter (Scenario.expiredFor 60) 10 Scenario.listDevices true 0
      (set_credentialsClient Scenario.slowStore Scenario.signedIn)
      = Some (Resolved OtherBody, w') /\
    map (fun r => (url (config r), authorization r)) (requestsOf (trace w')) =
      [ ("/device/group", Some "access-0"); ("/auth/token", None);
        ("/auth/token", None); ("/device/group", Some "access-1") ] /\
    writes w' = 2%nat.
Proof. eexists. split; [vm_compute; reflexivity|]. vm_compute. split; reflexivity. Qed.

(** The stored session expires in 10 seconds. *)
Lemma session_about_to_expire_is_renewed_first :
  exists w' renewed,
    request Scenario.appLimiter Scenario.expired 10 Scenario.listDevices true 0
      (fresh 4990000 (Some Scenario.session)) = Some (Resolved OtherBody, w') /\
    requestsOf (trace w') =
      [ {| config := refreshRequest Scenario.session; authorization := None |};
        {| config := Scenario.listDevices; authorization := Some "access-1" |} ] /\
    store w' = Some renewed /\ accessToken renewed = "access-1".
Proof.
  destruct (expiring_session_is_renewed_before_the_call
              Scenario.appLimiter Scenario.expired 8 Scenario.listDevices 0
              (fresh 4990000 (Some Scenario.session)) Scenario.session
              "access-1" (Scenario.tokensFor 3600) OtherBody 10 30)
    as (w' & renewed & Haccess & _ & _ & _ & Hreq & Hsent & Hstore).
  - unfold free. simpl. split; [reflexivity|]. split; [reflexivity|]. lia.
  - reflexivity.
  - simpl. lia.
  - reflexivity.
  - reflexivity.
  - reflexivity.
  - reflexivity.
  - reflexivity.
  - exists w', renewed. split; [exact Hreq|]. split; [exact Hsent|].
    split; [exact Hstore | exact Haccess].
Defined.

(** The stored session expires in 10 seconds, the refresh is granted
    and the store cannot be written: the request is rejected with the
    error of the store after the refresh, and the device list is not
    asked for. *)
Lemma session_about_to_expire_is_not_used_when_the_store_is_broken :
  exists w' renewed,
    request Scenario.appLimiter Scenario.expired 10 Scenario.listDevices true 0
      (set_credentialsClient Scenario.brokenStore (fresh 4990000 (Some Scenario.session)))
      = Some (Rejected (JsError "Could not write the settings"), w') /\
    requestsOf (trace w') =
      [ {| config := refreshRequest Scenario.session; authorization := None |} ] /\
    tokens w' = Some renewed /\ accessToken renewed = "access-1" /\
    store w' = Some Scenario.session.
Proof. eexists _, _. split; [vm_compute; reflexivity|]. vm_compute. repeat split. Qed.

(** A new client over an empty store. *)
Lemma new_client_without_credentials_makes_no_call :
  readState Scenario.appLimiter Scenario.accepting Scenario.decoded 10 "abc123"
    (fresh 1000000 None)
    = Some (Rejected (JsError "Comfort Cloud credentials missing"),
            loaded (fresh 1000000 None)) /\
  trace (loaded (fresh 1000000 None)) = [].
Proof.
  destruct (without_a_session_no_call_is_made
              Scenario.appLimiter Scenario.accepting Scenario.decoded 10
              Scenario.listDevices 0 "abc123" Scenario.switchOff (fresh 1000000 None) eq_refl)
    as (_ & Hread & _ & Htrace & _).
  split; [exact Hread | exact Htrace].
Defined.

(** A session declared for 3600 seconds is still used as it is 3480
    seconds after its issue. *)
Lemma hour_long_session_is_used_for_58_minutes :
  ensureAuthenticated Scenario.appLimiter Scenario.accepting 10
    (withSession
       {| accessToken := "access-1"; refreshToken := "refresh-1"; userId := "user-1";
          expiresAt := 1000000 + 3540 * 1000 |}
       (fresh (1000000 + 3480 * 1000) None))
  = Some (Resolved
            {| accessToken := "access-1"; refreshToken := "refresh-1"; userId := "user-1";
               expiresAt := 1000000 + 3540 * 1000 |},
          withSession
            {| accessToken := "access-1"; refreshToken := "refresh-1"; userId := "user-1";
               expiresAt := 1000000 + 3540 * 1000 |}
            (fresh (1000000 + 3480 * 1000) None)).
Proof.
  apply (session_is_refreshed_two_minutes_before_it_expires
           Scenario.appLimiter Scenario.accepting 10 (Scenario.tokensFor 3600) None 1000000
           {| accessToken := "access-1"; refreshToken := "refresh-1"; userId := "user-1";
              expiresAt := 1000000 + 3540 * 1000 |}
           (withSession
              {| accessToken := "access-1"; refreshToken := "refresh-1"; userId := "user-1";
                 expiresAt := 1000000 + 3540 * 1000 |}
              (fresh (1000000 + 3480 * 1000) None))
           eq_refl eq_refl eq_refl).
  vm_compute. intros H. discriminate H.
Defined.

(** A login that the server grants. *)
Lemma login_in_the_app_stores_the_session :
  exists session w',
    login Scenario.appLimiter (Scenario.answering (Scenario.tokensFor 3600)) 10
      Scenario.credentials (fresh 1000000 None) = Some (Resolved session, w') /\
    tokens w' = Some session /\ store w' = Some session.
Proof.
  destruct (login Scenario.appLimiter (Scenario.answering (Scenario.tokensFor 3600)) 10
              Scenario.credentials (fresh 1000000 None)) as [[o w']|] eqn:Hlogin;
    [|by vm_compute in Hlogin].
  pose proof (login_stores_the_session_it_returns _ _ _ _ _ _ _ Hlogin) as Hstored.
  destruct o as [session | e |].
  - exists session, w'. split; [reflexivity|].
    destruct Hstored as (Ht & Hs & _). split; [exact Ht | exact Hs].
  - vm_compute in Hlogin. discriminate.
  - vm_compute in Hlogin. discriminate.
Defined.

(** A login that the server grants while the store cannot be written:
    [login] is rejected with the error of the store, the session of the
    response is in memory, and the store is empty as before. *)
Lemma login_with_a_broken_store_keeps_the_session_in_memory :
  exists session w',
    login Scenario.appLimiter (Scenario.answering (Scenario.tokensFor 3600)) 10
      Scenario.credentials
      (set_credentialsClient Scenario.brokenStore (fresh 1000000 None))
      = Some (Rejected (JsError "Could not write the settings"), w') /\
    tokens w' = Some session /\ accessToken session = "access-1" /\ store w' = None.
Proof. eexists _, _. split; [vm_compute; reflexivity|]. vm_compute. repeat split. Qed.

(** A read of the device 'abc123'. *)
Lemma read_puts_the_state_in_the_cache :
  exists w',
    readState Scenario.appLimiter Scenario.accepting Scenario.decoded 10 "abc123"
      Scenario.signedIn = Some (Resolved Scenario.livingRoom, w') /\
    stateCache w' !! "abc123" = Some Scenario.livingRoom.
Proof.
  destruct (readState Scenario.appLimiter Scenario.accepting Scenario.decoded 10 "abc123"
              Scenario.signedIn) as [[o w']|] eqn:Hread; [|by vm_compute in Hread].
  pose proof (cache_holds_what_the_last_read_returned
                Scenario.appLimiter Scenario.accepting Scenario.decoded 10 "abc123"
                Scenario.switchOff Scenario.signedIn w' o (or_introl Hread)) as Hcache.
  vm_compute in Hread. injection Hread as <- <-.
  eexists. split; [reflexivity|]. apply Hcache.
Defined.

(** Five slots and a server that answers 429 every time. *)
Lemma five_slots_let_the_retries_run_out :
  exists w' status message,
    request (Scenario.limiterWith 5) Scenario.throttling 10 Scenario.listDevices false 0
      (fresh 1000000 None)
      = Some (Rejected (AxiosError (Some status) message), w') /\
    backoffsOf (trace w') = [1000; 2000; 4000; 8000] /\
    length (requestsOf (trace w')) = 5%nat.
Proof.
  destruct (retries_exhaust_with_a_slot_per_attempt
              (Scenario.limiterWith 5) Scenario.throttling 5 Scenario.listDevices
              (fresh 1000000 None))
    as (w' & status & message & Hreq & _ & Hwaits & Hsent).
  - simpl. lia.
  - intros n r. exists 429, "Request failed with status code 429".
    split; [reflexivity | left; reflexivity].
  - unfold free. simpl. split; [reflexivity|]. split; [reflexivity|]. lia.
  - reflexivity.
  - exists w', status, message. split; [exact Hreq|]. split; [exact Hwaits | exact Hsent].
Defined.

(** A refresh that the server never answers. *)
Lemma refresh_that_times_out_keeps_the_session :
  exists o w',
    refresh Scenario.appLimiter Scenario.silent 10 Scenario.session Scenario.signedIn
      = Some (o, w') /\
    sameSession Scenario.signedIn w'.
Proof.
  destruct (refresh Scenario.appLimiter Scenario.silent 10 Scenario.session
              Scenario.signedIn) as [[o w']|] eqn:Hrefresh; [|by vm_compute in Hrefresh].
  exists o, w'. split; [reflexivity|].
  apply (refresh_failure_keeps_the_stored_session Scenario.appLimiter Scenario.silent 10
           Scenario.session Scenario.signedIn w' o Hrefresh); [|reflexivity].
  intros stored ->. vm_compute in Hrefresh. discriminate.
Defined.

(** A refresh that the server grants while the store cannot be written:
    [refresh] is rejected with the error of the store, the session in
    memory is the new one, and the store holds the previous one. *)
Lemma refresh_with_a_broken_store_replaces_the_session_in_memory :
  exists renewed w',
    refresh Scenario.appLimiter Scenario.expired 10 Scenario.session
      (set_credentialsClient Scenario.brokenStore Scenario.signedIn)
      = Some (Rejected (JsError "Could not write the settings"), w') /\
    tokens w' = Some renewed /\ accessToken renewed = "access-1" /\
    store w' = Some Scenario.session.
Proof. eexists _, _. split; [vm_compute; reflexivity|]. vm_compute. repeat split. Qed.

End ClientWitnesses.

Section MapperWitnesses.
Import Types Mappers.

(** The raw mode 'Constructor'. *)
Lemma constructor_is_returned_as_a_mode :
  mapThermostatMode (Some (JString "Constructor")) = toLowerCase "Constructor" /\
  forall m, mapThermostatMode (Some (JString "Constructor")) <> modeName m.
Proof.
  destruct (mapThermostatMode_yields_a_mode_or_an_inherited_key
              (Some (JString "Constructor"))) as (_ & _ & Hkey & _).
  apply (Hkey "Constructor" eq_refl). by left.
Defined.

End MapperWitnesses.

(* ------------------------------------------------------------------ *)
(** ** The store of the tokens *)

Section TokenStoreFacts.
Import Types SettingsTokenStore App.

(** X27.  [get()] never yields a value that fails validation: what it
    returns is the value that the settings hold under the key, it is
    not null, and it passes [validate].  A stored value that fails
    validation is reported to [onError], removed from the settings and
    read as null, so that the next [get()] finds nothing; when [unset]
    throws, the value stays and 'clear' is reported too.  When
    [settings.get] throws, [get()] reports it and returns null: it
    never throws. *)
Theorem get_yields_valid_values_and_clears_invalid_ones (o : Options) (s : State) :
  (forall value, fst (get o s) = Some value ->
     snd (get o s) = s /\
     values (settings s) !! key o = Some value /\ value <> Null /\
     forall valid, validate o = Some valid -> valid value = true) /\
  (forall valid value,
     throws (settings s) Get = false ->
     validate o = Some valid ->
     values (settings s) !! key o = Some value -> value <> Null -> valid value = false ->
     fst (get o s) = None /\
     (throws (settings s) Unset = false ->
        values (settings (snd (get o s))) = delete (key o) (values (settings s)) /\
        errors (snd (get o s)) = errors s ++ ["get"] /\
        fst (get o (snd (get o s))) = None /\
        errors (snd (get o (snd (get o s)))) = errors s ++ ["get"]) /\
     (throws (settings s) Unset = true ->
        values (settings (snd (get o s))) = values (settings s) /\
        errors (snd (get o s)) = errors s ++ ["get"; "clear"])) /\
  (throws (settings s) Get = true ->
     get o s = (None, logError "get" s)).
Proof.
  split; [|split].
  - intros value. unfold get.
    destruct (throws (settings s) Get); [discriminate|].
    destruct (values (settings s) !! key o) as [[n | t | b | | l | f]|] eqn:Hv;
      try discriminate;
      (destruct (validate o) as [valid|] eqn:Hval;
       [destruct (valid _) eqn:Hok; [|discriminate]|]);
      simpl; intros [= <-]; (split; [reflexivity|]); (split; [reflexivity|]);
      (split; [discriminate|]); intros valid' [= <-]; try exact Hok.
  - intros valid value Hget Hval Hv Hnull Hbad.
    assert (Hfirst : get o s = (None, clearInvalidValue o (logError "get" s))).
    { unfold get. rewrite Hget, Hv, Hval, Hbad. by destruct value. }
    rewrite Hfirst. simpl. split; [reflexivity|]. unfold clearInvalidValue. simpl.
    split; intros Hunset; rewrite Hunset; simpl.
    + split; [reflexivity|]. split; [reflexivity|].
      unfold get. simpl. rewrite Hget, lookup_delete_eq. by split.
    + rewrite <- app_assoc. by split.
  - intros Hget. unfold get. by rewrite Hget.
Qed.

Lemma isAuthTokens_ofAuthTokens (t : AuthTokens) : isAuthTokens (ofAuthTokens t) = true.
Proof. unfold isAuthTokens, ofAuthTokens. by simplify_map_eq. Qed.

(** X28.  With the store that [onInit] creates for the tokens, which
    validates with [isAuthTokens]: the tokens that were [set] are what
    [get] returns afterwards, no error is reported and no other key of
    the settings is touched; after [unset], [get] returns null.  The
    stored form determines the tokens. *)
Theorem stored_tokens_are_read_back (t : AuthTokens) (s : State) :
  throws (settings s) Put = false ->
  throws (settings s) Get = false ->
  let s1 := snd (set tokenStore (ofAuthTokens t) s) in
  fst (set tokenStore (ofAuthTokens t) s) = Done /\
  get tokenStore s1 = (Some (ofAuthTokens t), s1) /\
  errors s1 = errors s /\
  (forall other, other <> key tokenStore ->
     values (settings s1) !! other = values (settings s) !! other) /\
  (throws (settings s) Unset = false ->
     get tokenStore (unset tokenStore s1) = (None, unset tokenStore s1)) /\
  (forall t', ofAuthTokens t' = ofAuthTokens t -> t' = t).
Proof.
  intros Hput Hget s1. subst s1. unfold set. rewrite Hput. simpl.
  split; [reflexivity|]. split; [|split; [reflexivity|split; [|split]]].
  - unfold get. simpl. rewrite Hget, lookup_insert_eq.
    change (ofAuthTokens t) with
      (Obj (<["accessToken" := Str (accessToken t)]>
              (<["refreshToken" := Str (refreshToken t)]>
                 (<["userId" := Str (userId t)]>
                    (<["expiresAt" := Num (expiresAt t)]> ∅))))) at 1.
    cbv iota. fold (ofAuthTokens t). by rewrite isAuthTokens_ofAuthTokens.
  - intros other Hne. by rewrite lookup_insert_ne.
  - intros Hunset. unfold unset, get. simpl. rewrite Hunset. simpl.
    by rewrite Hget, lookup_delete_eq.
  - intros t' Heq.
    assert (Hf : forall k : string,
              match ofAuthTokens t' with Obj f => f !! k | _ => None end =
              match ofAuthTokens t with Obj f => f !! k | _ => None end).
    { intros k. by rewrite Heq. }
    pose proof (Hf "accessToken") as Ha. pose proof (Hf "refreshToken") as Hr.
    pose proof (Hf "userId") as Hu. pose proof (Hf "expiresAt") as He.
    unfold ofAuthTokens in Ha, Hr, Hu, He. simplify_map_eq.
    by destruct t, t'; simpl in *; subst.
Qed.

(** The session of the scenarios, stored in empty settings. *)
Lemma tokens_survive_a_restart :
  get tokenStore
    (snd (set tokenStore (ofAuthTokens Scenario.session)
            {| settings := {| values := ∅; throws := fun _ => false |}; errors := [] |}))
  = (Some (ofAuthTokens Scenario.session),
     snd (set tokenStore (ofAuthTokens Scenario.session)
            {| settings := {| values := ∅; throws := fun _ => false |}; errors := [] |})).
Proof.
  apply (stored_tokens_are_read_back Scenario.session
           {| settings := {| values := ∅; throws := fun _ => false |}; errors := [] |}
           eq_refl eq_refl).
Defined.

(** The settings hold a string under the key of the tokens. *)
Lemma stored_string_is_cleared_by_get :
  fst (get tokenStore
         {| settings := {| values := {[ "comfortcloud.tokens" := Str "access-0" ]};
                           throws := fun _ => false |};
            errors := [] |}) = None /\
  values (settings (snd (get tokenStore
         {| settings := {| values := {[ "comfortcloud.tokens" := Str "access-0" ]};
                           throws := fun _ => false |};
            errors := [] |}))) !! "comfortcloud.tokens" = None.
Proof.
  destruct (get_yields_valid_values_and_clears_invalid_ones tokenStore
              {| settings := {| values := {[ "comfortcloud.tokens" := Str "access-0" ]};
                                throws := fun _ => false |};
                 errors := [] |}) as (_ & Hinvalid & _).
  destruct (Hinvalid isAuthTokens (Str "access-0") eq_refl eq_refl eq_refl
              ltac:(discriminate) eq_refl) as (Hnone & Hcleared & _).
  split; [exact Hnone|].
  destruct (Hcleared eq_refl) as (Hvalues & _).
  rewrite Hvalues. apply lookup_delete_eq.
Defined.

End TokenStoreFacts.
